(** * Gemini-AI-Studio: the assisted-grading front-end

    The first part models the code, one module per source file:

    - [Js]             the JavaScript string primitives the code relies on
                       ([trim], [includes], [toLowerCase], [slice], ...);
    - [Regex]          regular-expression literals and the backtracking
                       matcher that runs them ([exec], [test], [split]);
    - [Value]          run-time values and objects ([JSON.parse] results,
                       object spread, truthiness);
    - [Service]        services/geminiService.ts: [withRetry] and the five
                       calls built on it;
    - [FormattedText]  components/FormattedText.tsx;
    - [LatexPreview]   components/LatexPreview.tsx ([MathBlock],
                       [getRenderableContent]; in the sources it follows
                       the editor in components/LatexEditor.tsx);
    - [LatexEditor]    components/LatexEditor.tsx;
    - [FileUpload]     components/FileUpload.tsx ([handleFile]);
    - [QuestionSetup]  components/QuestionSetup.tsx;
    - [App]            App.tsx.

    The second part states and proves the properties, C1 to C10.  The
    third part proves further properties of the same code, X1 to X27:
    what the retry wrapper and the five calls do on failure and on empty
    answers, what the splits and the preview keep of a text, and what the
    handlers of the editor, of the question form and of the application
    leave behind.

    Text is a list of code units.  Every code unit is taken in the Latin-1
    range (one [ascii] per UTF-16 unit), which covers all the delimiters,
    keywords and white space the code tests for.  What lies outside the
    client (the remote service, [JSON.parse], [crypto.randomUUID],
    [window.katex]) is a parameter of the model. *)

From Stdlib Require Import ZArith Ascii String List Lia Bool.
From stdpp Require Import base list strings gmap pretty.

Set Warnings "-register-all".
Set Default Proof Using "Type".

Abbreviation text := (list ascii).

(** [lit "abc"] is the text of a literal. *)
Definition lit (s : string) : text := list_ascii_of_string s.

(* ===================================================================== *)
(** * JavaScript string primitives *)
(* ===================================================================== *)

Module Js.

Definition code (c : ascii) : N := N_of_ascii c.

Definition in_range (lo hi : N) (c : ascii) : bool :=
  ((lo <=? code c) && (code c <=? hi))%N.

(** White space and line terminators of ECMAScript that fit in one Latin-1
    unit: TAB, LF, VT, FF, CR, SP and NBSP.  [trim] and the [\s] class of
    regular expressions use the same set. *)
Definition is_space (c : ascii) : bool :=
  in_range 9 13 c || (code c =? 32)%N || (code c =? 160)%N.

Definition is_upper (c : ascii) : bool :=
  in_range 65 90 c || in_range 192 214 c || in_range 216 222 c.

Definition is_lower (c : ascii) : bool :=
  in_range 97 122 c || in_range 224 246 c || in_range 248 254 c.

Definition lower_unit (c : ascii) : ascii :=
  if is_upper c then ascii_of_N (code c + 32) else c.

Definition upper_unit (c : ascii) : ascii :=
  if is_lower c then ascii_of_N (code c - 32) else c.

(** [String.prototype.toLowerCase] *)
Definition toLowerCase (s : text) : text := map lower_unit s.

(** [String.prototype.startsWith] *)
Fixpoint startsWith (p s : text) : bool :=
  match p, s with
  | [], _ => true
  | _ :: _, [] => false
  | a :: p', b :: s' => Ascii.eqb a b && startsWith p' s'
  end.

(** [String.prototype.includes] *)
Fixpoint includes (sub s : text) : bool :=
  startsWith sub s ||
  match s with
  | [] => false
  | _ :: s' => includes sub s'
  end.

Fixpoint trimStart (s : text) : text :=
  match s with
  | c :: s' => if is_space c then trimStart s' else s
  | [] => []
  end.

Definition trimEnd (s : text) : text := rev (trimStart (rev s)).

(** [String.prototype.trim] *)
Definition trim (s : text) : text := trimEnd (trimStart s).

(** [s.slice(a, b)] for [0 <= a] and [0 <= b] ([b] is clamped to the
    length, an empty text is returned when [b <= a]). *)
Definition slice (a b : nat) (s : text) : text := take (b - a) (drop a s).

(** [s.slice(a, -b)] for [0 <= a] and [0 < b]: the end counts from the
    back. *)
Definition slice_back (a b : nat) (s : text) : text :=
  slice a (length s - b) s.

(** [s.lastIndexOf(c)] for a one-unit [c]; [None] stands for [-1]. *)
Fixpoint lastIndexOf (c : ascii) (s : text) : option nat :=
  match s with
  | [] => None
  | d :: s' =>
      match lastIndexOf c s' with
      | Some i => Some (S i)
      | None => if Ascii.eqb d c then Some 0 else None
      end
  end.

(** [s.split(sep)] for a separator of one unit. *)
Fixpoint split_on (sep : ascii) (s : text) : list text :=
  match s with
  | [] => [[]]
  | c :: s' =>
      if Ascii.eqb c sep then [] :: split_on sep s'
      else
        match split_on sep s' with
        | piece :: pieces => (c :: piece) :: pieces
        | [] => [[c]]
        end
  end.

End Js.

(* ===================================================================== *)
(** * Regular expressions, as the JavaScript engine runs them *)
(* ===================================================================== *)

(** The components hold their patterns as regular-expression literals.  A
    literal is written here as a term of [re], constructor for constructor,
    and run by [m], a backtracking matcher with the priorities of
    ECMAScript: alternatives left to right, greedy quantifiers longest
    first, lazy ones shortest first, an iteration that consumes nothing
    rejected. *)

Module Regex.

Inductive citem :=
| CChr (c : ascii)          (* a literal unit *)
| CRng (lo hi : ascii)      (* [lo-hi] *)
| CDigit                    (* \d *)
| CWord                     (* \w *)
| CSpace                    (* \s *)
| CNonSpace.                (* \S *)

Inductive re :=
| Eps
| Set_ (neg : bool) (items : list citem)  (* a class, or one literal unit *)
| Dot                                     (* .  (no [s] flag) *)
| Seq (a b : re)
| Alt (a b : re)
| Star (greedy : bool) (a : re)           (* a*  and  a*? *)
| WordBoundary                            (* \b *)
| AtEnd                                   (* $  (no [m] flag) *)
| AtStart                                 (* ^  (no [m] flag) *)
| Group (a : re).                         (* the capturing group *)

(** Derived forms. *)
Definition Chr (c : ascii) : re := Set_ false [CChr c].
Definition Plus (greedy : bool) (a : re) : re := Seq a (Star greedy a).
Definition Opt (a : re) : re := Alt a Eps.
Definition Any : re := Set_ false [CSpace; CNonSpace].   (* [\s\S] *)
Fixpoint Lit (s : text) : re :=
  match s with
  | [] => Eps
  | [c] => Chr c
  | c :: s' => Seq (Chr c) (Lit s')
  end.
Fixpoint Seqs (l : list re) : re :=
  match l with
  | [] => Eps
  | [a] => a
  | a :: l' => Seq a (Seqs l')
  end.
Fixpoint Alts (l : list re) : re :=
  match l with
  | [] => Eps
  | [a] => a
  | a :: l' => Alt a (Alts l')
  end.

Definition is_digit (c : ascii) : bool := Js.in_range 48 57 c.

Definition is_word (c : ascii) : bool :=
  Js.in_range 97 122 c || Js.in_range 65 90 c || is_digit c
  || (Js.code c =? 95)%N.

Definition is_line_terminator (c : ascii) : bool :=
  (Js.code c =? 10)%N || (Js.code c =? 13)%N.

Definition item_has (it : citem) (c : ascii) : bool :=
  match it with
  | CChr d => Ascii.eqb c d
  | CRng lo hi => Js.in_range (Js.code lo) (Js.code hi) c
  | CDigit => is_digit c
  | CWord => is_word c
  | CSpace => Js.is_space c
  | CNonSpace => negb (Js.is_space c)
  end.

(** Membership of [c] in a class.  Under the [i] flag a unit matches when
    some member has the same canonical (upper-case) form; within Latin-1
    the units sharing the canonical form of [c] are [c] and its two case
    counterparts. *)
Definition class_has (ignoreCase : bool) (items : list citem) (c : ascii) : bool :=
  existsb (fun it =>
    item_has it c
    || (ignoreCase && (item_has it (Js.upper_unit c) || item_has it (Js.lower_unit c))))
    items.

(** Position in the subject: the index, the unit just before it (for
    [\b]), the units still ahead, and the span of the capturing group. *)
Record mstate := mkState {
  pos : nat;
  prev : option ascii;
  rest : text;
  cap : option (nat * nat)
}.

Definition advance (st : mstate) : mstate :=
  match rest st with
  | c :: t => mkState (S (pos st)) (Some c) t (cap st)
  | [] => st
  end.

Definition word_before (st : mstate) : bool :=
  match prev st with Some c => is_word c | None => false end.

Definition word_after (st : mstate) : bool :=
  match rest st with c :: _ => is_word c | [] => false end.

Definition orelse {A} (x y : option A) : option A :=
  match x with Some _ => x | None => y end.

(** Whether a class, negated or not, takes the unit [c]. *)
Definition takes (ic neg : bool) (items : list citem) (c : ascii) : bool :=
  xorb neg (class_has ic items c).

(** Iterations of a starred pattern, [step] matching it once.  One more
    iteration is tried before (greedy) or after (lazy) leaving the loop; an
    iteration that does not move forward is rejected, so the [n] rounds
    given by [m] are never used up. *)
Fixpoint star_loop (step : mstate -> (mstate -> option mstate) -> option mstate)
    (greedy : bool) (n : nat) (st : mstate) (k : mstate -> option mstate)
    {struct n} : option mstate :=
  match n with
  | O => k st
  | S n' =>
      let again :=
        step st (fun st' =>
          if pos st <? pos st' then star_loop step greedy n' st' k else None) in
      if greedy then orelse again (k st) else orelse (k st) again
  end.

(** [m ic r st k]: match [r] at [st], then continue with [k]; the first
    complete match in priority order is returned. *)
Fixpoint m (ic : bool) (r : re) (st : mstate) (k : mstate -> option mstate)
    {struct r} : option mstate :=
  match r with
  | Eps => k st
  | Set_ neg items =>
      match rest st with
      | c :: _ => if takes ic neg items c then k (advance st) else None
      | [] => None
      end
  | Dot =>
      match rest st with
      | c :: _ => if is_line_terminator c then None else k (advance st)
      | [] => None
      end
  | Seq a b => m ic a st (fun st' => m ic b st' k)
  | Alt a b => orelse (m ic a st k) (m ic b st k)
  | Star greedy a => star_loop (m ic a) greedy (S (length (rest st))) st k
  | WordBoundary => if xorb (word_before st) (word_after st) then k st else None
  | AtEnd => match rest st with [] => k st | _ :: _ => None end
  | AtStart => match prev st with None => k st | Some _ => None end
  | Group a =>
      m ic a st (fun st' =>
        k (mkState (pos st') (prev st') (rest st') (Some (pos st, pos st'))))
  end.

(** The position reached once [pre] has been read, [post] still ahead. *)
Definition reached (pre post : text) (c : option (nat * nat)) : mstate :=
  mkState (length pre) (last pre) post c.

(** One attempt at the current position (a sticky [exec]). *)
Definition match_here (ic : bool) (r : re) (st : mstate) : option mstate :=
  m ic r (mkState (pos st) (prev st) (rest st) None) Some.

(** Whether [r] matches in [s] from index [i] on. *)
Definition matches_at (ic : bool) (r : re) (s : text) (i : nat) : bool :=
  match match_here ic r (reached (take i s) (drop i s) None) with
  | Some _ => true
  | None => false
  end.

(** [st'] is a position of the same subject as [st], not before it. *)
Definition ahead (st st' : mstate) : Prop :=
  pos st <= pos st' /\ pos st' + length (rest st') = pos st + length (rest st).

(** A position with another record of the group. *)
Definition with_cap (c : option (nat * nat)) (st : mstate) : mstate :=
  mkState (pos st) (prev st) (rest st) c.

Definition start (s : text) : mstate := mkState 0 None s None.

(** The text of the capturing group in subject [s]. *)
Definition captured (s : text) (st : mstate) : option text :=
  match cap st with
  | Some (a, b) => Some (Js.slice a b s)
  | None => None
  end.

(** [s.match(r)] for a pattern without [g]: the leftmost match; the result
    is the state at its end, holding the group. *)
Fixpoint search (ic : bool) (r : re) (n : nat) (st : mstate) : option mstate :=
  match match_here ic r st with
  | Some e => Some e
  | None =>
      match n with
      | O => None
      | S n' => match rest st with
                | [] => None
                | _ :: _ => search ic r n' (advance st)
                end
      end
  end.

Definition exec (ic : bool) (r : re) (s : text) : option mstate :=
  search ic r (length s) (start s).

(** [r.test(s)] *)
Definition test (ic : bool) (r : re) (s : text) : bool :=
  match exec ic r s with Some _ => true | None => false end.

Fixpoint has_group (r : re) : bool :=
  match r with
  | Group _ => true
  | Seq a b | Alt a b => has_group a || has_group b
  | Star _ a => has_group a
  | _ => false
  end.

(** The loop of [s.split(r)] for a non-empty [s]: [p] is where the piece
    being collected starts, [stq] the position [q] tried next.  A match
    that ends at [p] is passed over; otherwise the piece [s[p..q)] and then
    the group are pushed.  No match is tried at the end of [s].  Each
    position is visited at most twice, so [2 * length s + 1] rounds are
    enough. *)
Fixpoint split_loop (ic : bool) (r : re) (s : text) (fuel : nat)
    (p : nat) (stq : mstate) : list text :=
  match fuel with
  | O => [drop p s]
  | S fuel' =>
      if pos stq <? length s then
        match match_here ic r stq with
        | None => split_loop ic r s fuel' p (advance stq)
        | Some e =>
            if pos e =? p then split_loop ic r s fuel' p (advance stq)
            else
              Js.slice p (pos stq) s
              :: (if has_group r then [default [] (captured s e)] else [])
              ++ split_loop ic r s fuel' (pos e) e
        end
      else [drop p s]
  end.

(** [s.split(r)] where [r] has at most one capturing group.  A group that
    took no part in the match would be pushed as [undefined]; the patterns
    of this repository that have a group wrap the whole alternation in
    it, so it always takes part. *)
Definition split (ic : bool) (r : re) (s : text) : list text :=
  match s with
  | [] => match match_here ic r (start s) with Some _ => [] | None => [[]] end
  | _ :: _ => split_loop ic r s (2 * length s + 1) 0 (start s)
  end.

(** [st'] is reached from [st] by reading some units of the subject. *)
Definition reads (st st' : mstate) : Prop :=
  exists run, rest st = run ++ rest st' /\ pos st' = pos st + length run.

(** [st] is a position of the subject [s]. *)
Definition sited (s : text) (st : mstate) : Prop :=
  rest st = drop (pos st) s /\ pos st <= length s.

(** The loop of [s.replace(r, by)] for a pattern with the [g] flag and a
    replacement without dollar patterns: every match, tried from left to
    right, gives way to [by]; the units between matches are kept; after an
    empty match the search moves on by one unit.  The position moves
    forward in every round, so [length s + 1] rounds are enough. *)
Fixpoint replace_loop (ic : bool) (r : re) (by_ : text) (fuel : nat)
    (stq : mstate) : text :=
  match fuel with
  | O => rest stq
  | S fuel' =>
      let skip :=
        match rest stq with
        | [] => []
        | c :: _ => c :: replace_loop ic r by_ fuel' (advance stq)
        end in
      match match_here ic r stq with
      | Some e =>
          by_ ++ (if pos stq <? pos e then replace_loop ic r by_ fuel' e else skip)
      | None => skip
      end
  end.

Definition replace_all (ic : bool) (r : re) (by_ : text) (s : text) : text :=
  replace_loop ic r by_ (S (length s)) (start s).

(** A text without dollar sign and without backslash, and a position with
    neither of them next. *)
Definition plain (s : text) : Prop :=
  Forall (fun c => c <> "$"%char /\ c <> "\"%char) s.

Definition plain_ahead (st : mstate) : Prop :=
  match rest st with
  | [] => True
  | c :: _ => c <> "$"%char /\ c <> "\"%char
  end.

End Regex.

(* ===================================================================== *)
(** * Run-time values *)
(* ===================================================================== *)

(** The values [JSON.parse] produces and the objects the components pass
    around.  An object is a finite map from property names; a missing
    property reads as [undefined].  Numbers are taken to be integers (marks
    and scores with a fractional part play no role below). *)
Inductive jsval :=
| VUndef
| VNull
| VBool (b : bool)
| VNum (z : Z)
| VStr (s : text)
| VArr (l : list jsval)
| VObj (o : gmap string jsval).

Abbreviation jsobj := (gmap string jsval).

Module Value.

(** [o.k] *)
Definition get (o : jsobj) (k : string) : jsval := default VUndef (o !! k).

(** ToBoolean *)
Definition truthy (v : jsval) : bool :=
  match v with
  | VUndef | VNull => false
  | VBool b => b
  | VNum z => negb (z =? 0)%Z
  | VStr s => match s with [] => false | _ :: _ => true end
  | VArr _ | VObj _ => true
  end.

(** [a || b] *)
Definition or (a b : jsval) : jsval := if truthy a then a else b.

(** Own enumerable properties copied by [{...v}]: those of an object, the
    indices of an array or of a string, nothing for the other values. *)
Definition spread (v : jsval) : jsobj :=
  match v with
  | VObj o => o
  | VArr l => list_to_map (imap (fun i x => (pretty i, x)) l)
  | VStr s => list_to_map (imap (fun i c => (pretty i, VStr [c])) s)
  | _ => ∅
  end.

End Value.

(* ===================================================================== *)
(** * services/geminiService.ts *)
(* ===================================================================== *)

Module Service.

(** What the code reads of a thrown value: [error.status],
    [error.response?.status] and [error.message].  A status is a number or
    undefined. *)
Record JsError := mkError {
  err_status : option Z;
  err_response_status : option Z;
  err_message : text
}.

(** [new Error(msg)] *)
Definition Error (msg : text) : JsError := mkError None None msg.

(** A settled promise. *)
Inductive outcome (T : Type) :=
| Resolved (v : T)
| Rejected (e : JsError).
Arguments Resolved {T} v.
Arguments Rejected {T} e.

Record RetryConfig := {
  maxRetries : nat;
  initialDelay : Z;
  backoffFactor : Z
}.

Definition RETRY_CONFIG : RetryConfig :=
  {| maxRetries := 3; initialDelay := 2000; backoffFactor := 2 |}.

(** [a || b] on a number-or-undefined: [0] and undefined are falsy. *)
Definition num_or (a b : option Z) : option Z :=
  match a with
  | Some z => if (z =? 0)%Z then b else a
  | None => b
  end.

(** [const status = error.status || error.response?.status] *)
Definition status_of (e : JsError) : option Z :=
  num_or (err_status e) (err_response_status e).

Definition status_is (n : Z) (s : option Z) : bool :=
  match s with Some z => (z =? n)%Z | None => false end.

Definition status_ge (n : Z) (s : option Z) : bool :=
  match s with Some z => (n <=? z)%Z | None => false end.

Definition isQuota (e : JsError) : bool :=
  status_is 429 (status_of e)
  || Js.includes (lit "429") (err_message e)
  || Js.includes (lit "quota") (Js.toLowerCase (err_message e)).

Definition isServer (e : JsError) : bool :=
  status_ge 500 (status_of e)
  || Js.includes (lit "500") (err_message e)
  || Js.includes (lit "503") (err_message e)
  || Js.includes (lit "overloaded") (err_message e).

Definition retriable (e : JsError) : bool := isQuota e || isServer e.

(** A line written to the console: [console.warn(message)], or
    [console.error] with an optional text before the value it logs
    ([None] for the value stands for [undefined]). *)
Inductive console_entry :=
| Warned (message : text)
| Errored (label : option text) (error : option JsError).

(** What [withRetry] does besides calling the operation: the number of
    times it invoked the operation, the delays it awaits, in order, and
    what it writes to the console. *)
Record RetryLog := mkLog {
  invocations : nat;
  delays : list Z;
  console : list console_entry
}.

Definition log_call (l : RetryLog) : RetryLog :=
  mkLog (S (invocations l)) (delays l) (console l).

Definition log_delay (ms : Z) (l : RetryLog) : RetryLog :=
  mkLog (invocations l) (delays l ++ [ms]) (console l).

Definition log_console (entry : console_entry) (l : RetryLog) : RetryLog :=
  mkLog (invocations l) (delays l) (console l ++ [entry]).

(** The warning written before a retry.  The message of an error is a
    string here, so [error.message || ''] is that message. *)
Definition warning (description : text) (attempt : nat) (currentDelay : Z)
    (error : JsError) : console_entry :=
  Warned (lit "Gemini API Error (Attempt " ++ lit (pretty (attempt + 1))
          ++ lit "/" ++ lit (pretty (maxRetries RETRY_CONFIG + 1))
          ++ lit ") for " ++ description ++ lit ": " ++ err_message error
          ++ lit ". Retrying in " ++ lit (pretty currentDelay) ++ lit "ms...").

Section WithRetry.
(** [W] is the state of everything outside the wrapper (the remote
    service, the id generator); an operation reads and updates it. *)
Context {W T : Type}.

Definition operation := W -> outcome T * W.

(** How the [for] loop is left. *)
Inductive loop_exit :=
| Returned (v : T)                    (* [return await operation()] *)
| GaveUp (lastError : option JsError). (* [break], or the bound reached *)

(** The loop [for (attempt = 0; attempt <= maxRetries; attempt++)].
    [fuel] bounds the iterations still allowed; [withRetry] gives
    [maxRetries + 1], which the loop condition never lets it use up. *)
Fixpoint retry_loop (fuel : nat) (op : operation) (description : text)
    (attempt : nat) (currentDelay : Z) (lastError : option JsError)
    (w : W) (l : RetryLog) : loop_exit * W * RetryLog :=
  match fuel with
  | O => (GaveUp lastError, w, l)
  | S fuel' =>
      if attempt <=? maxRetries RETRY_CONFIG then
        let '(r, w') := op w in
        let l' := log_call l in
        match r with
        | Resolved v => (Returned v, w', l')
        | Rejected error =>
            if (attempt <? maxRetries RETRY_CONFIG) && retriable error then
              retry_loop fuel' op description (S attempt)
                (currentDelay * backoffFactor RETRY_CONFIG)%Z
                (Some error) w'
                (log_delay currentDelay
                   (log_console (warning description attempt currentDelay error) l'))
            else (GaveUp (Some error), w', l')
        end
      else (GaveUp lastError, w, l)
  end.

(** The consolidated failure raised after the loop. *)
Definition final_error (description : text) (lastError : option JsError)
    : JsError :=
  let status := match lastError with Some e => status_of e | None => None end in
  let message :=
    match lastError with
    | Some e => match err_message e with [] => lit "Unknown error" | m => m end
    | None => lit "Unknown error"
    end in
  if status_is 429 status || Js.includes (lit "quota") (Js.toLowerCase message)
  then Error (lit "Usage limit exceeded for " ++ description
              ++ lit ". Please wait a moment before trying again.")
  else Error (lit "Failed to " ++ description ++ lit ": " ++ message).

(** What is written to the console between the two [throw] statements:
    [console.error] is reached unless the first [throw] was taken. *)
Definition final_console (description : text) (lastError : option JsError)
    : list console_entry :=
  let status := match lastError with Some e => status_of e | None => None end in
  let message :=
    match lastError with
    | Some e => match err_message e with [] => lit "Unknown error" | m => m end
    | None => lit "Unknown error"
    end in
  if status_is 429 status || Js.includes (lit "quota") (Js.toLowerCase message)
  then []
  else [Errored (Some (lit "Final Error in " ++ description ++ lit ":")) lastError].

Definition withRetry (op : operation) (description : text) (w : W)
    : outcome T * W * RetryLog :=
  match retry_loop (S (maxRetries RETRY_CONFIG)) op description 0
          (initialDelay RETRY_CONFIG) None w (mkLog 0 [] []) with
  | (Returned v, w', l) => (Resolved v, w', l)
  | (GaveUp lastError, w', l) =>
      (Rejected (final_error description lastError), w',
       mkLog (invocations l) (delays l)
             (console l ++ final_console description lastError))
  end.

(** The state in which the [n]-th invocation (from 0) of [op] starts
    when the first one starts in [w], and what that invocation gives. *)
Fixpoint world_before (op : operation) (w : W) (n : nat) : W :=
  match n with
  | O => w
  | S n' => world_before op (snd (op w)) n'
  end.

Definition nth_call (op : operation) (w : W) (n : nat) : outcome T * W :=
  op (world_before op w n).

(** The warnings written when the first [n] invocations from [w] on fail
    and are retried, the first of them being attempt [attempt] (from 0) and
    followed by a delay of [currentDelay]. *)
Definition warnings (op : operation) (description : text)
    (attempt : nat) (currentDelay : Z) (w : W) (n : nat) : list console_entry :=
  flat_map (fun k =>
    match fst (nth_call op w k) with
    | Rejected e =>
        [warning description (attempt + k) (currentDelay * 2 ^ Z.of_nat k)%Z e]
    | Resolved _ => []
    end) (seq 0 n).

End WithRetry.

Definition result_of {W T} (r : outcome T * W * RetryLog) : outcome T := fst (fst r).
Definition world_of {W T} (r : outcome T * W * RetryLog) : W := snd (fst r).
Definition log_of {W T} (r : outcome T * W * RetryLog) : RetryLog := snd r.

(** Total time awaited. *)
Definition total_delay (l : RetryLog) : Z := foldr Z.add 0%Z (delays l).

(** The delays [d, 2d, 4d, ...] awaited before [n] retries. *)
Definition backoff (d : Z) (n : nat) : list Z :=
  map (fun i => (d * 2 ^ Z.of_nat i)%Z) (seq 0 n).

(** ** The remote service, [JSON.parse] and the id generator *)

(** A request to [ai.models.generateContent], named by the call that
    builds it and the inputs its prompt and parts are made from. *)
Inductive Request :=
| ReqRefine (input : text)
| ReqConvert (base64Data mimeType : text)
| ReqExtract (base64Data mimeType : text)
| ReqTranscribe (base64Data mimeType : text)
| ReqGrade (latexSource : text) (context : jsobj).

(** [response.text] is a string or undefined. *)
Record Response := mkResponse { response_text : option text }.

(** The world outside the client: how the service settles a request given
    all the requests sent so far, the requests sent, and how many ids
    [crypto.randomUUID] has handed out. *)
Record World := mkWorld {
  gemini : list Request -> outcome Response;
  requests : list Request;
  uuids : nat
}.

Definition generateContent (rq : Request) (w : World) : outcome Response * World :=
  let sent := requests w ++ [rq] in
  (gemini w sent, mkWorld (gemini w) sent (uuids w)).

(** [if (response.text)]: a non-empty string. *)
Definition text_of (r : Response) : option text :=
  match response_text r with
  | Some (c :: t) => Some (c :: t)
  | _ => None
  end.

(** [response.text?.trim() || dflt] *)
Definition trimmed_or (dflt : text) (r : Response) : text :=
  match response_text r with
  | Some t => match Js.trim t with [] => dflt | t' => t' end
  | None => dflt
  end.

Section Calls.
(** [JSON.parse] returns a value or throws; [randomUUID n] is the id
    handed out after [n] earlier ones. *)
Context (JSON_parse : text -> JsError + jsval).
Context (randomUUID : nat -> text).

Definition refine_op (input : text) : operation (W := World) (T := text) :=
  fun w =>
    match generateContent (ReqRefine input) w with
    | (Rejected e, w') => (Rejected e, w')
    | (Resolved response, w') => (Resolved (trimmed_or input response), w')
    end.

Definition refineTextToLatex (input : text) (w : World)
    : outcome text * World * RetryLog :=
  match Js.trim input with
  | [] => (Resolved [], w, mkLog 0 [] [])
  | _ :: _ => withRetry (refine_op input) (lit "refine text to LaTeX") w
  end.

Definition convert_op (base64Data mimeType : text)
    : operation (W := World) (T := text) :=
  fun w =>
    match generateContent (ReqConvert base64Data mimeType) w with
    | (Rejected e, w') => (Rejected e, w')
    | (Resolved response, w') => (Resolved (trimmed_or [] response), w')
    end.

Definition convertImageToLatex (base64Data mimeType : text) (w : World) :=
  withRetry (convert_op base64Data mimeType) (lit "transcribe file to LaTeX") w.

Definition extract_op (base64Data mimeType : text)
    : operation (W := World) (T := jsobj) :=
  fun w =>
    match generateContent (ReqExtract base64Data mimeType) w with
    | (Rejected e, w') => (Rejected e, w')
    | (Resolved response, w') =>
        match text_of response with
        | Some t =>
            match JSON_parse t with
            | inl e => (Rejected e, w')
            | inr data =>
                (* [{ id: crypto.randomUUID(), ...data }]: the
                   properties of [data] are written after [id] *)
                (Resolved (Value.spread data
                           ∪ {[ "id" := VStr (randomUUID (uuids w')) ]}),
                 mkWorld (gemini w') (requests w') (S (uuids w')))
            end
        | None => (Rejected (Error (lit "No data returned")), w')
        end
    end.

Definition extractQuestionFromImage (base64Data mimeType : text) (w : World) :=
  withRetry (extract_op base64Data mimeType) (lit "extract question details") w.

Definition transcribe_op (base64Data mimeType : text)
    : operation (W := World) (T := text) :=
  fun w =>
    match generateContent (ReqTranscribe base64Data mimeType) w with
    | (Rejected e, w') => (Rejected e, w')
    | (Resolved response, w') => (Resolved (trimmed_or [] response), w')
    end.

Definition transcribeSolutionImage (base64Data mimeType : text) (w : World) :=
  withRetry (transcribe_op base64Data mimeType) (lit "transcribe solution key") w.

Definition grade_op (latexSource : text) (context : jsobj)
    : operation (W := World) (T := jsval) :=
  fun w =>
    match generateContent (ReqGrade latexSource context) w with
    | (Rejected e, w') => (Rejected e, w')
    | (Resolved response, w') =>
        match text_of response with
        | Some t =>
            match JSON_parse t with
            | inl e => (Rejected e, w')
            | inr parsed => (Resolved parsed, w')   (* [as GradingResult] *)
            end
        | None => (Rejected (Error (lit "Empty response from grading model")), w')
        end
    end.

Definition gradeLatexSubmission (latexSource : text) (context : jsobj) (w : World) :=
  withRetry (grade_op latexSource context) (lit "grade submission") w.

End Calls.

End Service.

(* ===================================================================== *)
(** * The math engine and what a component displays *)
(* ===================================================================== *)

(** [window.katex], when present: typesetting a source in display or inline
    mode returns markup or throws with a message. *)
Abbreviation katex_engine := (text -> bool -> text + text).

(** Rendered elements, as far as their visible content goes. *)
Inductive dom :=
| PlainSpan (s : text)                    (* <span>{s}</span> *)
| Chars (s : text)                        (* a bare string child *)
| Typeset (html : text) (displayMode : bool)   (* markup made by the engine *)
| PlainCode (s : text)                    (* <code> shown when the engine is absent *)
| ErrorCode (s : text)                    (* <code> in the error colours *)
| ErrorBox (title : text) (note : option text) (source : text)
           (reason : option text)         (* the boxed error of the preview *)
| EmptySpan                               (* <span ref/> the engine left untouched *)
| Placeholder.                            (* the note shown for an empty preview *)

(** The texts an element puts on the screen. *)
Definition shows (d : dom) : list text :=
  match d with
  | PlainSpan s | Chars s | PlainCode s | ErrorCode s => [s]
  | Typeset html _ => [html]
  | ErrorBox title note source reason =>
      title :: option_list note ++ source :: option_list reason
  | EmptySpan | Placeholder => []
  end.

(* ===================================================================== *)
(** * components/FormattedText.tsx *)
(* ===================================================================== *)

Module FormattedText.
Import Regex.

(** const MathRenderer = ({ content, displayMode, fallback }) => ... *)
Definition MathRenderer (katex : option katex_engine)
    (content : text) (displayMode fallback : bool) : dom :=
  match katex with
  | None => PlainCode content
  | Some renderToString =>
      match renderToString content displayMode with
      | inl html => Typeset html displayMode
      | inr _ => if fallback then PlainSpan content else ErrorCode content
      end
  end.

Definition ws : re := Set_ false [CSpace].
Definition letter : list citem := [CRng "a" "z"; CRng "A" "Z"].

(** "(?:\s*=\s*[\d\w\.\-]+)?" *)
Definition eq_value : re :=
  Opt (Seqs [Star true ws; Chr "="; Star true ws;
             Plus true (Set_ false [CDigit; CWord; CChr "."; CChr "-"])]).

(** "[\w\{\}\-]+" *)
Definition script_body : re :=
  Plus true (Set_ false [CWord; CChr "{"; CChr "}"; CChr "-"]).

(** "[\s\+\-\d]*" *)
Definition poly_gap : re :=
  Star true (Set_ false [CSpace; CChr "+"; CChr "-"; CDigit]).

(** "[\d\.]+" *)
Definition number : re := Plus true (Set_ false [CDigit; CChr "."]).

(** The pattern of [implicitMathRegex] (flags [gi]), one alternative per
    line as in the comment above it in the source. *)
Definition implicitMathRegex : re :=
  Group (Alts [
    (* "\\[a-zA-Z]+(?:\{.*?\})*(?:\s*=\s*[\d\w\.\-]+)?" *)
    Seqs [Chr "\"; Plus true (Set_ false letter);
          Star true (Seqs [Chr "{"; Star false Dot; Chr "}"]);
          eq_value];
    (* "[a-zA-Z][\w_]*(?:\^[\w\{\}\-]+|_[\w\{\}\-]+)(?:\s*=\s*[\d\w\.\-]+)?" *)
    Seqs [Set_ false letter; Star true (Set_ false [CWord; CChr "_"]);
          Alt (Seq (Chr "^") script_body) (Seq (Chr "_") script_body);
          eq_value];
    (* "\b[a-z]\s*=\s*[\d\.\-]+" *)
    Seqs [WordBoundary; Set_ false [CRng "a" "z"]; Star true ws; Chr "=";
          Star true ws; Plus true (Set_ false [CDigit; CChr "."; CChr "-"])];
    (* "(?:[\d]*[a-z]\^2[\s\+\-\d]*[a-z][\s\+\-\d]*" ")(?:\s*=\s*0)?" *)
    Seqs [Seqs [Star true (Set_ false [CDigit]); Set_ false [CRng "a" "z"];
                Chr "^"; Chr "2"; poly_gap; Set_ false [CRng "a" "z"]; poly_gap];
          Opt (Seqs [Star true ws; Chr "="; Star true ws; Chr "0"])];
    (* "\b[\d\.]+\s*[\+\-\*\/]\s*[\d\.]+\s*=\s*[\d\.]+" *)
    Seqs [WordBoundary; number; Star true ws;
          Set_ false [CChr "+"; CChr "-"; CChr "*"; CChr "/"];
          Star true ws; number; Star true ws; Chr "="; Star true ws; number]
  ]).

(** "/[\=\^_\\]/" *)
Definition hasMathCharRegex : re :=
  Set_ false [CChr "="; CChr "^"; CChr "_"; CChr "\"].

(** "/^[a-zA-Z\s\.,]+$/" *)
Definition isEnglishRegex : re :=
  Seqs [AtStart; Plus true (Set_ false [CRng "a" "z"; CRng "A" "Z"; CSpace;
                                        CChr "."; CChr ","]); AtEnd].

(** "/([.,:;]+)$/" *)
Definition punctuationRegex : re :=
  Seq (Group (Plus true (Set_ false [CChr "."; CChr ","; CChr ":"; CChr ";"]))) AtEnd.

(** The elements a component returns, before [MathRenderer] is itself
    rendered: <span>{s}</span>, a bare string, or
    <MathRenderer content displayMode fallback/>  ([fallback] reads as
    false when the prop is not passed). *)
Inductive element :=
| ESpan (s : text)
| EChars (s : text)
| EMath (content : text) (displayMode fallback : bool).

(** What [TextWithImplicitMath] returns for one piece of the split. *)
Definition implicit_piece (subPart : text) : list element :=
  let trimmed := Js.trim subPart in
  match trimmed with
  | [] => [ESpan subPart]
  | _ :: _ =>
      let hasMathChar := test false hasMathCharRegex trimmed in
      let isEnglish := test false isEnglishRegex trimmed in
      if hasMathChar && negb isEnglish && (1 <? length trimmed) then
        let punctuation :=
          match exec false punctuationRegex subPart with
          | Some e => default [] (captured subPart e)
          | None => []
          end in
        let cleanContent :=
          match punctuation with
          | [] => subPart
          | _ :: _ => Js.slice_back 0 (length punctuation) subPart
          end in
        [EMath cleanContent false true; EChars punctuation]
      else [ESpan subPart]
  end.

Definition TextWithImplicitMath (content : text) : list element :=
  flat_map implicit_piece (split true implicitMathRegex content).

(** The pattern of [delimiterRegex] (flag [g]). *)
Definition delimiterRegex : re :=
  Group (Alts [
    Seqs [Lit (lit "$$"); Star false Any; Lit (lit "$$")];
    Seqs [Lit (lit "\["); Star false Any; Lit (lit "\]")];
    Seqs [Lit (lit "\("); Star false Any; Lit (lit "\)")];
    Seqs [Chr "$"; Plus true (Set_ true [CChr "$"]); Chr "$"]
  ]).

(** What the [map] callback of [FormattedText] returns for one part. *)
Definition explicit_part (part : text) : list element :=
  let isDisplayMath :=
    Js.startsWith (lit "$$") part || Js.startsWith (lit "\[") part in
  let isInlineMath :=
    Js.startsWith (lit "$") part || Js.startsWith (lit "\(") part in
  if isDisplayMath || isInlineMath then
    let cleanContent :=
      if Js.startsWith (lit "$$") part then Js.slice_back 2 2 part
      else if Js.startsWith (lit "\[") part then Js.slice_back 2 2 part
      else if Js.startsWith (lit "\(") part then Js.slice_back 2 2 part
      else if Js.startsWith (lit "$") part then Js.slice_back 1 1 part
      else part in
    [EMath cleanContent isDisplayMath false]
  else TextWithImplicitMath part.

(** The children of the outer <span>; [None] is the [null] returned for an
    empty text. *)
Definition FormattedText (text : text) : option (list element) :=
  match text with
  | [] => None
  | _ :: _ => Some (flat_map explicit_part (split false delimiterRegex text))
  end.

(** An element on the screen. *)
Definition render (katex : option katex_engine) (e : element) : dom :=
  match e with
  | ESpan s => PlainSpan s
  | EChars s => Chars s
  | EMath content displayMode fallback => MathRenderer katex content displayMode fallback
  end.

(** The calls [katex.renderToString(content, {displayMode, ...})] made
    while the elements are rendered with the engine present: one per
    [MathRenderer], in order. *)
Definition engine_calls (es : list element) : list (text * bool) :=
  flat_map (fun e =>
    match e with
    | EMath content displayMode _ => [(content, displayMode)]
    | _ => []
    end) es.

End FormattedText.

(* ===================================================================== *)
(** * components/LatexPreview.tsx *)
(* ===================================================================== *)

Module LatexPreview.
Import Regex.

Definition ws : re := Set_ false [CSpace].

(** "\\begin\s*\{document\}" *)
Definition beginDocument : re :=
  Seqs [Lit (lit "\begin"); Star true ws; Lit (lit "{document}")].

(** "\\end\s*\{document\}" *)
Definition endDocument : re :=
  Seqs [Lit (lit "\end"); Star true ws; Lit (lit "{document}")].

(** "/\\begin\s*\{document\}([\s\S]*?)\\end\s*\{document\}/i" *)
Definition bodyRegex : re :=
  Seqs [beginDocument; Group (Star false Any); endDocument].

(** [a[i]] read as a condition and then used: a non-empty text, if any. *)
Definition nonempty_at (i : nat) (a : list text) : option text :=
  match a !! i with
  | Some (c :: t) => Some (c :: t)
  | _ => None
  end.

(** [bodyMatch && bodyMatch[1]]: the group of the first match, when there
    is a match and the group is not the empty string. *)
Definition document_body (fullLatex : text) : option text :=
  match exec true bodyRegex fullLatex with
  | Some e =>
      match captured fullLatex e with
      | Some (c :: t) => Some (c :: t)
      | _ => None
      end
  | None => None
  end.

(** const getRenderableContent = (fullLatex: string) => ... *)
Definition getRenderableContent (fullLatex : text) : text :=
  match fullLatex with
  | [] => []
  | _ :: _ =>
      match document_body fullLatex with
      | Some body => Js.trim body
      | None =>
          if Js.includes (lit "\documentclass") fullLatex then
            if test true beginDocument fullLatex then
              match nonempty_at 1 (split true beginDocument fullLatex) with
              | Some rest => default [] (split true endDocument rest !! 0)
              | None => fullLatex
              end
            else fullLatex
          else fullLatex
      end
  end.

Definition environment : re :=
  Alts [Lit (lit "equation"); Lit (lit "align"); Lit (lit "gather");
        Lit (lit "alignat"); Lit (lit "flalign"); Lit (lit "multline")].

(** The pattern of [MATH_REGEX] (flags [gi]): display math in double
    dollars or brackets, an environment from begin to end, inline math in
    single dollars on one line. *)
Definition MATH_REGEX : re :=
  Group (Alts [
    Seqs [Lit (lit "$$"); Star false Any; Lit (lit "$$")];
    Seqs [Lit (lit "\["); Star false Any; Lit (lit "\]")];
    Seqs [Lit (lit "\begin"); Star true ws; Chr "{"; environment;
          Opt (Chr "*"); Chr "}"; Star false Any;
          Lit (lit "\end"); Star true ws; Chr "{"; environment;
          Opt (Chr "*"); Chr "}"];
    Seqs [Chr "$"; Plus true (Set_ true [CChr "$"; CChr "010"]); Chr "$"]
  ]).

Definition endsWith (p s : text) : bool := Js.startsWith (rev p) (rev s).

(** The source [MathBlock] hands to the engine. *)
Definition strip_delimiters (content : text) : text :=
  let cleanContent := Js.trim content in
  if Js.startsWith (lit "$$") cleanContent && endsWith (lit "$$") cleanContent
  then Js.slice_back 2 2 cleanContent
  else if Js.startsWith (lit "\[") cleanContent && endsWith (lit "\]") cleanContent
  then Js.slice_back 2 2 cleanContent
  else if Js.startsWith (lit "$") cleanContent && endsWith (lit "$") cleanContent
          && negb (Js.startsWith (lit "$$") cleanContent)
  then Js.slice_back 1 1 cleanContent
  else cleanContent.

(** The [error] state of a [MathBlock] once its effect has run on the
    mounted span: [null] after a successful render (or without an engine),
    the message of the failure otherwise. *)
Definition MathBlock_effect (katex : option katex_engine)
    (content : text) (displayMode : bool) : option text :=
  match katex with
  | None => None
  | Some render =>
      match render (strip_delimiters content) displayMode with
      | inl _ => None
      | inr message => Some message
      end
  end.

(** The note of the box; the words Quirks Mode stand between double
    quotes (the unit of code 34). *)
Definition quirks_note : text :=
  lit "The document is in " ++ "034"%char :: lit "Quirks Mode" ++ "034"%char
  :: lit ". Please ensure the <!DOCTYPE html> declaration is at the very top of your HTML file.".

(** What [MathBlock] returns for a given [error] state; [if (error)] takes
    a non-empty message. *)
Definition MathBlock_view (katex : option katex_engine)
    (content : text) (displayMode : bool) (error : option text) : dom :=
  match error with
  | Some (c :: t) =>
      let error := c :: t in
      let isQuirksMode := Js.includes (lit "quirks mode") error in
      ErrorBox
        (if isQuirksMode then lit "Browser Compatibility Error" else lit "Rendering Error")
        (if isQuirksMode then Some quirks_note else None)
        content
        (if isQuirksMode then None else Some error)
  | _ =>
      match katex with
      | Some render =>
          match render (strip_delimiters content) displayMode with
          | inl html => Typeset html displayMode
          | inr _ => EmptySpan
          end
      | None => EmptySpan
      end
  end.

(** A [MathBlock] after mounting: first render, effect, render again. *)
Definition MathBlock (katex : option katex_engine)
    (content : text) (displayMode : bool) : dom :=
  MathBlock_view katex content displayMode (MathBlock_effect katex content displayMode).

(** "/^(\$\$|\\\[|\\begin\s*\{)/" *)
Definition displayStart : re :=
  Seq AtStart (Group (Alts [Lit (lit "$$"); Lit (lit "\[");
                            Seqs [Lit (lit "\begin"); Star true ws; Chr "{"]])).

(** "/^\$/" *)
Definition inlineStart : re := Seq AtStart (Chr "$").

Definition preview_part (katex : option katex_engine) (part : text) : list dom :=
  match part with
  | [] => []
  | _ :: _ =>
      if test false displayStart part then [MathBlock katex part true]
      else if test false inlineStart part then [MathBlock katex part false]
      else [PlainSpan part]
  end.

(** export const LatexPreview = ({ latex, id }) => ... *)
Definition LatexPreview (katex : option katex_engine) (latex : text) : list dom :=
  let content := getRenderableContent latex in
  match Js.trim content with
  | [] => [Placeholder]
  | _ :: _ => flat_map (preview_part katex) (split true MATH_REGEX content)
  end.

End LatexPreview.

(* ===================================================================== *)
(** * components/LatexEditor.tsx *)
(* ===================================================================== *)

Module LatexEditor.
Import Regex.

Definition COMMON_COMMANDS : list text :=
  map lit [
    "\alpha"; "\beta"; "\gamma"; "\delta"; "\epsilon"; "\theta"; "\lambda";
    "\pi"; "\sigma"; "\phi"; "\omega";
    "\Delta"; "\Gamma"; "\Lambda"; "\Pi"; "\Sigma"; "\Phi"; "\Omega";
    "\frac"; "\sqrt"; "\sum"; "\prod"; "\int"; "\infty"; "\lim";
    "\sin"; "\cos"; "\tan"; "\log"; "\ln";
    "\begin"; "\end"; "\section"; "\subsection"; "\subsubsection"; "\paragraph";
    "\textbf"; "\textit"; "\underline"; "\emph";
    "\usepackage"; "\documentclass"; "\title"; "\author"; "\date"; "\maketitle";
    "\label"; "\ref"; "\cite"; "\item" ]%string.

(** The editor as the handlers see it: the [value] prop, the caret of the
    textarea ([selectionStart]; [None] when the element is not in the
    page), and the suggestion popup. *)
Record Editor := mkEditor {
  value : text;
  selectionStart : option nat;
  suggestions : list text;
  showSuggestions : bool
}.

(** "/\\[a-zA-Z]*$/"; the group gives [match[0]]. *)
Definition commandRegex : re :=
  Seq (Group (Seq (Chr "\") (Star true (Set_ false [CRng "a" "z"; CRng "A" "Z"])))) AtEnd.

Definition text_eqb (a b : text) : bool := bool_decide (a = b).

(** const handleKeyUp = (e) => ... *)
Definition handleKeyUp (ed : Editor) : Editor :=
  match selectionStart ed with
  | None => ed
  | Some caret =>
      let textBeforeCursor := Js.slice 0 caret (value ed) in
      match exec false commandRegex textBeforeCursor with
      | Some e =>
          let query := default [] (captured textBeforeCursor e) in
          let filtered :=
            filter (fun cmd => Js.startsWith query cmd && negb (text_eqb cmd query) = true)
                   COMMON_COMMANDS in
          match filtered with
          | _ :: _ => mkEditor (value ed) (selectionStart ed) filtered true
          | [] => mkEditor (value ed) (selectionStart ed) (suggestions ed) false
          end
      | None => mkEditor (value ed) (selectionStart ed) (suggestions ed) false
      end
  end.

(** const applySuggestion = (cmd: string) => ...
    The result is the editor after [onChange] and the deferred
    [setSelectionRange] have taken effect. *)
Definition applySuggestion (cmd : text) (ed : Editor) : Editor :=
  match selectionStart ed with
  | None => ed
  | Some start =>
      let textBefore := Js.slice 0 start (value ed) in
      match Js.lastIndexOf "\" textBefore with
      | Some lastBackslash =>
          let newValue :=
            Js.slice 0 lastBackslash (value ed) ++ cmd ++ drop start (value ed) in
          let newCursor := lastBackslash + length cmd in
          mkEditor newValue (Some newCursor) (suggestions ed) false
      | None => ed
      end
  end.

(** const insertText = (text: string) => ...  with [selectionEnd] given. *)
Definition insertText (snippet : text) (selectionEnd : nat) (ed : Editor) : Editor :=
  match selectionStart ed with
  | None => ed
  | Some start =>
      mkEditor (Js.slice 0 start (value ed) ++ snippet ++ drop selectionEnd (value ed))
               (Some (start + length snippet)) (suggestions ed) (showSuggestions ed)
  end.

(** const lineCount = value.split('\n').length *)
Definition lineCount (value : text) : nat := length (Js.split_on "010" value).

(** const lines = Array.from({ length: lineCount }, (_, i) => i + 1) *)
Definition lines (value : text) : list nat := seq 1 (lineCount value).

End LatexEditor.

(* ===================================================================== *)
(** * components/FileUpload.tsx *)
(* ===================================================================== *)

Module FileUpload.

Inductive file_result :=
| Alerted (message : text)                          (* wrong file type *)
| Selected (base64 : option text) (mimeType : text). (* [onFileSelect] was called *)

(** const handleFile = (file: File) => ... , from the type of the file and
    the data URL the reader gives for it; [result.split(',')[1]] is
    undefined when the URL has no comma. *)
Definition handleFile (fileType readerResult : text) : file_result :=
  if negb (Js.startsWith (lit "image/") fileType)
     && negb (bool_decide (fileType = lit "application/pdf"))
  then Alerted (lit "Please upload an image or PDF file.")
  else Selected (Js.split_on "," readerResult !! 1) fileType.

End FileUpload.

(* ===================================================================== *)
(** * components/QuestionSetup.tsx *)
(* ===================================================================== *)

Module QuestionSetup.
Import Service.

Inductive scan_result :=
| Alerted (message : text)       (* wrong file type *)
| Updated (q : jsobj)            (* [onUpdate(q)] was called *)
| Unhandled (e : JsError).       (* the extraction rejected *)

Section Scan.
Context (JSON_parse : text -> JsError + jsval).
Context (randomUUID : nat -> text).

(** const handleScanQuestion = async (e) => ... , from the chosen file
    on: its type, its name and the base64 payload read from it. *)
Definition handleScanQuestion (question : jsobj)
    (fileType fileName base64 : text) (w : World) : scan_result * World :=
  if negb (Js.startsWith (lit "image/") fileType)
     && negb (bool_decide (fileType = lit "application/pdf"))
  then (Alerted (lit "Please select an image or PDF file."), w)
  else
    let updatedQuestion : jsobj :=
      <[ "questionImage" :=
           VObj (<[ "data" := VStr base64 ]>
                 (<[ "mimeType" := VStr fileType ]>
                  (<[ "fileName" := VStr fileName ]> ∅))) ]> question in
    match extractQuestionFromImage JSON_parse randomUUID base64 fileType w with
    | (Rejected e, w', _) => (Unhandled e, w')
    | (Resolved extracted, w', _) =>
        (Updated
           (<[ "totalMarks" := Value.or (Value.get extracted "totalMarks")
                                        (Value.get updatedQuestion "totalMarks") ]>
            (<[ "description" := Value.or (Value.get extracted "description")
                                          (Value.get updatedQuestion "description") ]>
             (<[ "title" := Value.or (Value.get extracted "title")
                                     (Value.get updatedQuestion "title") ]>
              updatedQuestion))),
         w')
    end.
End Scan.

(** const handleRemoveQuestionFile = () => ... : the rest of the question
    once [questionImage] is taken out. *)
Definition handleRemoveQuestionFile (question : jsobj) : jsobj :=
  delete "questionImage" question.

(** const handleScanSolution = async (e) => ... , from the chosen file on. *)
Definition handleScanSolution (question : jsobj)
    (fileType base64 : text) (w : World) : scan_result * World :=
  if negb (Js.startsWith (lit "image/") fileType)
     && negb (bool_decide (fileType = lit "application/pdf"))
  then (Alerted (lit "Please select an image or PDF file."), w)
  else
    match transcribeSolutionImage base64 fileType w with
    | (Rejected e, w', _) => (Unhandled e, w')
    | (Resolved solutionText, w', _) =>
        (Updated (<[ "idealSolution" := VStr solutionText ]> question), w')
    end.

Inductive format_field := Description | Solution.

Definition field_key (field : format_field) : string :=
  match field with
  | Description => "description"
  | Solution => "idealSolution"
  end.

Inductive format_result :=
| Skipped                        (* nothing to format: returned at once *)
| Formatted (q : jsobj)          (* [onUpdate(q)] was called *)
| FormatFailed (e : JsError)     (* the call rejected: logged, no update *)
| NotText.                       (* [text.trim] is not a function *)

(** const handleMagicFormat = async (field) => ... *)
Definition handleMagicFormat (field : format_field) (question : jsobj) (w : World)
    : format_result * World :=
  match Value.get question (field_key field) with
  | VStr t =>
      match Js.trim t with
      | [] => (Skipped, w)
      | _ :: _ =>
          match refineTextToLatex t w with
          | (Resolved formatted, w', _) =>
              (Formatted (<[ field_key field := VStr formatted ]> question), w')
          | (Rejected e, w', _) => (FormatFailed e, w')
          end
      end
  | v => if Value.truthy v then (NotText, w) else (Skipped, w)
  end.

End QuestionSetup.

(* ===================================================================== *)
(** * App.tsx *)
(* ===================================================================== *)

Module App.
Import Service.

Record ProcessingState := mkProcessing {
  isConverting : bool;
  isGrading : bool;
  error : option text
}.

(** The state hooks of [App] that the handlers touch, the console (what
    the handlers and the service calls they await write with
    [console.warn] and [console.error]), and the world the service calls
    act on. *)
Record AppState := mkApp {
  activeQuestion : jsobj;
  latexSource : text;
  answerFile : option (text * text);
  gradingResult : option jsval;
  processing : ProcessingState;
  debouncedLatex : text;
  console : list console_entry;
  world : World
}.

Definition setProcessing (f : ProcessingState -> ProcessingState) (st : AppState) :=
  mkApp (activeQuestion st) (latexSource st) (answerFile st) (gradingResult st)
        (f (processing st)) (debouncedLatex st) (console st) (world st).

Definition setGradingResult (r : option jsval) (st : AppState) :=
  mkApp (activeQuestion st) (latexSource st) (answerFile st) r
        (processing st) (debouncedLatex st) (console st) (world st).

Definition setLatexSource (s : text) (st : AppState) :=
  mkApp (activeQuestion st) s (answerFile st) (gradingResult st)
        (processing st) (debouncedLatex st) (console st) (world st).

Definition setAnswerFile (f : option (text * text)) (st : AppState) :=
  mkApp (activeQuestion st) (latexSource st) f (gradingResult st)
        (processing st) (debouncedLatex st) (console st) (world st).

Definition setWorld (w : World) (st : AppState) :=
  mkApp (activeQuestion st) (latexSource st) (answerFile st) (gradingResult st)
        (processing st) (debouncedLatex st) (console st) w.

Definition log_error (e : JsError) (st : AppState) :=
  mkApp (activeQuestion st) (latexSource st) (answerFile st) (gradingResult st)
        (processing st) (debouncedLatex st)
        (console st ++ [Errored None (Some e)]) (world st).

(** What an awaited service call wrote while it was pending. *)
Definition log_entries (entries : list console_entry) (st : AppState) :=
  mkApp (activeQuestion st) (latexSource st) (answerFile st) (gradingResult st)
        (processing st) (debouncedLatex st) (console st ++ entries) (world st).

Section Handlers.
Context (JSON_parse : text -> JsError + jsval).

(** [handleGrading] up to its [await]: the flags are set. *)
Definition grading_begins (st : AppState) : AppState :=
  setProcessing (fun prev => mkProcessing (isConverting prev) true None) st.

(** [handleGrading] from the point the awaited call settles: [try]
    continues or [catch] logs, then [finally]. *)
Definition grading_settles (r : outcome jsval) (st : AppState) : AppState :=
  let st' :=
    match r with
    | Resolved result => setGradingResult (Some result) st
    | Rejected err => log_error err st
    end in
  setProcessing (fun prev => mkProcessing (isConverting prev) false (error prev)) st'.

(** const handleGrading = useCallback(async (latex, context) => ...) *)
Definition handleGrading (latex : text) (context : jsobj) (st : AppState) : AppState :=
  match Js.trim latex with
  | [] => st
  | _ :: _ =>
      let st1 := grading_begins st in
      let '(r, w', l) := gradeLatexSubmission JSON_parse latex context (world st1) in
      grading_settles r (log_entries (Service.console l) (setWorld w' st1))
  end.

(** The effect on [debouncedLatex, activeQuestion, handleGrading]. *)
Definition gradingEffect (st : AppState) : AppState :=
  match debouncedLatex st with
  | _ :: _ => handleGrading (debouncedLatex st) (activeQuestion st) st
  | [] => setGradingResult None st
  end.


(** const handleClear = () => ... *)
Definition handleClear (st : AppState) : AppState :=
  setGradingResult None (setAnswerFile None (setLatexSource [] st)).

End Handlers.

Inductive download :=
| NoDownload                              (* nothing to export *)
| Download (fileName content : text)      (* the link that is clicked *)
| DownloadThrew.                          (* the title has no [replace] *)

(** "/\s+/g" *)
Definition whitespaceRun : Regex.re :=
  Regex.Plus true (Regex.Set_ false [Regex.CSpace]).

(** const handleDownloadTex = () => ... *)
Definition handleDownloadTex (st : AppState) : download :=
  match latexSource st with
  | [] => NoDownload
  | _ :: _ =>
      match Value.get (activeQuestion st) "title" with
      | VStr title =>
          Download
            (Js.toLowerCase (Regex.replace_all false whitespaceRun (lit "_") title)
             ++ lit ".tex")
            (latexSource st)
      | _ => DownloadThrew
      end
  end.

(** isStale={latexSource !== debouncedLatex && latexSource.length > 0} *)
Definition isStale (st : AppState) : bool :=
  negb (bool_decide (latexSource st = debouncedLatex st))
  && (0 <? length (latexSource st)).

End App.

(* ===================================================================== *)
(** * Notions taken from the specification *)
(* ===================================================================== *)

(** Definitions that follow the words of the specification rather than the
    code, to set the two side by side. *)
Module Spec.

(** Indices of the unescaped backslashes of [s], [i] being the index of
    its first unit: reading from the left, a backslash escapes the unit
    that follows it, and an escaped unit (the second of a pair of
    backslashes, for one) starts nothing. *)
Fixpoint unescaped_backslashes (s : text) (i : nat) (escaped : bool) : list nat :=
  match s with
  | [] => []
  | c :: s' =>
      if escaped then unescaped_backslashes s' (S i) false
      else if Ascii.eqb c "\" then i :: unescaped_backslashes s' (S i) true
      else unescaped_backslashes s' (S i) false
  end.

(** "the last unescaped backslash" of the text before the caret *)
Definition last_unescaped_backslash (textBefore : text) : option nat :=
  last (unescaped_backslashes textBefore 0 false).

(** The edit the specification describes: the span from that backslash to
    the caret gives way to the command. *)
Definition replace_from_unescaped (cmd value : text) (caret : nat) : option text :=
  match last_unescaped_backslash (take caret value) with
  | Some i => Some (take i value ++ cmd ++ drop caret value)
  | None => None
  end.

(** The classes of errors as the specification words them.  A quota
    error has status 429 or a message with a quota indicator, the word
    quota in any letter case; a transient-server error has a status of 500
    or more, or a message that indicates overload or unavailability: the
    word overloaded, or 503, the status that reports unavailability.  An
    error of neither class is fatal. *)
Definition quota_error (e : Service.JsError) : bool :=
  Service.status_is 429 (Service.status_of e)
  || Js.includes (lit "quota") (Js.toLowerCase (Service.err_message e)).

Definition transient_server_error (e : Service.JsError) : bool :=
  Service.status_ge 500 (Service.status_of e)
  || Js.includes (lit "overloaded") (Service.err_message e)
  || Js.includes (lit "503") (Service.err_message e).

Definition fatal_error (e : Service.JsError) : bool :=
  negb (quota_error e) && negb (transient_server_error e).

(** The classes as the amended claim words them, spelled out on the
    error: status 429, a status of 500 or more, or a message that contains
    429, 500, 503, overloaded or, in any letter case, quota. *)
Definition retry_condition (e : Service.JsError) : Prop :=
  Service.status_of e = Some 429%Z
  \/ Js.includes (lit "429") (Service.err_message e) = true
  \/ Js.includes (lit "quota") (Js.toLowerCase (Service.err_message e)) = true
  \/ (exists s, Service.status_of e = Some s /\ (500 <= s)%Z)
  \/ Js.includes (lit "500") (Service.err_message e) = true
  \/ Js.includes (lit "503") (Service.err_message e) = true
  \/ Js.includes (lit "overloaded") (Service.err_message e) = true.

End Spec.

(* ===================================================================== *)
(** * Sample inputs *)
(* ===================================================================== *)

(** Concrete operations, responses and states on which the results below
    are instantiated. *)
Module Sample.
Import Service.

(** An operation that is rejected with status 429 on its first two
    invocations and resolves to 7 afterwards; its state counts the
    calls. *)
Definition flaky (calls : nat) : outcome nat * nat :=
  (if calls <? 2
   then Rejected (mkError (Some 429%Z) None (lit "Too Many Requests"))
   else Resolved 7,
   S calls).

(** A service that rejects every request as malformed. *)
Definition refusing : World :=
  mkWorld (fun _ => Rejected (mkError (Some 400%Z) None (lit "Bad Request"))) [] 0.

(** A parser that accepts nothing. *)
Definition no_json (t : text) : JsError + jsval :=
  inl (Error (lit "Unexpected end of JSON input")).

Definition question : jsobj :=
  <[ "id" := VStr (lit "custom") ]>
  (<[ "title" := VStr (lit "New Assignment") ]>
   (<[ "description" := VStr (lit "Solve the equation.") ]>
    (<[ "totalMarks" := VNum 100 ]> ∅))).

(** The application showing an earlier grading result, its service about
    to refuse. *)
Definition graded_once : App.AppState :=
  App.mkApp question (lit "x = 1") None
    (Some (VObj (<[ "score" := VNum 7 ]> ∅)))
    (App.mkProcessing false false None)
    (lit "x = 1") [] refusing.

(** The same with only blanks in the editor. *)
Definition blank_source : App.AppState :=
  App.mkApp question (lit "   ") None
    (Some (VObj (<[ "score" := VNum 7 ]> ∅)))
    (App.mkProcessing false false (Some (lit "Failed to transcribe file to LaTeX: Bad Request")))
    (lit "   ") [] refusing.

(** The editor holding x, two backslashes and "al", the caret at the
    end. *)
Definition after_line_break : LatexEditor.Editor :=
  LatexEditor.mkEditor (lit "x\\al") (Some 5) [] false.

(** The editor holding "f = \fr + 1", the caret after "fr". *)
Definition typing_frac : LatexEditor.Editor :=
  LatexEditor.mkEditor (lit "f = \fr + 1") (Some 7) [] false.

(** An engine that rejects every source. *)
Definition failing : katex_engine :=
  fun _ _ => inr (lit "KaTeX parse error: Expected EOF").

(** An engine that cannot run in the hosting page. *)
Definition quirky : katex_engine :=
  fun _ _ => inr (lit "KaTeX doesn't work in quirks mode.").

(** An engine that accepts every source and returns it as its markup. *)
Definition echo : katex_engine := fun content _ => inl content.

(** A service that answers every request with the text [t]. *)
Definition answering (t : text) : World :=
  mkWorld (fun _ => Resolved (mkResponse (Some t))) [] 0.

(** A parser that reads every text as [v]. *)
Definition parse_to (v : jsval) (t : text) : JsError + jsval := inr v.

(** An id generator that never repeats itself. *)
Definition uuid_of (n : nat) : text := lit "id-" ++ replicate n "x"%char.

(** The object of the scenario: an empty title, a description, no
    totalMarks. *)
Definition extracted_without_marks : jsobj :=
  <[ "title" := VStr [] ]> (<[ "description" := VStr (lit "X") ]> ∅).

(** An extraction that brings an id of its own. *)
Definition extracted_with_id : jsobj :=
  <[ "id" := VStr (lit "q1") ]>
  (<[ "title" := VStr (lit "Quadratic Equation") ]>
   (<[ "description" := VStr (lit "X") ]> (<[ "totalMarks" := VNum 5 ]> ∅))).

(** A grading answer with every field of the schema but mistakeTypes. *)
Definition grading_without_types : jsobj :=
  <[ "score" := VNum 3 ]>
  (<[ "maxScore" := VNum 10 ]>
   (<[ "summary" := VStr (lit "Partly right.") ]>
    (<[ "feedback" := VStr (lit "Check the sign in step 2.") ]>
     (<[ "mistakes" := VArr [VStr (lit "Sign error")] ]>
      (<[ "gradingConfidence" := VNum 1 ]>
       (<[ "improvements" := VArr [] ]> ∅)))))).

(** An operation that is always rejected as unavailable; its state counts
    the calls. *)
Definition unavailable (calls : nat) : outcome nat * nat :=
  (Rejected (mkError (Some 503%Z) None (lit "Service Unavailable")), S calls).

(** A service that answers every request without text. *)
Definition speechless : World :=
  mkWorld (fun _ => Resolved (mkResponse None)) [] 0.



(** An operation that is always rejected as a bad request, with a message
    that happens to hold the number 500; its state counts the calls. *)
Definition oversized (calls : nat) : outcome nat * nat :=
  (Rejected (mkError (Some 400%Z) None (lit "Image width must be at most 500 pixels")),
   S calls).

(** A parser that reads the text [expected] as [v] and rejects every other
    text. *)
Definition parse_only (expected : text) (v : jsval) (t : text) : JsError + jsval :=
  if bool_decide (t = expected) then inr v
  else inl (Error (lit "Unexpected token in JSON")).

(** A service that is unavailable for the first request it receives and
    answers every later one with the text [t]. *)
Definition recovering (t : text) : World :=
  mkWorld (fun sent =>
             if length sent <? 2
             then Rejected (mkError (Some 503%Z) None (lit "Service Unavailable"))
             else Resolved (mkResponse (Some t)))
          [] 0.
End Sample.

(* ===================================================================== *)
(** * Properties of the retry wrapper *)
(* ===================================================================== *)

Section RetryFacts.
Import Service.
Context {W T : Type}.
Implicit Types (op : @operation W T) (w : W) (l : RetryLog) (e : JsError).

Lemma backoff_S d n : backoff d (S n) = d :: backoff (d * 2) n.
Proof.
  unfold backoff. simpl. f_equal; [lia|].
  rewrite <- seq_shift, map_map. apply map_ext. intros i.
  rewrite Nat2Z.inj_succ, Z.pow_succ_r by lia. lia.
Qed.

Lemma sum_backoff d n :
  foldr Z.add 0%Z (backoff d n) = (d * (2 ^ Z.of_nat n - 1))%Z.
Proof.
  revert d. induction n as [|n IH]; intros d.
  - simpl. lia.
  - rewrite backoff_S. simpl. rewrite IH.
    rewrite Nat2Z.inj_succ, Z.pow_succ_r by lia. lia.
Qed.

Lemma world_before_S op w n :
  world_before op w (S n) = snd (op (world_before op w n)).
Proof.
  revert w. induction n as [|n IH]; intros w; [reflexivity|].
  change (world_before op w (S (S n))) with (world_before op (snd (op w)) (S n)).
  rewrite IH. reflexivity.
Qed.

Lemma warnings_S op description a d w n :
  warnings op description a d w (S n)
  = match fst (op w) with
    | Rejected e => [warning description a d e]
    | Resolved _ => []
    end ++ warnings op description (S a) (d * 2) (snd (op w)) n.
Proof.
  unfold warnings. cbn [seq flat_map].
  unfold nth_call at 1. cbn [world_before].
  rewrite Nat.add_0_r, Z.mul_1_r. f_equal.
  rewrite <- seq_shift, !flat_map_concat_map, map_map. f_equal.
  apply map_ext. intros k.
  unfold nth_call. cbn [world_before].
  replace (a + S k) with (S a + k) by lia.
  replace (d * 2 ^ Z.of_nat (S k))%Z with (d * 2 * 2 ^ Z.of_nat k)%Z
    by (rewrite Nat2Z.inj_succ, Z.pow_succ_r by lia; lia).
  reflexivity.
Qed.

(** [n] retriable failures followed by a success, seen from inside the
    loop at attempt [a]. *)
Lemma retry_loop_recovers op description v n :
  forall fuel a d last w l,
    a + n <= maxRetries RETRY_CONFIG ->
    n < fuel ->
    (forall k, k < n -> exists e,
        fst (nth_call op w k) = Rejected e /\ retriable e = true) ->
    fst (nth_call op w n) = Resolved v ->
    retry_loop fuel op description a d last w l =
      (Returned v, snd (nth_call op w n),
       mkLog (invocations l + S n) (delays l ++ backoff d n)
             (console l ++ warnings op description a d w n)).
Proof.
  induction n as [|n IH]; intros fuel a d last w l Ha Hfuel Hfail Hok;
    unfold nth_call in *; simpl in Ha.
  - destruct fuel as [|fuel]; [lia|]. simpl in *.
    replace (a <=? 3) with true by (symmetry; apply Nat.leb_le; lia).
    destruct (op w) as [r w']. simpl in Hok. subst r.
    unfold log_call, backoff, warnings. simpl. rewrite !app_nil_r.
    do 2 f_equal. f_equal. lia.
  - destruct fuel as [|fuel]; [lia|]. rewrite warnings_S. simpl.
    replace (a <=? 3) with true by (symmetry; apply Nat.leb_le; lia).
    destruct (Hfail 0) as (e & He & Hr); [lia|]. simpl in He.
    destruct (op w) as [r w'] eqn:Hop. simpl in He. subst r.
    replace (a <? 3) with true by (symmetry; apply Nat.ltb_lt; lia).
    rewrite Hr. simpl.
    rewrite (IH fuel (S a) (d * 2)%Z (Some e) w'); simpl; try lia.
    + rewrite backoff_S, <- !app_assoc. simpl. do 2 f_equal. f_equal. lia.
    + intros k Hk. destruct (Hfail (S k)) as (e' & He' & Hr'); [lia|].
      exists e'. split; [|exact Hr'].
      simpl in He'. rewrite Hop in He'. exact He'.
    + simpl in Hok. rewrite Hop in Hok. exact Hok.
Qed.

(** The loop never calls the operation more often than the attempts left,
    and awaits one delay per call but the last. *)
Lemma retry_loop_bound op description :
  forall fuel a d last w l,
    let r := retry_loop fuel op description a d last w l in
    invocations (snd r) <= invocations l + (S (maxRetries RETRY_CONFIG) - a)
    /\ length (delays (snd r)) <= length (delays l) + (maxRetries RETRY_CONFIG - a).
Proof.
  induction fuel as [|fuel IH]; intros a d last w l; simpl.
  - lia.
  - destruct (a <=? 3) eqn:Ha; simpl; [|lia].
    apply Nat.leb_le in Ha.
    destruct (op w) as [[v|e] w']; simpl; [lia|].
    destruct (a <? 3) eqn:Ha'; simpl; [|lia].
    apply Nat.ltb_lt in Ha'.
    destruct (retriable e); simpl; [|lia].
    specialize (IH (S a) (d * 2)%Z (Some e) w'
                  (log_delay d (log_console (warning description a d e) (log_call l)))).
    simpl in IH. rewrite length_app in IH. simpl in IH. lia.
Qed.

(** The rounds [withRetry] gives to the loop are enough: with more of
    them the loop does the same. *)
Lemma retry_loop_rounds op description :
  forall fuel fuel' a d last w l,
    S (maxRetries RETRY_CONFIG) <= a + fuel ->
    S (maxRetries RETRY_CONFIG) <= a + fuel' ->
    retry_loop fuel op description a d last w l
    = retry_loop fuel' op description a d last w l.
Proof.
  induction fuel as [|fuel IH]; intros fuel' a d last w l Hf Hf'; simpl in Hf, Hf'.
  - destruct fuel' as [|fuel']; [reflexivity|]. simpl.
    replace (a <=? 3) with false by (symmetry; apply Nat.leb_gt; lia).
    reflexivity.
  - destruct fuel' as [|fuel']; simpl.
    + replace (a <=? 3) with false by (symmetry; apply Nat.leb_gt; lia).
      reflexivity.
    + destruct (a <=? 3); [|reflexivity].
      destruct (op w) as [[v|e] w']; [reflexivity|].
      destruct (_ && _); [|reflexivity].
      apply IH; simpl; lia.
Qed.

(** A first failure that is not retriable ends the loop at once. *)
Lemma retry_loop_fatal op description fuel d last w l e :
  fst (op w) = Rejected e -> retriable e = false ->
  retry_loop (S fuel) op description 0 d last w l =
    (GaveUp (Some e), snd (op w), log_call l).
Proof.
  intros He Hr. simpl. destruct (op w) as [r w']. simpl in *. subst r.
  rewrite Hr. reflexivity.
Qed.

(** The code retries exactly under the conditions spelled out in
    [Spec.retry_condition]. *)
Lemma retriable_iff e : retriable e = true <-> Spec.retry_condition e.
Proof.
  unfold retriable, isQuota, isServer, status_is, status_ge, Spec.retry_condition.
  rewrite !orb_true_iff. destruct (status_of e) as [s|].
  - rewrite Z.eqb_eq, Z.leb_le. split.
    + intros [[[H|H]|H]|[[[H|H]|H]|H]].
      * left. rewrite H. reflexivity.
      * right. left. exact H.
      * right. right. left. exact H.
      * right. right. right. left. exists s. split; [reflexivity|exact H].
      * do 4 right. left. exact H.
      * do 5 right. left. exact H.
      * do 6 right. exact H.
    + intros [H|[H|[H|[(s' & H & Hs)|[H|[H|H]]]]]].
      * left. left. left. injection H as ->. reflexivity.
      * left. left. right. exact H.
      * left. right. exact H.
      * right. left. left. left. injection H as ->. exact Hs.
      * right. left. left. right. exact H.
      * right. left. right. exact H.
      * right. right. exact H.
  - split.
    + intros [[[H|H]|H]|[[[H|H]|H]|H]]; try discriminate H.
      * right. left. exact H.
      * right. right. left. exact H.
      * do 4 right. left. exact H.
      * do 5 right. left. exact H.
      * do 6 right. exact H.
    + intros [H|[H|[H|[(s' & H & Hs)|[H|[H|H]]]]]]; try discriminate H.
      * left. left. right. exact H.
      * left. right. exact H.
      * right. left. left. right. exact H.
      * right. left. right. exact H.
      * right. right. exact H.
Qed.

(** The classes of the specification set against the test of the code:
    what the specification calls a quota or a transient-server error is
    retried, and what it calls fatal is retried all the same when its
    message holds 429 or 500. *)
Lemma retriable_spec_classes e :
  Spec.quota_error e = true \/ Spec.transient_server_error e = true ->
  retriable e = true.
Proof.
  unfold Spec.quota_error, Spec.transient_server_error, retriable, isQuota, isServer.
  destruct (status_is 429 (status_of e)), (status_ge 500 (status_of e)),
    (Js.includes (lit "429") (err_message e)),
    (Js.includes (lit "quota") (Js.toLowerCase (err_message e))),
    (Js.includes (lit "500") (err_message e)),
    (Js.includes (lit "503") (err_message e)),
    (Js.includes (lit "overloaded") (err_message e));
    cbn [orb]; intros [H|H]; first [reflexivity | discriminate H].
Qed.

Lemma retriable_spec_fatal e :
  Spec.fatal_error e = true ->
  (retriable e = true
   <-> Js.includes (lit "429") (err_message e) = true
       \/ Js.includes (lit "500") (err_message e) = true).
Proof.
  unfold Spec.fatal_error, Spec.quota_error, Spec.transient_server_error,
    retriable, isQuota, isServer.
  destruct (status_is 429 (status_of e)), (status_ge 500 (status_of e)),
    (Js.includes (lit "429") (err_message e)),
    (Js.includes (lit "quota") (Js.toLowerCase (err_message e))),
    (Js.includes (lit "500") (err_message e)),
    (Js.includes (lit "503") (err_message e)),
    (Js.includes (lit "overloaded") (err_message e));
    cbn [orb andb negb]; intros H; try discriminate H;
    split; intros H'; try reflexivity; try discriminate H';
    try (left; reflexivity); try (right; reflexivity);
    destruct H' as [H'|H']; discriminate H'.
Qed.

(** A resolved [withRetry] comes from a resolved invocation, reached
    through retriable failures only. *)
Lemma retry_loop_returned op description v :
  forall fuel a d last w l w' l',
    retry_loop fuel op description a d last w l = (Returned v, w', l') ->
    exists n,
      (forall k, k < n -> exists e,
          fst (nth_call op w k) = Rejected e /\ retriable e = true)
      /\ nth_call op w n = (Resolved v, w')
      /\ a + n <= maxRetries RETRY_CONFIG
      /\ l' = mkLog (invocations l + S n) (delays l ++ backoff d n)
                    (console l ++ warnings op description a d w n).
Proof.
  induction fuel as [|fuel IH]; intros a d last w l w' l'; simpl; [discriminate|].
  destruct (a <=? 3) eqn:Ha; [|discriminate]. apply Nat.leb_le in Ha.
  destruct (op w) as [[v0|e] w0] eqn:Hop.
  - intros [= <- <- <-]. exists 0. split; [intros k Hk; lia|].
    unfold nth_call. simpl. split; [exact Hop|]. split; [lia|].
    unfold log_call, backoff, warnings. simpl. rewrite !app_nil_r.
    f_equal. lia.
  - destruct (a <? 3) eqn:Ha'; simpl; [|discriminate].
    destruct (retriable e) eqn:Hr; [|discriminate].
    intros H. apply IH in H. destruct H as (n & Hfail & Hok & Hn & ->).
    exists (S n). split; [|split; [|split]].
    + intros [|k] Hk.
      * exists e. unfold nth_call. simpl. rewrite Hop. auto.
      * destruct (Hfail k) as (e' & He' & Hr'); [lia|].
        exists e'. unfold nth_call in *. simpl. rewrite Hop. auto.
    + unfold nth_call in *. simpl. rewrite Hop. exact Hok.
    + simpl in *. lia.
    + rewrite warnings_S, backoff_S, Hop. simpl. rewrite <- !app_assoc. simpl.
      f_equal. lia.
Qed.

Lemma withRetry_resolved op description w v :
  result_of (withRetry op description w) = Resolved v ->
  exists n,
    (forall k, k < n -> exists e,
        fst (nth_call op w k) = Rejected e /\ retriable e = true)
    /\ nth_call op w n = (Resolved v, world_of (withRetry op description w)).
Proof.
  unfold withRetry, result_of, world_of.
  destruct (retry_loop _ _ _ _ _ _ _ _) as [[[v'|last] w'] l] eqn:H;
    simpl; [|discriminate].
  intros [= ->]. apply retry_loop_returned in H as (n & H1 & H2 & _).
  exists n. auto.
Qed.

(** The same with what the wrapper did on the way: one delay and one
    warning per failed invocation. *)
Lemma withRetry_resolved_log op description w v :
  result_of (withRetry op description w) = Resolved v ->
  exists n,
    n <= 3
    /\ (forall k, k < n -> exists e,
          fst (nth_call op w k) = Rejected e /\ retriable e = true)
    /\ nth_call op w n = (Resolved v, world_of (withRetry op description w))
    /\ log_of (withRetry op description w)
       = mkLog (S n) (backoff 2000 n) (warnings op description 0 2000 w n).
Proof.
  unfold withRetry, result_of, world_of, log_of.
  destruct (retry_loop _ _ _ _ _ _ _ _) as [[[v'|last] w'] l] eqn:H;
    simpl; [|discriminate].
  intros [= ->]. apply retry_loop_returned in H as (n & H1 & H2 & H3 & ->).
  exists n. simpl in *. auto.
Qed.

Lemma withRetry_recovers op description w v n :
  n <= 3 ->
  (forall k, k < n -> exists e,
      fst (nth_call op w k) = Rejected e /\ retriable e = true) ->
  fst (nth_call op w n) = Resolved v ->
  withRetry op description w
  = (Resolved v, snd (nth_call op w n),
     mkLog (S n) (backoff 2000 n) (warnings op description 0 2000 w n)).
Proof.
  intros Hn Hfail Hok. unfold withRetry.
  rewrite (retry_loop_recovers op description v n) by (simpl; auto; lia).
  reflexivity.
Qed.

(** A loop that gives up does so on a failure that is not retriable, or on
    the last attempt allowed; the failures before it were retriable. *)
Lemma retry_loop_gaveup op description :
  forall fuel a d last w l le w' l',
    a <= maxRetries RETRY_CONFIG ->
    S (maxRetries RETRY_CONFIG) <= a + fuel ->
    retry_loop fuel op description a d last w l = (GaveUp le, w', l') ->
    exists n e,
      a + n <= maxRetries RETRY_CONFIG
      /\ (forall k, k < n -> exists e',
            fst (nth_call op w k) = Rejected e' /\ retriable e' = true)
      /\ nth_call op w n = (Rejected e, w')
      /\ (a + n < maxRetries RETRY_CONFIG -> retriable e = false)
      /\ le = Some e
      /\ l' = mkLog (invocations l + S n) (delays l ++ backoff d n)
                    (console l ++ warnings op description a d w n).
Proof.
  induction fuel as [|fuel IH]; intros a d last w l le w' l' Ha Hf; simpl in Ha, Hf;
    [lia|]. simpl.
  replace (a <=? 3) with true by (symmetry; apply Nat.leb_le; lia).
  destruct (op w) as [[v|e] w0] eqn:Hop; [discriminate|].
  destruct (a <? 3) eqn:Ha'; [apply Nat.ltb_lt in Ha'|apply Nat.ltb_ge in Ha'];
    destruct (retriable e) eqn:Hr; simpl.
  - intros H. apply IH in H; [|simpl; lia..].
    destruct H as (n & e0 & Hn & Hfail & Hcall & Hfatal & -> & ->).
    exists (S n), e0. split; [simpl in *; lia|]. split; [|split; [|split; [|split]]].
    + intros [|k] Hk.
      * exists e. unfold nth_call. simpl. rewrite Hop. auto.
      * destruct (Hfail k) as (e' & He' & Hr'); [lia|].
        exists e'. unfold nth_call in *. simpl. rewrite Hop. auto.
    + unfold nth_call in *. simpl. rewrite Hop. exact Hcall.
    + intros H. apply Hfatal. simpl in *. lia.
    + reflexivity.
    + rewrite warnings_S, backoff_S, Hop. simpl. rewrite <- !app_assoc. simpl.
      f_equal. lia.
  - intros [= <- <- <-]. exists 0, e. unfold nth_call. simpl.
    split; [lia|]. split; [intros k Hk; lia|]. split; [exact Hop|].
    split; [auto|]. split; [reflexivity|].
    unfold log_call, backoff, warnings. simpl. rewrite !app_nil_r. f_equal. lia.
  - intros [= <- <- <-]. exists 0, e. unfold nth_call. simpl.
    split; [lia|]. split; [intros k Hk; lia|]. split; [exact Hop|].
    split; [simpl; lia|]. split; [reflexivity|].
    unfold log_call, backoff, warnings. simpl. rewrite !app_nil_r. f_equal. lia.
  - intros [= <- <- <-]. exists 0, e. unfold nth_call. simpl.
    split; [lia|]. split; [intros k Hk; lia|]. split; [exact Hop|].
    split; [auto|]. split; [reflexivity|].
    unfold log_call, backoff, warnings. simpl. rewrite !app_nil_r. f_equal. lia.
Qed.

(** Every rejection of [withRetry]: the failures it retried, the failure
    it gave up on, and what it awaited and wrote on the way. *)
Lemma withRetry_rejected op description w e :
  result_of (withRetry op description w) = Rejected e ->
  exists n last,
    n <= 3
    /\ (forall k, k < n -> exists e',
          fst (nth_call op w k) = Rejected e' /\ retriable e' = true)
    /\ nth_call op w n = (Rejected last, world_of (withRetry op description w))
    /\ (n < 3 -> retriable last = false)
    /\ e = final_error description (Some last)
    /\ log_of (withRetry op description w)
       = mkLog (S n) (backoff 2000 n)
               (warnings op description 0 2000 w n
                ++ final_console description (Some last)).
Proof.
  unfold withRetry, result_of, world_of, log_of.
  destruct (retry_loop _ _ _ _ _ _ _ _) as [[[v|le] w'] l'] eqn:Hloop;
    simpl; [discriminate|].
  intros [= <-].
  apply retry_loop_gaveup in Hloop; [|simpl; lia..].
  destruct Hloop as (n & last & Hn & Hfail & Hcall & Hfatal & -> & ->).
  exists n, last. simpl in *. repeat split; auto; lia.
Qed.

End RetryFacts.

(** C1 as stated fails for the errors the code retries on the strength of
    their message alone: an operation that always fails with status 400, a
    status that is not retriable, and a message that happens to hold the
    number 500 is invoked four times, with delays of 2000, 4000 and 8000
    ms, where the claim has it invoked once. *)
Lemma withRetry_retries_bad_request :
  let e := Service.mkError (Some 400%Z) None
             (lit "Image width must be at most 500 pixels") in
  let r := Service.withRetry Sample.oversized (lit "grade submission") 0 in
  (forall k, fst (Service.nth_call Sample.oversized 0 k) = Service.Rejected e)
  /\ Service.status_of e = Some 400%Z
  /\ Spec.quota_error e = false
  /\ Spec.transient_server_error e = false
  /\ Spec.fatal_error e = true
  /\ Service.invocations (Service.log_of r) = 4
  /\ Service.delays (Service.log_of r) = [2000; 4000; 8000]%Z
  /\ Service.result_of r
     = Service.Rejected
         (Service.Error
            (lit "Failed to grade submission: Image width must be at most 500 pixels")).
Proof.
  cbv zeta. split; [intros k; reflexivity|].
  repeat split; vm_compute; reflexivity.
Qed.

(** C1, amended.  [withRetry] re-invokes an operation that fails under one
    of the conditions of [Spec.retry_condition] (status 429, a status of
    500 or more, or a message that contains 429, 500, 503, overloaded or,
    in any letter case, quota) up to 3 more times, never more than 4
    invocations, awaiting 2000 ms and then twice the last delay before
    each retry: after [n <= 3] such failures and a success it returns that
    success, having awaited 2000 * (2^n - 1) ms in all.  A first failure
    that meets none of the conditions is final: one invocation, no delay.
    These conditions are exactly the ones the code tests.  They cover the
    quota and transient-server errors of the specification; an error the
    specification calls fatal meets them exactly when its message holds
    429 or 500. *)
Theorem withRetry_backoff {W T : Type}
    (op : @Service.operation W T) (description : text) (w : W) :
  let r := Service.withRetry op description w in
  (forall n v,
      n <= 3 ->
      (forall k, k < n -> exists e,
          fst (Service.nth_call op w k) = Service.Rejected e
          /\ Spec.retry_condition e) ->
      fst (Service.nth_call op w n) = Service.Resolved v ->
      Service.result_of r = Service.Resolved v
      /\ Service.invocations (Service.log_of r) = n + 1
      /\ Service.delays (Service.log_of r) = Service.backoff 2000 n
      /\ Service.total_delay (Service.log_of r) = (2000 * (2 ^ Z.of_nat n - 1))%Z)
  /\ (forall e,
      fst (op w) = Service.Rejected e ->
      ~ Spec.retry_condition e ->
      Service.result_of r = Service.Rejected (Service.final_error description (Some e))
      /\ Service.invocations (Service.log_of r) = 1
      /\ Service.delays (Service.log_of r) = [])
  /\ Service.invocations (Service.log_of r) <= 4
  /\ length (Service.delays (Service.log_of r)) <= 3
  /\ (forall e, Service.retriable e = true <-> Spec.retry_condition e)
  /\ (forall e,
      Spec.quota_error e = true \/ Spec.transient_server_error e = true ->
      Spec.retry_condition e)
  /\ (forall e,
      Spec.fatal_error e = true ->
      (Spec.retry_condition e
       <-> Js.includes (lit "429") (Service.err_message e) = true
           \/ Js.includes (lit "500") (Service.err_message e) = true)).
Proof.
  intros r. subst r.
  split; [|split; [|split; [|split; [|split; [|split]]]]].
  - intros n v Hn Hfail Hok.
    rewrite (withRetry_recovers op description w v n Hn); [|
      intros k Hk; destruct (Hfail k Hk) as (e & He & Hc); exists e;
      split; [exact He|apply retriable_iff, Hc] | exact Hok].
    unfold Service.result_of, Service.log_of, Service.total_delay. simpl.
    rewrite sum_backoff. repeat split; lia.
  - intros e He Hc.
    assert (Hr : Service.retriable e = false).
    { destruct (Service.retriable e) eqn:E; [|reflexivity].
      exfalso. apply Hc, retriable_iff, E. }
    unfold Service.withRetry, Service.result_of, Service.log_of.
    rewrite (retry_loop_fatal op description _ _ _ w _ e He Hr). simpl. auto.
  - unfold Service.withRetry, Service.log_of.
    pose proof (retry_loop_bound op description
                  (S (Service.maxRetries Service.RETRY_CONFIG)) 0
                  (Service.initialDelay Service.RETRY_CONFIG) None w
                  (Service.mkLog 0 [] [])) as H.
    cbv zeta in H. destruct H as [H _]. revert H.
    destruct (Service.retry_loop _ _ _ _ _ _ _ _) as [[[v|last] w'] l];
      cbn [fst snd Service.invocations Service.maxRetries Service.RETRY_CONFIG]; lia.
  - unfold Service.withRetry, Service.log_of.
    pose proof (retry_loop_bound op description
                  (S (Service.maxRetries Service.RETRY_CONFIG)) 0
                  (Service.initialDelay Service.RETRY_CONFIG) None w
                  (Service.mkLog 0 [] [])) as H.
    cbv zeta in H. destruct H as [_ H]. revert H.
    destruct (Service.retry_loop _ _ _ _ _ _ _ _) as [[[v|last] w'] l];
      cbn [fst snd Service.delays Service.maxRetries Service.RETRY_CONFIG length]; lia.
  - apply retriable_iff.
  - intros e H. apply retriable_iff, retriable_spec_classes, H.
  - intros e H. rewrite <- retriable_iff. apply retriable_spec_fatal, H.
Qed.

Lemma withRetry_backoff_witness :
  (Service.result_of (Service.withRetry Sample.flaky (lit "grade submission") 0)
   = Service.Resolved 7
   /\ Service.invocations
        (Service.log_of (Service.withRetry Sample.flaky (lit "grade submission") 0)) = 3
   /\ Service.delays
        (Service.log_of (Service.withRetry Sample.flaky (lit "grade submission") 0))
      = [2000; 4000]%Z
   /\ Service.total_delay
        (Service.log_of (Service.withRetry Sample.flaky (lit "grade submission") 0))
      = 6000%Z)
  /\ (Service.result_of
        (Service.withRetry
           (Service.grade_op Sample.no_json (lit "x = 1") Sample.question)
           (lit "grade submission") Sample.refusing)
      = Service.Rejected (Service.Error (lit "Failed to grade submission: Bad Request"))
      /\ Service.invocations
           (Service.log_of
              (Service.withRetry
                 (Service.grade_op Sample.no_json (lit "x = 1") Sample.question)
                 (lit "grade submission") Sample.refusing)) = 1
      /\ Service.delays
           (Service.log_of
              (Service.withRetry
                 (Service.grade_op Sample.no_json (lit "x = 1") Sample.question)
                 (lit "grade submission") Sample.refusing)) = [])
  /\ (Spec.retry_condition
        (Service.mkError (Some 400%Z) None
           (lit "Image width must be at most 500 pixels"))
      <-> Js.includes (lit "429") (lit "Image width must be at most 500 pixels") = true
          \/ Js.includes (lit "500") (lit "Image width must be at most 500 pixels")
             = true).
Proof.
  split; [|split].
  - refine (proj1 (withRetry_backoff Sample.flaky (lit "grade submission") 0) 2 7 _ _ _).
    + lia.
    + intros k Hk.
      exists (Service.mkError (Some 429%Z) None (lit "Too Many Requests")).
      split; [destruct k as [|[|k]]; [reflexivity | reflexivity | lia]|].
      left. reflexivity.
    + reflexivity.
  - refine (proj1 (proj2 (withRetry_backoff
                            (Service.grade_op Sample.no_json (lit "x = 1") Sample.question)
                            (lit "grade submission") Sample.refusing))
              (Service.mkError (Some 400%Z) None (lit "Bad Request")) _ _).
    + reflexivity.
    + intros [H|[H|[H|[(s & H & Hs)|[H|[H|H]]]]]];
        try (vm_compute in H; discriminate H).
      vm_compute in H. injection H as <-. lia.
  - refine (proj2 (proj2 (proj2 (proj2 (proj2 (proj2
              (withRetry_backoff Sample.flaky (lit "grade submission") 0))))))
              (Service.mkError (Some 400%Z) None
                 (lit "Image width must be at most 500 pixels")) _).
    vm_compute. reflexivity.
Defined.

(* ===================================================================== *)
(** * Properties of the application shell *)
(* ===================================================================== *)

Section AppFacts.
Import Service App.

Lemma trimStart_blank (s : text) :
  Forall (fun c => Js.is_space c = true) s -> Js.trimStart s = [].
Proof.
  induction 1 as [|c s Hc _ IH]; [reflexivity|].
  simpl. rewrite Hc. exact IH.
Qed.

Lemma trim_blank (s : text) :
  Forall (fun c => Js.is_space c = true) s -> Js.trim s = [].
Proof.
  intros H. unfold Js.trim. rewrite (trimStart_blank s H). reflexivity.
Qed.

Lemma grading_begins_world st : world (grading_begins st) = world st.
Proof. reflexivity. Qed.

End AppFacts.

(** C4.  A grading call that fails is only logged: the result received
    earlier stays the current one, the error slot does not receive the
    failure message (it is the [null] written when the call started), and
    the grading flag is lowered again.  The console receives what the
    service call wrote while it was pending (one warning per retry and,
    unless the failure is reported as a usage limit, the final error of
    the wrapper) and then the failure itself.  The part that runs once
    the call has settled touches neither the result nor the error slot,
    whatever happened while the call was pending. *)
Theorem grading_failure_only_logged
    (JSON_parse : text -> Service.JsError + jsval)
    (latex : text) (context : jsobj) (st : App.AppState) (e : Service.JsError) :
  Js.trim latex <> [] ->
  let op := Service.grade_op JSON_parse latex context in
  let r := Service.gradeLatexSubmission JSON_parse latex context (App.world st) in
  Service.result_of r = Service.Rejected e ->
  let st' := App.handleGrading JSON_parse latex context st in
  App.gradingResult st' = App.gradingResult st
  /\ App.error (App.processing st') = None
  /\ App.error (App.processing st') <> Some (Service.err_message e)
  /\ App.console st'
     = App.console st ++ Service.console (Service.log_of r)
       ++ [Service.Errored None (Some e)]
  /\ (exists n last,
        n <= 3
        /\ fst (Service.nth_call op (App.world st) n) = Service.Rejected last
        /\ e = Service.final_error (lit "grade submission") (Some last)
        /\ Service.console (Service.log_of r)
           = Service.warnings op (lit "grade submission") 0 2000 (App.world st) n
             ++ Service.final_console (lit "grade submission") (Some last))
  /\ App.isGrading (App.processing st') = false
  /\ App.latexSource st' = App.latexSource st
  /\ App.activeQuestion st' = App.activeQuestion st
  /\ (forall pending,
        App.gradingResult (App.grading_settles (Service.Rejected e) pending)
          = App.gradingResult pending
        /\ App.error (App.processing (App.grading_settles (Service.Rejected e) pending))
          = App.error (App.processing pending)).
Proof.
  intros Htrim op r Hrej st'. subst st'.
  assert (Hlog : exists n last,
             n <= 3
             /\ fst (Service.nth_call op (App.world st) n) = Service.Rejected last
             /\ e = Service.final_error (lit "grade submission") (Some last)
             /\ Service.console (Service.log_of r)
                = Service.warnings op (lit "grade submission") 0 2000 (App.world st) n
                  ++ Service.final_console (lit "grade submission") (Some last)).
  { destruct (withRetry_rejected op (lit "grade submission") (App.world st) e Hrej)
      as (n & last & Hn & _ & Hcall & _ & He & Hl).
    exists n, last. split; [exact Hn|]. split; [rewrite Hcall; reflexivity|].
    split; [exact He|]. unfold r, Service.gradeLatexSubmission. fold op.
    rewrite Hl. reflexivity. }
  unfold App.handleGrading.
  destruct (Js.trim latex) as [|c t]; [congruence|].
  rewrite grading_begins_world.
  unfold Service.result_of in Hrej. revert Hlog. subst r.
  destruct (Service.gradeLatexSubmission JSON_parse latex context (App.world st))
    as [[r w'] l].
  simpl in Hrej. subst r. intros Hlog. simpl.
  split; [reflexivity|]. split; [reflexivity|]. split; [discriminate|].
  split; [rewrite <- app_assoc; reflexivity|]. split; [exact Hlog|].
  repeat split.
Qed.

Lemma grading_failure_only_logged_witness :
  let st' := App.handleGrading Sample.no_json (lit "x = 1") Sample.question
               Sample.graded_once in
  App.gradingResult st' = App.gradingResult Sample.graded_once
  /\ App.error (App.processing st') = None
  /\ App.console st'
     = [Service.Errored (Some (lit "Final Error in grade submission:"))
          (Some (Service.mkError (Some 400%Z) None (lit "Bad Request")));
        Service.Errored None
          (Some (Service.Error (lit "Failed to grade submission: Bad Request")))].
Proof.
  pose proof (grading_failure_only_logged Sample.no_json (lit "x = 1")
                Sample.question Sample.graded_once
                (Service.Error (lit "Failed to grade submission: Bad Request"))) as H.
  cbv zeta in *.
  destruct H as (H1 & H2 & _ & H4 & _).
  - vm_compute. discriminate.
  - vm_compute. reflexivity.
  - split; [exact H1 | split; [exact H2 |]]. rewrite H4. vm_compute. reflexivity.
Defined.

(** C10.  A debounced source that is not empty but holds only white space
    makes [handleGrading] return at once: the state is left as it was, so
    the grading flag is not raised, the error slot and the displayed result
    are untouched and no request reaches the service.  An empty source
    clears the result instead. *)
Theorem blank_source_not_graded
    (JSON_parse : text -> Service.JsError + jsval) (st : App.AppState) :
  (App.debouncedLatex st <> [] ->
   Forall (fun c => Js.is_space c = true) (App.debouncedLatex st) ->
   let st' := App.gradingEffect JSON_parse st in
   st' = st
   /\ App.isGrading (App.processing st') = App.isGrading (App.processing st)
   /\ App.error (App.processing st') = App.error (App.processing st)
   /\ App.gradingResult st' = App.gradingResult st
   /\ Service.requests (App.world st') = Service.requests (App.world st))
  /\ (App.debouncedLatex st = [] ->
      App.gradingResult (App.gradingEffect JSON_parse st) = None).
Proof.
  split.
  - intros Hne Hblank st'. subst st'. unfold App.gradingEffect.
    destruct (App.debouncedLatex st) as [|c t] eqn:Hd; [congruence|].
    unfold App.handleGrading. rewrite (trim_blank _ Hblank). auto.
  - intros Hd. unfold App.gradingEffect. rewrite Hd. reflexivity.
Qed.

Lemma blank_source_not_graded_witness :
  App.gradingEffect Sample.no_json Sample.blank_source = Sample.blank_source.
Proof.
  refine (proj1 (proj1 (blank_source_not_graded Sample.no_json Sample.blank_source) _ _)).
  - vm_compute. discriminate.
  - vm_compute. repeat constructor.
Defined.

(* ===================================================================== *)
(** * Properties of the editor *)
(* ===================================================================== *)

Section EditorFacts.

Lemma slice_0 (b : nat) (s : text) : Js.slice 0 b s = take b s.
Proof. unfold Js.slice. rewrite Nat.sub_0_r. reflexivity. Qed.

Lemma lastIndexOf_None (c : ascii) (s : text) :
  Js.lastIndexOf c s = None -> forall j, s !! j <> Some c.
Proof.
  induction s as [|d s IH]; simpl; intros Hl j; [destruct j; discriminate|].
  destruct (Js.lastIndexOf c s) eqn:Hl'; [discriminate|].
  destruct (Ascii.eqb d c) eqn:Hd; [discriminate|].
  destruct j as [|j]; simpl.
  - intros [= ->]. rewrite Ascii.eqb_refl in Hd. discriminate.
  - apply IH. reflexivity.
Qed.

Lemma lastIndexOf_Some (c : ascii) (s : text) (i : nat) :
  Js.lastIndexOf c s = Some i ->
  s !! i = Some c /\ forall j, i < j -> s !! j <> Some c.
Proof.
  revert i. induction s as [|d s IH]; intros i; simpl; [discriminate|].
  destruct (Js.lastIndexOf c s) as [i'|] eqn:Hl.
  - intros [= <-]. destruct (IH i' eq_refl) as [H1 H2]. split; [exact H1|].
    intros [|j] Hj; [lia|]. simpl. apply H2. lia.
  - destruct (Ascii.eqb d c) eqn:Hd; [|discriminate].
    intros [= <-]. apply Ascii.eqb_eq in Hd. subst d. split; [reflexivity|].
    intros [|j] Hj; [lia|]. simpl. apply (lastIndexOf_None c s Hl).
Qed.

(** [lastIndexOf] finds the greatest index that holds the unit. *)
Lemma lastIndexOf_greatest (c : ascii) (s : text) (i : nat) :
  s !! i = Some c -> (forall j, i < j -> s !! j <> Some c) ->
  Js.lastIndexOf c s = Some i.
Proof.
  intros Hi Hlast. destruct (Js.lastIndexOf c s) as [i'|] eqn:Hl.
  - destruct (lastIndexOf_Some c s i' Hl) as [Hi' Hlast'].
    destruct (Nat.lt_trichotomy i i') as [H|[H|H]].
    + exfalso. exact (Hlast i' H Hi').
    + congruence.
    + exfalso. exact (Hlast' i H Hi).
  - exfalso. exact (lastIndexOf_None c s Hl i Hi).
Qed.

End EditorFacts.

(** C9 as stated fails: with a line break (two backslashes) followed by the
    letters of a command before the caret, the suggestion is offered and
    accepting it replaces from the second backslash of the pair, the escaped
    one, where the specification starts from the first. *)
Lemma applySuggestion_starts_at_escaped_backslash :
  let ed := LatexEditor.handleKeyUp Sample.after_line_break in
  LatexEditor.showSuggestions ed = true
  /\ In (lit "\alpha") (LatexEditor.suggestions ed)
  /\ Spec.last_unescaped_backslash (take 5 (LatexEditor.value ed)) = Some 1
  /\ Js.lastIndexOf "\" (take 5 (LatexEditor.value ed)) = Some 2
  /\ LatexEditor.value (LatexEditor.applySuggestion (lit "\alpha") ed) = lit "x\\alpha"
  /\ Some (LatexEditor.value (LatexEditor.applySuggestion (lit "\alpha") ed))
     <> Spec.replace_from_unescaped (lit "\alpha") (LatexEditor.value ed) 5.
Proof.
  vm_compute. repeat split; auto. discriminate.
Qed.

(** C9, amended.  Accepting a suggestion replaces exactly the span from the
    last backslash before the caret, escaped or not, up to the caret with
    the command, puts the caret right after the command and closes the
    popup. *)
Theorem applySuggestion_replaces_from_last_backslash
    (cmd : text) (ed : LatexEditor.Editor) (start i : nat) :
  LatexEditor.selectionStart ed = Some start ->
  i < start ->
  LatexEditor.value ed !! i = Some "\"%char ->
  (forall j, i < j < start -> LatexEditor.value ed !! j <> Some "\"%char) ->
  let ed' := LatexEditor.applySuggestion cmd ed in
  LatexEditor.value ed'
    = take i (LatexEditor.value ed) ++ cmd ++ drop start (LatexEditor.value ed)
  /\ LatexEditor.selectionStart ed' = Some (i + length cmd)
  /\ LatexEditor.showSuggestions ed' = false.
Proof.
  intros Hsel Hi Hbs Hlast ed'. subst ed'. unfold LatexEditor.applySuggestion.
  rewrite Hsel. cbv zeta. rewrite slice_0.
  rewrite (lastIndexOf_greatest "\" (take start (LatexEditor.value ed)) i).
  - rewrite slice_0. simpl. auto.
  - rewrite lookup_take_lt by exact Hi. exact Hbs.
  - intros j Hj. destruct (Nat.lt_ge_cases j start) as [H|H].
    + rewrite lookup_take_lt by exact H. apply Hlast. lia.
    + rewrite lookup_take_ge by exact H. discriminate.
Qed.

Lemma applySuggestion_replaces_from_last_backslash_witness :
  LatexEditor.value (LatexEditor.applySuggestion (lit "\frac") Sample.typing_frac)
    = lit "f = \frac + 1"
  /\ LatexEditor.selectionStart (LatexEditor.applySuggestion (lit "\frac") Sample.typing_frac)
    = Some 9.
Proof.
  destruct (applySuggestion_replaces_from_last_backslash
              (lit "\frac") Sample.typing_frac 7 4) as (H1 & H2 & _).
  - reflexivity.
  - lia.
  - reflexivity.
  - intros j Hj. assert (j = 5 \/ j = 6) as [-> | ->] by lia; vm_compute; discriminate.
  - split; [exact H1 | exact H2].
Defined.

(* ===================================================================== *)
(** * Properties of the renderer *)
(* ===================================================================== *)

(** C8.  The text a=2 without delimiters is found by the implicit-math
    pattern and handed to the math engine, in inline mode; the text a b c
    matches no implicit-math pattern and is rendered as one plain span. *)
Theorem implicit_math_examples :
  Regex.split true FormattedText.implicitMathRegex (lit "a=2") = [[]; lit "a=2"; []]
  /\ FormattedText.FormattedText (lit "a=2")
     = Some [FormattedText.ESpan [];
             FormattedText.EMath (lit "a=2") false true;
             FormattedText.EChars [];
             FormattedText.ESpan []]
  /\ option_map FormattedText.engine_calls (FormattedText.FormattedText (lit "a=2"))
     = Some [(lit "a=2", false)]
  /\ (forall renderToString,
        option_map (map (FormattedText.render (Some renderToString)))
          (FormattedText.FormattedText (lit "a=2"))
        = Some [PlainSpan [];
                match renderToString (lit "a=2") false with
                | inl html => Typeset html false
                | inr _ => PlainSpan (lit "a=2")
                end;
                Chars []; PlainSpan []])
  /\ Regex.exec true FormattedText.implicitMathRegex (lit "a b c") = None
  /\ Regex.split true FormattedText.implicitMathRegex (lit "a b c") = [lit "a b c"]
  /\ FormattedText.FormattedText (lit "a b c") = Some [FormattedText.ESpan (lit "a b c")]
  /\ option_map FormattedText.engine_calls (FormattedText.FormattedText (lit "a b c"))
     = Some []
  /\ (forall katex,
        option_map (map (FormattedText.render katex))
          (FormattedText.FormattedText (lit "a b c"))
        = Some [PlainSpan (lit "a b c")]).
Proof.
  repeat split; try (vm_compute; reflexivity).
Qed.

(** ** The matcher on a text known in part *)

Section RegexFacts.
Import Regex.

Lemma start_reached (s : text) : start s = reached [] s None.
Proof. reflexivity. Qed.

Lemma advance_reached pre c post cp :
  advance (reached pre (c :: post) cp) = reached (pre ++ [c]) post cp.
Proof.
  unfold advance, reached. simpl.
  rewrite length_app, last_snoc. simpl. f_equal. lia.
Qed.

Lemma m_Seq ic a b st k :
  m ic (Seq a b) st k = m ic a st (fun st' => m ic b st' k).
Proof. reflexivity. Qed.

Lemma m_Alt ic a b st k :
  m ic (Alt a b) st k = orelse (m ic a st k) (m ic b st k).
Proof. reflexivity. Qed.

Lemma m_Group ic a st k :
  m ic (Group a) st k =
  m ic a st (fun st' =>
    k (mkState (pos st') (prev st') (rest st') (Some (pos st, pos st')))).
Proof. reflexivity. Qed.

Lemma m_Star ic g a st k :
  m ic (Star g a) st k = star_loop (m ic a) g (S (length (rest st))) st k.
Proof. reflexivity. Qed.

Lemma star_loop_S step g n st k :
  star_loop step g (S n) st k =
  (if g
   then orelse (step st (fun st' =>
                  if pos st <? pos st' then star_loop step g n st' k else None))
               (k st)
   else orelse (k st)
               (step st (fun st' =>
                  if pos st <? pos st' then star_loop step g n st' k else None))).
Proof. reflexivity. Qed.

Lemma m_class_hit ic neg items pre c post cp k :
  takes ic neg items c = true ->
  m ic (Set_ neg items) (reached pre (c :: post) cp) k
  = k (reached (pre ++ [c]) post cp).
Proof.
  intros H. rewrite <- advance_reached. simpl. rewrite H. reflexivity.
Qed.

Lemma m_class_miss ic neg items pre c post cp k :
  takes ic neg items c = false ->
  m ic (Set_ neg items) (reached pre (c :: post) cp) k = None.
Proof. intros H. simpl. rewrite H. reflexivity. Qed.

Lemma m_class_end ic neg items pre cp k :
  m ic (Set_ neg items) (reached pre [] cp) k = None.
Proof. reflexivity. Qed.

(** A greedy star over a class reads the whole run of units the class
    takes, when the rest of the pattern matches from there. *)
Lemma star_class_greedy ic neg items k post cp :
  match post with
  | [] => True
  | c :: _ => takes ic neg items c = false
  end ->
  forall run pre n,
    Forall (fun c => takes ic neg items c = true) run ->
    length run < n ->
    is_Some (k (reached (pre ++ run) post cp)) ->
    star_loop (m ic (Set_ neg items)) true n (reached pre (run ++ post) cp) k
    = k (reached (pre ++ run) post cp).
Proof.
  intros Hpost run. induction run as [|c run IH]; intros pre n Hrun Hn Hk.
  - destruct n as [|n]; [simpl in Hn; lia|].
    rewrite app_nil_r in *. simpl app. rewrite star_loop_S.
    destruct post as [|c post].
    + rewrite m_class_end. reflexivity.
    + rewrite m_class_miss by exact Hpost. reflexivity.
  - destruct n as [|n]; [simpl in Hn; lia|].
    inversion Hrun as [|? ? Hc Hrun']; subst.
    simpl app. rewrite star_loop_S.
    rewrite m_class_hit by exact Hc.
    replace (pos (reached pre (c :: run ++ post) cp)
             <? pos (reached (pre ++ [c]) (run ++ post) cp)) with true
      by (symmetry; apply Nat.ltb_lt; simpl; rewrite length_app; simpl; lia).
    replace (pre ++ c :: run) with ((pre ++ [c]) ++ run) in *
      by (rewrite <- app_assoc; reflexivity).
    rewrite IH; [|exact Hrun'|simpl in Hn; lia|exact Hk].
    destruct Hk as [x Hx]. rewrite Hx. reflexivity.
Qed.

Lemma orelse_None {A} (x y : option A) :
  orelse x y = None <-> x = None /\ y = None.
Proof. destruct x; simpl; split; [discriminate|intros [? _]; discriminate|auto|tauto]. Qed.

(** The matcher depends on its continuation pointwise only. *)
Lemma m_ext ic r :
  forall st k1 k2, (forall st', k1 st' = k2 st') -> m ic r st k1 = m ic r st k2.
Proof.
  induction r as [|neg items| |a IHa b IHb|a IHa b IHb|g a IHa| | | |a IHa];
    intros st k1 k2 Hk; cbn [m].
  - apply Hk.
  - destruct (rest st); [reflexivity|]. destruct (takes _ _ _ _); [apply Hk|reflexivity].
  - destruct (rest st); [reflexivity|].
    destruct (is_line_terminator _); [reflexivity|apply Hk].
  - apply IHa. intros st'. apply IHb, Hk.
  - rewrite (IHa st k1 k2 Hk), (IHb st k1 k2 Hk). reflexivity.
  - generalize (S (length (rest st))). intros n. revert st.
    induction n as [|n IHn]; intros st; [apply Hk|].
    rewrite !star_loop_S.
    rewrite (IHa st _ (fun st' =>
               if pos st <? pos st' then star_loop (m ic a) g n st' k2 else None)).
    + rewrite Hk. reflexivity.
    + intros st'. destruct (pos st <? pos st'); [apply IHn|reflexivity].
  - destruct (xorb _ _); [apply Hk|reflexivity].
  - destruct (rest st); [apply Hk|reflexivity].
  - destruct (prev st); [reflexivity|apply Hk].
  - apply IHa. intros st'. apply Hk.
Qed.

(** A pattern that fails with a continuation failing less fails with one
    failing more. *)
Lemma m_None_mono ic r :
  forall st k1 k2,
    (forall st', k1 st' = None -> k2 st' = None) ->
    m ic r st k1 = None -> m ic r st k2 = None.
Proof.
  induction r as [|neg items| |a IHa b IHb|a IHa b IHb|g a IHa| | | |a IHa];
    intros st k1 k2 Hk; cbn [m].
  - apply Hk.
  - destruct (rest st); [reflexivity|]. destruct (takes _ _ _ _); [apply Hk|reflexivity].
  - destruct (rest st); [reflexivity|].
    destruct (is_line_terminator _); [reflexivity|apply Hk].
  - apply IHa. intros st'. apply IHb, Hk.
  - rewrite !orelse_None. intros [H1 H2]. split; [eapply IHa|eapply IHb]; eauto.
  - generalize (S (length (rest st))). intros n. revert st.
    induction n as [|n IHn]; intros st; [apply Hk|].
    rewrite !star_loop_S.
    assert (Hagain :
      m ic a st (fun st' =>
        if pos st <? pos st' then star_loop (m ic a) g n st' k1 else None) = None ->
      m ic a st (fun st' =>
        if pos st <? pos st' then star_loop (m ic a) g n st' k2 else None) = None).
    { apply IHa. intros st'. destruct (pos st <? pos st'); [apply IHn|reflexivity]. }
    destruct g; rewrite !orelse_None; intros [H1 H2]; split; auto.
  - destruct (xorb _ _); [apply Hk|reflexivity].
  - destruct (rest st); [apply Hk|reflexivity].
  - destruct (prev st); [reflexivity|apply Hk].
  - apply IHa. intros st'. apply Hk.
Qed.

(** A pattern that does not match at a position does not start a longer
    match there either. *)
Lemma m_None_any ic r st k : m ic r st Some = None -> m ic r st k = None.
Proof. apply m_None_mono. discriminate. Qed.

Lemma advance_with_cap c st : advance (with_cap c st) = with_cap c (advance st).
Proof.
  unfold advance, with_cap. simpl.
  destruct (rest st) eqn:E; [rewrite E|]; reflexivity.
Qed.

(** A pattern without group carries the record of the group along. *)
Lemma m_with_cap ic r :
  has_group r = false ->
  forall st c k,
    m ic r (with_cap c st) k = m ic r st (fun st' => k (with_cap c st')).
Proof.
  induction r as [|neg items| |a IHa b IHb|a IHa b IHb|g a IHa| | | |a IHa];
    cbn [m has_group]; intros Hg st c k;
    change (rest (with_cap c st)) with (rest st);
    change (prev (with_cap c st)) with (prev st);
    rewrite ?advance_with_cap; try reflexivity.
  - apply orb_false_iff in Hg as [Ha Hb].
    rewrite IHa by exact Ha. apply m_ext. intros st'. apply IHb, Hb.
  - apply orb_false_iff in Hg as [Ha Hb].
    rewrite IHa, IHb by assumption. reflexivity.
  - generalize (S (length (rest st))). intros n. revert st.
    induction n as [|n IHn]; intros st; [reflexivity|].
    rewrite !star_loop_S. rewrite IHa by exact Hg.
    rewrite (m_ext ic a st _ (fun st' =>
               if pos st <? pos st'
               then star_loop (m ic a) g n st' (fun st'' => k (with_cap c st''))
               else None)).
    + reflexivity.
    + intros st'. simpl. destruct (pos st <? pos st'); [apply IHn|reflexivity].
  - discriminate.
Qed.

(** ** The rounds given to the loops are enough *)

Lemma ahead_refl st : ahead st st.
Proof. split; lia. Qed.

Lemma ahead_trans st1 st2 st3 : ahead st1 st2 -> ahead st2 st3 -> ahead st1 st3.
Proof. unfold ahead. lia. Qed.

Lemma ahead_advance st c t : rest st = c :: t -> ahead st (advance st).
Proof. intros H. unfold ahead, advance. rewrite H. simpl. lia. Qed.

(** The matcher consults its continuation only at positions ahead. *)
Lemma m_ahead ic r :
  forall st k1 k2,
    (forall st', ahead st st' -> k1 st' = k2 st') ->
    m ic r st k1 = m ic r st k2.
Proof.
  induction r as [|neg items| |a IHa b IHb|a IHa b IHb|g a IHa| | | |a IHa];
    intros st k1 k2 Hk; cbn [m].
  - apply Hk, ahead_refl.
  - destruct (rest st) eqn:E; [reflexivity|].
    destruct (takes _ _ _ _); [|reflexivity]. eapply Hk, ahead_advance, E.
  - destruct (rest st) eqn:E; [reflexivity|].
    destruct (is_line_terminator _); [reflexivity|]. eapply Hk, ahead_advance, E.
  - apply IHa. intros st1 H1. apply IHb. intros st2 H2.
    apply Hk. eapply ahead_trans; eassumption.
  - rewrite (IHa st k1 k2 Hk), (IHb st k1 k2 Hk). reflexivity.
  - generalize (S (length (rest st))). intros n. revert st Hk.
    induction n as [|n IHn]; intros st Hk; [apply Hk, ahead_refl|].
    rewrite !star_loop_S.
    rewrite (IHa st _ (fun st' =>
               if pos st <? pos st' then star_loop (m ic a) g n st' k2 else None)).
    + rewrite (Hk st (ahead_refl st)). reflexivity.
    + intros st1 H1. destruct (pos st <? pos st1); [|reflexivity].
      apply IHn. intros st2 H2. apply Hk. eapply ahead_trans; eassumption.
  - destruct (xorb _ _); [apply Hk, ahead_refl|reflexivity].
  - destruct (rest st); [apply Hk, ahead_refl|reflexivity].
  - destruct (prev st); [reflexivity|apply Hk, ahead_refl].
  - apply IHa. intros st1 H1. apply Hk. exact H1.
Qed.

(** More rounds than units ahead change nothing: the bound [m] gives to a
    starred pattern is never the reason the loop stops. *)
Lemma star_loop_rounds ic a g k :
  forall n n' st,
    length (rest st) < n -> length (rest st) < n' ->
    star_loop (m ic a) g n st k = star_loop (m ic a) g n' st k.
Proof.
  induction n as [|n IH]; intros n' st Hn Hn'; [lia|].
  destruct n' as [|n']; [lia|]. rewrite !star_loop_S.
  rewrite (m_ahead ic a st _ (fun st' =>
             if pos st <? pos st' then star_loop (m ic a) g n' st' k else None)).
  - reflexivity.
  - intros st1 [H1 H2]. destruct (pos st <? pos st1) eqn:E; [|reflexivity].
    apply Nat.ltb_lt in E. apply IH; lia.
Qed.

(** A match ends ahead of where it starts. *)
Lemma m_result_ahead ic r :
  forall st k e,
    m ic r st k = Some e -> exists st', ahead st st' /\ k st' = Some e.
Proof.
  induction r as [|neg items| |a IHa b IHb|a IHa b IHb|g a IHa| | | |a IHa];
    intros st k e; cbn [m].
  - intros H. exists st. split; [apply ahead_refl|exact H].
  - destruct (rest st) eqn:E; [discriminate|].
    destruct (takes _ _ _ _); [|discriminate].
    intros H. exists (advance st). split; [eapply ahead_advance, E|exact H].
  - destruct (rest st) eqn:E; [discriminate|].
    destruct (is_line_terminator _); [discriminate|].
    intros H. exists (advance st). split; [eapply ahead_advance, E|exact H].
  - intros H. apply IHa in H as (st1 & H1 & H). apply IHb in H as (st2 & H2 & H).
    exists st2. split; [eapply ahead_trans; eassumption|exact H].
  - destruct (m ic a st k) eqn:Ea; simpl.
    + intros [= <-]. apply IHa in Ea. exact Ea.
    + intros H. apply IHb in H. exact H.
  - generalize (S (length (rest st))). intros n. revert st e.
    induction n as [|n IHn]; intros st e.
    + intros H. exists st. split; [apply ahead_refl|exact H].
    + rewrite star_loop_S.
      assert (Hagain : forall x,
        m ic a st (fun st' =>
          if pos st <? pos st' then star_loop (m ic a) g n st' k else None) = Some x ->
        exists st', ahead st st' /\ k st' = Some x).
      { intros x H. apply IHa in H as (st1 & H1 & H).
        destruct (pos st <? pos st1); [|discriminate].
        apply IHn in H as (st2 & H2 & H).
        exists st2. split; [eapply ahead_trans; eassumption|exact H]. }
      destruct g.
      * destruct (m ic a st _) eqn:Ea; simpl.
        -- intros [= <-]. apply Hagain. reflexivity.
        -- intros H. exists st. split; [apply ahead_refl|exact H].
      * destruct (k st) eqn:Ek; simpl.
        -- intros [= <-]. exists st. split; [apply ahead_refl|exact Ek].
        -- apply Hagain.
  - destruct (xorb _ _); [|discriminate].
    intros H. exists st. split; [apply ahead_refl|exact H].
  - destruct (rest st); [|discriminate].
    intros H. exists st. split; [apply ahead_refl|exact H].
  - destruct (prev st); [discriminate|].
    intros H. exists st. split; [apply ahead_refl|exact H].
  - intros H. apply IHa in H as (st1 & H1 & H).
    eexists. split; [|exact H]. exact H1.
Qed.

Lemma match_here_ahead ic r st e :
  match_here ic r st = Some e -> ahead st e.
Proof.
  unfold match_here. intros H.
  apply m_result_ahead in H as (st1 & H1 & [= <-]). exact H1.
Qed.

End RegexFacts.

Section DollarPair.
Import Regex FormattedText.

Lemma takes_not_dollar (c : ascii) :
  c <> "$"%char -> takes false true [CChr "$"] c = true.
Proof.
  intros Hc. unfold takes, class_has. simpl.
  destruct (Ascii.eqb c "$") eqn:E; [apply Ascii.eqb_eq in E; contradiction|].
  reflexivity.
Qed.

Lemma takes_chr (c d : ascii) : takes false false [CChr d] c = Ascii.eqb c d.
Proof. unfold takes, class_has. simpl. rewrite !orb_false_r. reflexivity. Qed.

(** The delimiter pattern, tried at the opening dollar, takes the whole
    text through its last alternative. *)
Lemma delimiter_match_dollar_pair (s : text) :
  s <> [] -> Forall (fun c => c <> "$"%char) s ->
  match_here false delimiterRegex (start ("$"%char :: s ++ ["$"%char]))
  = Some (mkState (S (length s + 1)) (Some "$"%char) []
                  (Some (0, S (length s + 1)))).
Proof.
  intros Hne Hs. destruct s as [|c0 s]; [congruence|].
  inversion Hs as [|? ? Hc0 Hs']; subst.
  unfold match_here, delimiterRegex. simpl Alts. unfold Seqs, Plus.
  change (lit "$$") with ["$"%char; "$"%char].
  change (lit "\[") with ["\"%char; "["%char].
  change (lit "\(") with ["\"%char; "("%char].
  simpl Lit. unfold Chr.
  change (mkState (pos (start ("$"%char :: (c0 :: s) ++ ["$"%char]))) _ _ None)
    with (reached [] ("$"%char :: c0 :: s ++ ["$"%char]) None).
  rewrite m_Group, !m_Alt.
  (* the three bracketed forms fail on the first or second unit *)
  rewrite (m_Seq false (Seq _ _)), (m_Seq false (Set_ false [CChr "$"])).
  rewrite m_class_hit by reflexivity.
  rewrite m_class_miss
    by (rewrite takes_chr; destruct (Ascii.eqb c0 "$") eqn:E;
        [apply Ascii.eqb_eq in E; contradiction|reflexivity]).
  rewrite (m_Seq false (Seq _ _)), (m_Seq false (Set_ false [CChr "\"])).
  rewrite m_class_miss by reflexivity.
  rewrite (m_Seq false (Seq _ _)), (m_Seq false (Set_ false [CChr "\"])).
  rewrite m_class_miss by reflexivity.
  (* the single-dollar form *)
  rewrite (m_Seq false (Set_ false [CChr "$"])).
  rewrite m_class_hit by reflexivity.
  rewrite (m_Seq false (Seq _ _)), (m_Seq false (Set_ true [CChr "$"])).
  rewrite m_class_hit by (apply takes_not_dollar; exact Hc0).
  rewrite m_Star.
  rewrite star_class_greedy.
  - rewrite m_class_hit by reflexivity.
    unfold orelse, reached. simpl.
    change (c0 :: s ++ ["$"%char]) with ((c0 :: s) ++ ["$"%char]).
    rewrite last_snoc, length_app. reflexivity.
  - reflexivity.
  - eapply Forall_impl; [exact Hs'|]. intros c Hc. apply takes_not_dollar, Hc.
  - unfold reached. simpl. rewrite length_app. simpl. lia.
  - rewrite m_class_hit by reflexivity. eexists. reflexivity.
Qed.

Lemma split_loop_S ic r s fuel p stq :
  split_loop ic r s (S fuel) p stq =
  if pos stq <? length s then
    match match_here ic r stq with
    | None => split_loop ic r s fuel p (advance stq)
    | Some e =>
        if pos e =? p then split_loop ic r s fuel p (advance stq)
        else
          Js.slice p (pos stq) s
          :: (if has_group r then [default [] (captured s e)] else [])
          ++ split_loop ic r s fuel (pos e) e
    end
  else [drop p s].
Proof. reflexivity. Qed.

Lemma split_loop_done ic r s fuel p stq :
  length s <= pos stq -> split_loop ic r s fuel p stq = [drop p s].
Proof.
  intros H. destruct fuel as [|fuel]; [reflexivity|].
  rewrite split_loop_S.
  replace (pos stq <? length s) with false
    by (symmetry; apply Nat.ltb_ge; exact H).
  reflexivity.
Qed.

(** The rounds [split] gives to its loop are enough. *)
Lemma split_loop_rounds ic r s :
  forall fuel fuel' p stq,
    pos stq + length (rest stq) = length s ->
    2 * (length s - pos stq) + (if p =? pos stq then 0 else 1) < fuel ->
    2 * (length s - pos stq) + (if p =? pos stq then 0 else 1) < fuel' ->
    split_loop ic r s fuel p stq = split_loop ic r s fuel' p stq.
Proof.
  induction fuel as [|fuel IH]; intros fuel' p stq Hwf Hf Hf'; [lia|].
  destruct fuel' as [|fuel']; [lia|]. rewrite !split_loop_S.
  destruct (pos stq <? length s) eqn:Hq; [|reflexivity].
  apply Nat.ltb_lt in Hq.
  assert (Hadv : pos (advance stq) = S (pos stq)
                 /\ pos (advance stq) + length (rest (advance stq)) = length s).
  { unfold advance. destruct (rest stq) eqn:E; simpl in *; lia. }
  destruct Hadv as [Hadv1 Hadv2].
  assert (Hnext : split_loop ic r s fuel p (advance stq)
                  = split_loop ic r s fuel' p (advance stq)).
  { apply IH; [exact Hadv2| |]; rewrite Hadv1;
      destruct (p =? pos stq), (p =? S (pos stq)); lia. }
  destruct (match_here ic r stq) as [e|] eqn:He; [|exact Hnext].
  destruct (pos e =? p) eqn:Hep; [exact Hnext|].
  apply match_here_ahead in He as [He1 He2]. apply Nat.eqb_neq in Hep.
  rewrite (IH fuel' (pos e) e); [reflexivity|lia| |];
    rewrite Nat.eqb_refl; destruct (p =? pos stq) eqn:Hp;
    try apply Nat.eqb_eq in Hp; lia.
Qed.

Lemma split_rounds ic r (s : text) (extra : nat) :
  s <> [] ->
  split ic r s = split_loop ic r s (2 * length s + 1 + extra) 0 (start s).
Proof.
  intros Hs. unfold split. destruct s as [|c s]; [congruence|].
  apply split_loop_rounds; simpl; lia.
Qed.

Lemma split_dollar_pair (s : text) :
  s <> [] -> Forall (fun c => c <> "$"%char) s ->
  split false delimiterRegex ("$"%char :: s ++ ["$"%char])
  = [[]; "$"%char :: s ++ ["$"%char]; []].
Proof.
  intros Hne Hs. unfold split.
  rewrite Nat.add_1_r, split_loop_S.
  rewrite delimiter_match_dollar_pair by assumption.
  cbn [pos start Nat.ltb Nat.leb length Nat.eqb has_group delimiterRegex].
  rewrite split_loop_done by (simpl; rewrite length_app; simpl; lia).
  unfold captured, Js.slice. cbn [cap default].
  rewrite Nat.sub_0_r. cbn [drop take app].
  replace (length s + 1) with (length (s ++ ["$"%char]))
    by (rewrite length_app; reflexivity).
  rewrite drop_all.
  change (S (length (s ++ ["$"%char]))) with (length ("$"%char :: s ++ ["$"%char])).
  rewrite Nat.sub_0_r, firstn_all. reflexivity.
Qed.

Lemma slice_inner (a b : ascii) (s : text) :
  Js.slice_back 1 1 (a :: s ++ [b]) = s.
Proof.
  unfold Js.slice_back, Js.slice. simpl.
  rewrite length_app. simpl.
  replace (length s + 1 - 0 - 1) with (length s) by lia.
  apply take_app_length.
Qed.

End DollarPair.

(** C6.  For a non-empty [s] without a dollar sign, the text made of a
    dollar, [s] and a dollar renders as exactly one math element, whose
    content is [s] (the outer pair is stripped, nothing else), in inline
    mode and not as a guess; the engine is called once, with [s]. *)
Theorem dollar_pair_is_one_inline_math (s : text) :
  s <> [] ->
  Forall (fun c => c <> "$"%char) s ->
  FormattedText.FormattedText (lit "$" ++ s ++ lit "$")
  = Some [FormattedText.ESpan []; FormattedText.EMath s false false;
          FormattedText.ESpan []]
  /\ option_map FormattedText.engine_calls
       (FormattedText.FormattedText (lit "$" ++ s ++ lit "$"))
     = Some [(s, false)]
  /\ (forall renderToString,
        option_map (map (FormattedText.render (Some renderToString)))
          (FormattedText.FormattedText (lit "$" ++ s ++ lit "$"))
        = Some [PlainSpan [];
                match renderToString s false with
                | inl html => Typeset html false
                | inr _ => ErrorCode s
                end;
                PlainSpan []]).
Proof.
  intros Hne Hs.
  assert (H : FormattedText.FormattedText (lit "$" ++ s ++ lit "$")
    = Some [FormattedText.ESpan []; FormattedText.EMath s false false;
            FormattedText.ESpan []]).
  { change (lit "$" ++ s ++ lit "$") with ("$"%char :: s ++ ["$"%char]).
    unfold FormattedText.FormattedText.
    rewrite split_dollar_pair by assumption.
    cbn [flat_map]. f_equal.
    change (FormattedText.explicit_part []) with [FormattedText.ESpan []].
    cbn [app]. f_equal.
    destruct s as [|c0 s]; [congruence|].
    inversion Hs as [|? ? Hc0 _]; subst.
    unfold FormattedText.explicit_part.
    assert (E0 : Ascii.eqb "$" c0 = false).
    { destruct (Ascii.eqb "$" c0) eqn:E; [|reflexivity].
      apply Ascii.eqb_eq in E. congruence. }
    assert (E : Js.startsWith (lit "$$") ("$"%char :: (c0 :: s) ++ ["$"%char]) = false).
    { change (lit "$$") with ["$"%char; "$"%char].
      cbn [Js.startsWith app]. rewrite E0. reflexivity. }
    rewrite E.
    change (Js.startsWith (lit "\[") ("$"%char :: (c0 :: s) ++ ["$"%char])) with false.
    change (Js.startsWith (lit "\(") ("$"%char :: (c0 :: s) ++ ["$"%char])) with false.
    change (Js.startsWith (lit "$") ("$"%char :: (c0 :: s) ++ ["$"%char])) with true.
    cbn [orb].
    rewrite slice_inner. reflexivity. }
  rewrite H. split; [reflexivity|]. split; [reflexivity|].
  intros renderToString. reflexivity.
Qed.

Lemma dollar_pair_is_one_inline_math_witness :
  FormattedText.FormattedText (lit "$x+1$")
  = Some [FormattedText.ESpan []; FormattedText.EMath (lit "x+1") false false;
          FormattedText.ESpan []].
Proof.
  refine (proj1 (dollar_pair_is_one_inline_math (lit "x+1") _ _)).
  - discriminate.
  - repeat constructor; discriminate.
Defined.

(* ===================================================================== *)
(** * Properties of the service calls *)
(* ===================================================================== *)

Lemma get_insert_eq (o : jsobj) (k : string) (v : jsval) :
  Value.get (<[ k := v ]> o) k = v.
Proof. unfold Value.get. rewrite lookup_insert_eq. reflexivity. Qed.

Lemma get_insert_ne (o : jsobj) (k k' : string) (v : jsval) :
  k <> k' -> Value.get (<[ k := v ]> o) k' = Value.get o k'.
Proof. intros H. unfold Value.get. rewrite lookup_insert_ne by exact H. reflexivity. Qed.

Section CallFacts.
Import Service.
Context (JSON_parse : text -> JsError + jsval).
Context (randomUUID : nat -> text).

Lemma extract_op_resolved base64Data mimeType w q w' :
  extract_op JSON_parse randomUUID base64Data mimeType w = (Resolved q, w') ->
  exists t data,
    JSON_parse t = inr data
    /\ q = Value.spread data ∪ {[ "id" := VStr (randomUUID (uuids w)) ]}
    /\ uuids w' = S (uuids w).
Proof.
  unfold extract_op, generateContent.
  destruct (gemini w _) as [response|e]; [|discriminate].
  destruct (text_of response) as [t|]; [|discriminate].
  destruct (JSON_parse t) as [e|data] eqn:Hp; [discriminate|].
  intros [= <- <-]. exists t, data. auto.
Qed.

Lemma extract_op_rejected base64Data mimeType w e w' :
  extract_op JSON_parse randomUUID base64Data mimeType w = (Rejected e, w') ->
  uuids w' = uuids w.
Proof.
  unfold extract_op, generateContent.
  destruct (gemini w _) as [response|e0]; [|intros [= <- <-]; reflexivity].
  destruct (text_of response) as [t|]; [|intros [= <- <-]; reflexivity].
  destruct (JSON_parse t) as [e1|data]; [intros [= <- <-]; reflexivity|discriminate].
Qed.

(** Attempts that fail hand out no id. *)
Lemma extract_failures_keep_uuids base64Data mimeType n :
  forall w,
    (forall k, k < n -> exists e,
        fst (nth_call (extract_op JSON_parse randomUUID base64Data mimeType) w k)
        = Rejected e /\ retriable e = true) ->
    uuids (world_before (extract_op JSON_parse randomUUID base64Data mimeType) w n)
    = uuids w.
Proof.
  induction n as [|n IH]; intros w Hfail; [reflexivity|].
  simpl. destruct (Hfail 0) as (e & He & _); [lia|].
  unfold nth_call in He. simpl in He.
  destruct (extract_op JSON_parse randomUUID base64Data mimeType w) as [r w'] eqn:Hop.
  simpl in He. subst r. simpl.
  rewrite IH.
  - eapply extract_op_rejected. exact Hop.
  - intros k Hk. destruct (Hfail (S k)) as (e' & He' & Hr'); [lia|].
    exists e'. unfold nth_call in *. simpl in He'. rewrite Hop in He'. auto.
Qed.

Lemma extraction_resolved base64Data mimeType w q :
  result_of (extractQuestionFromImage JSON_parse randomUUID base64Data mimeType w)
  = Resolved q ->
  exists t data,
    JSON_parse t = inr data
    /\ q = Value.spread data ∪ {[ "id" := VStr (randomUUID (uuids w)) ]}
    /\ uuids (world_of (extractQuestionFromImage JSON_parse randomUUID
                          base64Data mimeType w)) = S (uuids w).
Proof.
  intros H. apply withRetry_resolved in H. destruct H as (n & Hfail & Hok).
  unfold nth_call in Hok. apply extract_op_resolved in Hok.
  destruct Hok as (t & data & Hp & Hq & Hw).
  rewrite (extract_failures_keep_uuids _ _ n w Hfail) in Hq, Hw.
  exists t, data. auto.
Qed.

Lemma grade_op_parsed latexSource context w response t parsed :
  gemini w (requests w ++ [ReqGrade latexSource context]) = Resolved response ->
  text_of response = Some t ->
  JSON_parse t = inr parsed ->
  fst (grade_op JSON_parse latexSource context w) = Resolved parsed.
Proof.
  intros Hg Ht Hp. unfold grade_op, generateContent.
  rewrite Hg, Ht, Hp. reflexivity.
Qed.

(** A resolved extraction is the answer of the service, read and
    parsed. *)
Lemma extract_op_answer base64Data mimeType w q w' :
  extract_op JSON_parse randomUUID base64Data mimeType w = (Resolved q, w') ->
  exists response t data,
    gemini w (requests w ++ [ReqExtract base64Data mimeType]) = Resolved response
    /\ text_of response = Some t
    /\ JSON_parse t = inr data
    /\ q = Value.spread data ∪ {[ "id" := VStr (randomUUID (uuids w)) ]}.
Proof.
  unfold extract_op, generateContent.
  destruct (gemini w _) as [response|e] eqn:Hg; [|discriminate].
  destruct (text_of response) as [t|] eqn:Ht; [|discriminate].
  destruct (JSON_parse t) as [e|data] eqn:Hp; [discriminate|].
  intros [= <- <-]. exists response, t, data. auto.
Qed.

(** The three ways a grading attempt fails. *)
Lemma grade_op_rejected latexSource context w last w' :
  grade_op JSON_parse latexSource context w = (Rejected last, w') ->
  gemini w (requests w ++ [ReqGrade latexSource context]) = Rejected last
  \/ (exists response,
        gemini w (requests w ++ [ReqGrade latexSource context]) = Resolved response
        /\ text_of response = None
        /\ last = Error (lit "Empty response from grading model"))
  \/ (exists response t,
        gemini w (requests w ++ [ReqGrade latexSource context]) = Resolved response
        /\ text_of response = Some t
        /\ JSON_parse t = inl last).
Proof.
  unfold grade_op, generateContent.
  destruct (gemini w _) as [response|e] eqn:Hg; [|intros [= <- _]; left; reflexivity].
  destruct (text_of response) as [t|] eqn:Ht.
  - destruct (JSON_parse t) as [e|parsed] eqn:Hp; [|discriminate].
    intros [= <- _]. right. right. exists response, t. auto.
  - intros [= <- _]. right. left. exists response. auto.
Qed.

Lemma grade_op_answer latexSource context w parsed w' :
  grade_op JSON_parse latexSource context w = (Resolved parsed, w') ->
  exists response t,
    gemini w (requests w ++ [ReqGrade latexSource context]) = Resolved response
    /\ text_of response = Some t
    /\ JSON_parse t = inr parsed.
Proof.
  unfold grade_op, generateContent.
  destruct (gemini w _) as [response|e] eqn:Hg; [|discriminate].
  destruct (text_of response) as [t|] eqn:Ht; [|discriminate].
  destruct (JSON_parse t) as [e|v] eqn:Hp; [discriminate|].
  intros [= <- _]. exists response, t. auto.
Qed.

End CallFacts.

(** C2 as stated fails: for the object of the scenario (no totalMarks) the
    extraction returns a context without totalMarks, not with 10, and the
    question form then keeps the marks it had (100 here).  And an object
    that brings an id of its own keeps that id instead of the generated
    one. *)
Lemma extraction_substitutes_no_default :
  let extract data :=
    Service.extractQuestionFromImage (Sample.parse_to (VObj data)) Sample.uuid_of
      (lit "AAAA") (lit "image/png") (Sample.answering (lit "{}")) in
  Service.result_of (extract Sample.extracted_without_marks)
    = Service.Resolved (<[ "id" := VStr (lit "id-") ]> Sample.extracted_without_marks)
  /\ Value.get (<[ "id" := VStr (lit "id-") ]> Sample.extracted_without_marks) "totalMarks"
     = VUndef
  /\ Value.get (<[ "id" := VStr (lit "id-") ]> Sample.extracted_without_marks) "totalMarks"
     <> VNum 10
  /\ match fst (QuestionSetup.handleScanQuestion
                  (Sample.parse_to (VObj Sample.extracted_without_marks)) Sample.uuid_of
                  Sample.question (lit "image/png") (lit "q.png") (lit "AAAA")
                  (Sample.answering (lit "{}"))) with
     | QuestionSetup.Updated q => Value.get q "totalMarks" = VNum 100
     | _ => False
     end
  /\ Service.result_of (extract Sample.extracted_with_id)
     = Service.Resolved Sample.extracted_with_id
  /\ Value.get Sample.extracted_with_id "id" <> VStr (Sample.uuid_of 0).
Proof.
  cbv zeta. split; [vm_compute; reflexivity|].
  split; [vm_compute; reflexivity|].
  split; [vm_compute; discriminate|].
  split; [vm_compute; reflexivity|].
  split; [vm_compute; reflexivity|].
  vm_compute; discriminate.
Qed.

(** C2, amended.  A question extraction that succeeds returns the object
    parsed from the text the service answered, at the first attempt that
    was not a retriable failure, with a generated id written first: no
    default is substituted, so a missing totalMarks stays missing (and the
    question form then keeps the marks it had); the description is the one
    provided; and when the parsed object has no id of its own, the id is
    the one just generated, distinct from every id handed out before as
    long as the generator does not repeat itself. *)
Theorem extraction_keeps_fields_adds_id
    (JSON_parse : text -> Service.JsError + jsval) (randomUUID : nat -> text)
    (base64Data mimeType : text) (w : Service.World) (q : jsobj) :
  let op := Service.extract_op JSON_parse randomUUID base64Data mimeType in
  Service.result_of
    (Service.extractQuestionFromImage JSON_parse randomUUID base64Data mimeType w)
  = Service.Resolved q ->
  exists n response t data,
    n <= 3
    /\ (forall k, k < n -> exists e,
          fst (Service.nth_call op w k) = Service.Rejected e
          /\ Service.retriable e = true)
    /\ Service.gemini (Service.world_before op w n)
         (Service.requests (Service.world_before op w n)
          ++ [Service.ReqExtract base64Data mimeType])
       = Service.Resolved response
    /\ Service.text_of response = Some t
    /\ JSON_parse t = inr data
    /\ q = Value.spread data ∪ {[ "id" := VStr (randomUUID (Service.uuids w)) ]}
    /\ (Value.spread data !! "totalMarks" = None -> Value.get q "totalMarks" = VUndef)
    /\ Value.get q "description" = Value.get (Value.spread data) "description"
    /\ (Value.spread data !! "id" = None ->
        Value.get q "id" = VStr (randomUUID (Service.uuids w))
        /\ ((forall i j, randomUUID i = randomUUID j -> i = j) ->
            forall i, i < Service.uuids w ->
              randomUUID i <> randomUUID (Service.uuids w)))
    /\ (forall question fileName,
          Js.startsWith (lit "image/") mimeType = true
          \/ mimeType = lit "application/pdf" ->
          exists q',
            fst (QuestionSetup.handleScanQuestion JSON_parse randomUUID question
                   mimeType fileName base64Data w) = QuestionSetup.Updated q'
            /\ Value.get q' "totalMarks"
               = Value.or (Value.get q "totalMarks") (Value.get question "totalMarks")
            /\ Value.get q' "description"
               = Value.or (Value.get q "description") (Value.get question "description")).
Proof.
  intros op Hres. subst op.
  destruct (withRetry_resolved_log _ (lit "extract question details") w q Hres)
    as (n & Hn & Hfail & Hok & _).
  unfold Service.nth_call in Hok.
  destruct (extract_op_answer JSON_parse randomUUID base64Data mimeType _ _ _ Hok)
    as (response & t & data & Hg & Ht & Hp & Hq).
  rewrite (extract_failures_keep_uuids JSON_parse randomUUID _ _ n w Hfail) in Hq.
  exists n, response, t, data.
  split; [exact Hn|]. split; [exact Hfail|]. split; [exact Hg|].
  split; [exact Ht|]. split; [exact Hp|]. split; [exact Hq|].
  assert (Hlook : forall k, k <> "id" -> q !! k = Value.spread data !! k).
  { intros k Hk. rewrite Hq. rewrite lookup_union, lookup_singleton_ne by congruence.
    destruct (Value.spread data !! k); reflexivity. }
  split; [|split; [|split]].
  - intros Hnone. unfold Value.get. rewrite Hlook by discriminate.
    rewrite Hnone. reflexivity.
  - unfold Value.get. rewrite Hlook by discriminate. reflexivity.
  - intros Hnone. split.
    + unfold Value.get. rewrite Hq, lookup_union_r by exact Hnone.
      rewrite lookup_singleton_eq. reflexivity.
    + intros Hinj i Hi Heq. apply Hinj in Heq. lia.
  - intros question fileName Himg.
    unfold QuestionSetup.handleScanQuestion.
    replace (negb (Js.startsWith (lit "image/") mimeType)
             && negb (bool_decide (mimeType = lit "application/pdf"))) with false
      by (destruct Himg as [-> | ->]; [reflexivity|];
          rewrite bool_decide_eq_true_2 by reflexivity; rewrite andb_false_r; reflexivity).
    unfold Service.result_of in Hres.
    destruct (Service.extractQuestionFromImage JSON_parse randomUUID base64Data mimeType w)
      as [[r w'] l].
    simpl in Hres. subst r. eexists. split; [reflexivity|].
    split.
    + rewrite get_insert_eq, !get_insert_ne by discriminate. reflexivity.
    + rewrite get_insert_ne, get_insert_eq, !get_insert_ne by discriminate.
      reflexivity.
Qed.

Lemma extraction_keeps_fields_adds_id_witness :
  exists response t data,
    Service.text_of response = Some t
    /\ t = lit "{ title: , description: X }"
    /\ Sample.parse_only (lit "{ title: , description: X }")
         (VObj Sample.extracted_without_marks) t = inr data
    /\ <[ "id" := VStr (lit "id-") ]> Sample.extracted_without_marks
       = Value.spread data ∪ {[ "id" := VStr (Sample.uuid_of 0) ]}.
Proof.
  destruct (extraction_keeps_fields_adds_id
              (Sample.parse_only (lit "{ title: , description: X }")
                 (VObj Sample.extracted_without_marks))
              Sample.uuid_of (lit "AAAA") (lit "image/png")
              (Sample.answering (lit "{ title: , description: X }"))
              (<[ "id" := VStr (lit "id-") ]> Sample.extracted_without_marks))
    as (n & response & t & data & _ & _ & _ & Ht & Hp & Hq & _).
  - vm_compute. reflexivity.
  - exists response, t, data.
    split; [exact Ht|]. split; [|split; [exact Hp|exact Hq]].
    revert Hp. unfold Sample.parse_only.
    destruct (bool_decide_reflect (t = lit "{ title: , description: X }")) as [H|H];
      [intros _; exact H|discriminate].
Defined.

(** C3 as stated fails: an answer that parses but has no mistakeTypes is
    returned as the grading result after a single invocation, with the field
    absent; the call does not fail. *)
Lemma grading_accepts_missing_mistakeTypes :
  let r := Service.gradeLatexSubmission
             (Sample.parse_to (VObj Sample.grading_without_types))
             (lit "x = 1") Sample.question (Sample.answering (lit "{}")) in
  Service.result_of r = Service.Resolved (VObj Sample.grading_without_types)
  /\ Sample.grading_without_types !! "mistakeTypes" = None
  /\ Service.invocations (Service.log_of r) = 1
  /\ forall e, Service.result_of r <> Service.Rejected e.
Proof.
  cbv zeta.
  assert (H : Service.result_of
                (Service.gradeLatexSubmission
                   (Sample.parse_to (VObj Sample.grading_without_types))
                   (lit "x = 1") Sample.question (Sample.answering (lit "{}")))
              = Service.Resolved (VObj Sample.grading_without_types))
    by (vm_compute; reflexivity).
  split; [exact H|]. split; [vm_compute; reflexivity|].
  split; [vm_compute; reflexivity|].
  intros e. rewrite H. discriminate.
Qed.

(** C3, amended.  A grading call returns what [JSON.parse] makes of the
    text the service answered, possibly after retriable failures, as it
    is: an object without mistakeTypes is returned with the field left
    absent, neither checked nor given a default.  The call fails only
    when the service call fails, when the answer has no text, or when
    [JSON.parse] throws. *)
Theorem grading_returns_parsed_answer
    (JSON_parse : text -> Service.JsError + jsval)
    (latexSource : text) (context : jsobj) (w : Service.World) :
  let op := Service.grade_op JSON_parse latexSource context in
  let answer n :=
    Service.gemini (Service.world_before op w n)
      (Service.requests (Service.world_before op w n)
       ++ [Service.ReqGrade latexSource context]) in
  let r := Service.gradeLatexSubmission JSON_parse latexSource context w in
  (forall n response t parsed,
      n <= 3 ->
      (forall k, k < n -> exists e,
          fst (Service.nth_call op w k) = Service.Rejected e
          /\ Service.retriable e = true) ->
      answer n = Service.Resolved response ->
      Service.text_of response = Some t ->
      JSON_parse t = inr parsed ->
      Service.result_of r = Service.Resolved parsed
      /\ Service.invocations (Service.log_of r) = n + 1
      /\ forall o, parsed = VObj o -> o !! "mistakeTypes" = None ->
           Service.result_of r = Service.Resolved (VObj o)
           /\ Value.get o "mistakeTypes" = VUndef)
  /\ (forall parsed,
      Service.result_of r = Service.Resolved parsed ->
      exists n response t,
        n <= 3
        /\ answer n = Service.Resolved response
        /\ Service.text_of response = Some t
        /\ JSON_parse t = inr parsed)
  /\ (forall e,
      Service.result_of r = Service.Rejected e ->
      exists n last,
        n <= 3
        /\ e = Service.final_error (lit "grade submission") (Some last)
        /\ (answer n = Service.Rejected last
            \/ (exists response,
                  answer n = Service.Resolved response
                  /\ Service.text_of response = None
                  /\ last = Service.Error (lit "Empty response from grading model"))
            \/ (exists response t,
                  answer n = Service.Resolved response
                  /\ Service.text_of response = Some t
                  /\ JSON_parse t = inl last))).
Proof.
  intros op answer r. subst r. unfold Service.gradeLatexSubmission. fold op.
  split; [|split].
  - intros n response t parsed Hn Hfail Hg Ht Hp.
    rewrite (withRetry_recovers op _ w parsed n Hn Hfail).
    + unfold Service.result_of, Service.log_of. simpl.
      split; [reflexivity|]. split; [lia|].
      intros o -> Hnone. unfold Value.get. rewrite Hnone. auto.
    + unfold Service.nth_call. eapply grade_op_parsed; eassumption.
  - intros parsed Hres.
    destruct (withRetry_resolved_log op _ w parsed Hres) as (n & Hn & _ & Hok & _).
    unfold Service.nth_call in Hok.
    destruct (grade_op_answer JSON_parse _ _ _ _ _ Hok) as (response & t & H).
    exists n, response, t. split; [exact Hn|exact H].
  - intros e Hrej.
    destruct (withRetry_rejected op _ w e Hrej) as (n & last & Hn & _ & Hcall & _ & He & _).
    unfold Service.nth_call in Hcall.
    exists n, last. split; [exact Hn|]. split; [exact He|].
    eapply grade_op_rejected. exact Hcall.
Qed.

Lemma grading_returns_parsed_answer_witness :
  (Service.result_of
     (Service.gradeLatexSubmission
        (Sample.parse_only (lit "{ score: 7 }") (VObj Sample.grading_without_types))
        (lit "x = 1") Sample.question (Sample.answering (lit "{ score: 7 }")))
   = Service.Resolved (VObj Sample.grading_without_types)
   /\ Value.get Sample.grading_without_types "mistakeTypes" = VUndef)
  /\ exists n last,
       n <= 3
       /\ Service.Error
            (lit "Failed to grade submission: Empty response from grading model")
          = Service.final_error (lit "grade submission") (Some last).
Proof.
  split.
  - destruct (proj1 (grading_returns_parsed_answer
                       (Sample.parse_only (lit "{ score: 7 }")
                          (VObj Sample.grading_without_types))
                       (lit "x = 1") Sample.question
                       (Sample.answering (lit "{ score: 7 }")))
                0 (Service.mkResponse (Some (lit "{ score: 7 }"))) (lit "{ score: 7 }")
                (VObj Sample.grading_without_types)) as (_ & _ & H).
    + lia.
    + intros k Hk. lia.
    + reflexivity.
    + reflexivity.
    + reflexivity.
    + apply (H Sample.grading_without_types); [reflexivity|].
      vm_compute. reflexivity.
  - destruct (proj2 (proj2 (grading_returns_parsed_answer Sample.no_json
                              (lit "x = 1") Sample.question Sample.speechless))
                (Service.Error
                   (lit "Failed to grade submission: Empty response from grading model")))
      as (n & last & Hn & He & _).
    + vm_compute. reflexivity.
    + exists n, last. split; [exact Hn | exact He].
Defined.

(* ===================================================================== *)
(** * Failures of the math engine *)
(* ===================================================================== *)

Section FailureFacts.
Import FormattedText.

(** Every math element made by the heuristic pass is an inline guess. *)
Lemma implicit_math_is_fallback (content c : text) (d f : bool) :
  In (EMath c d f) (TextWithImplicitMath content) -> d = false /\ f = true.
Proof.
  unfold TextWithImplicitMath. rewrite in_flat_map.
  intros (piece & _ & Hin). unfold implicit_piece in Hin.
  destruct (Js.trim piece); [destruct Hin as [H|[]]; discriminate|].
  destruct (_ && _).
  - destruct Hin as [H|[H|[]]]; [|discriminate].
    injection H as _ <- <-. auto.
  - destruct Hin as [H|[]]; discriminate.
Qed.

End FailureFacts.

(** C7 as stated fails for explicit delimiters in [FormattedText]: when the
    engine rejects the source, the element is shown in the error colours
    with the source alone; the reason is not displayed, and a failure due to
    quirks mode looks like any other. *)
Lemma explicit_failure_shows_source_only :
  FormattedText.FormattedText (lit "$x^$")
  = Some [FormattedText.ESpan []; FormattedText.EMath (lit "x^") false false;
          FormattedText.ESpan []]
  /\ Sample.failing (lit "x^") false = inr (lit "KaTeX parse error: Expected EOF")
  /\ FormattedText.render (Some Sample.failing)
       (FormattedText.EMath (lit "x^") false false) = ErrorCode (lit "x^")
  /\ ~ In (lit "KaTeX parse error: Expected EOF")
          (shows (FormattedText.render (Some Sample.failing)
                    (FormattedText.EMath (lit "x^") false false)))
  /\ FormattedText.render (Some Sample.quirky)
       (FormattedText.EMath (lit "x^") false false)
     = FormattedText.render (Some Sample.failing)
         (FormattedText.EMath (lit "x^") false false).
Proof.
  split; [vm_compute; reflexivity|].
  split; [reflexivity|]. split; [reflexivity|].
  split; [|reflexivity].
  vm_compute. intros [H|[]]. discriminate.
Qed.

(** C7, amended.  When the engine rejects a source: in [FormattedText] a
    heuristic guess is shown as its literal text and an explicitly delimited
    source in the error colours, the source alone; in the document preview
    the part is shown in an error box with its source and the reason, or,
    when the reason mentions quirks mode, with a browser-compatibility title
    and a note about the DOCTYPE declaration in place of the reason.  Every
    math element of the heuristic pass is such a guess. *)
Theorem math_failure_display
    (engine : katex_engine) (content : text) (displayMode : bool) (reason : text) :
  engine content displayMode = inr reason ->
  FormattedText.MathRenderer (Some engine) content displayMode true = PlainSpan content
  /\ FormattedText.MathRenderer (Some engine) content displayMode false = ErrorCode content
  /\ shows (ErrorCode content) = [content]
  /\ (forall part,
        LatexPreview.strip_delimiters part = content ->
        reason <> [] ->
        LatexPreview.MathBlock (Some engine) part displayMode
        = (if Js.includes (lit "quirks mode") reason
           then ErrorBox (lit "Browser Compatibility Error")
                         (Some LatexPreview.quirks_note) part None
           else ErrorBox (lit "Rendering Error") None part (Some reason)))
  /\ (forall text c d f,
        In (FormattedText.EMath c d f) (FormattedText.TextWithImplicitMath text) ->
        d = false /\ f = true).
Proof.
  intros Hfail. unfold FormattedText.MathRenderer. rewrite Hfail.
  split; [reflexivity|]. split; [reflexivity|]. split; [reflexivity|].
  split.
  - intros part Hstrip Hreason.
    unfold LatexPreview.MathBlock, LatexPreview.MathBlock_effect.
    rewrite Hstrip, Hfail. destruct reason as [|c t]; [congruence|].
    unfold LatexPreview.MathBlock_view.
    destruct (Js.includes (lit "quirks mode") (c :: t)); reflexivity.
  - intros text c d f. apply implicit_math_is_fallback.
Qed.

Lemma math_failure_display_witness :
  FormattedText.MathRenderer (Some Sample.failing) (lit "x^") false true
    = PlainSpan (lit "x^")
  /\ FormattedText.MathRenderer (Some Sample.failing) (lit "x^") false false
    = ErrorCode (lit "x^")
  /\ LatexPreview.MathBlock (Some Sample.failing) (lit "$x^$") false
    = ErrorBox (lit "Rendering Error") None (lit "$x^$")
               (Some (lit "KaTeX parse error: Expected EOF")).
Proof.
  destruct (math_failure_display Sample.failing (lit "x^") false
              (lit "KaTeX parse error: Expected EOF")) as (H1 & H2 & _ & H4 & _).
  - reflexivity.
  - split; [exact H1|]. split; [exact H2|].
    apply (H4 (lit "$x^$")); [vm_compute; reflexivity | discriminate].
Defined.

(* ===================================================================== *)
(** * The document body shown in the preview *)
(* ===================================================================== *)

(** C5 holds except for an empty body.  On a document that is only the pair
    of markers the pattern matches with an empty group, the code takes the
    empty group for a failed match and returns the whole text, markers
    included, and the preview hands the markers to the engine as display
    math instead of showing its note for an empty document.  The sibling
    path taken when a document class is present, and the same input with a
    blank between the markers, both give the empty text the claim asks
    for. *)
Theorem getRenderableContent_empty_body :
  option_map Regex.cap
    (Regex.exec true LatexPreview.bodyRegex (lit "\begin{document}\end{document}"))
  = Some (Some (16, 16))
  /\ LatexPreview.document_body (lit "\begin{document}\end{document}") = None
  /\ LatexPreview.getRenderableContent (lit "\begin{document}\end{document}")
     = lit "\begin{document}\end{document}"
  /\ LatexPreview.getRenderableContent (lit "\begin{document}\end{document}") <> []
  /\ LatexPreview.LatexPreview (Some Sample.failing) (lit "\begin{document}\end{document}")
     = [ErrorBox (lit "Rendering Error") None (lit "\begin{document}\end{document}")
                 (Some (lit "KaTeX parse error: Expected EOF"))]
  /\ LatexPreview.getRenderableContent
       (lit "\documentclass{article}\begin{document}\end{document}") = []
  /\ LatexPreview.getRenderableContent (lit "\begin{document} \end{document}") = []
  /\ LatexPreview.LatexPreview (Some Sample.failing) (lit "\begin{document} \end{document}")
     = [Placeholder].
Proof.
  repeat split; try (vm_compute; reflexivity).
  vm_compute. discriminate.
Qed.

(** ** The body of a document, when it is not empty *)

Section DocumentBody.
Import Regex LatexPreview.

Lemma orelse_None_r {A} (x : option A) : orelse x None = x.
Proof. destruct x; reflexivity. Qed.

Lemma takes_any ic c : takes ic false [CSpace; CNonSpace] c = true.
Proof.
  unfold takes, class_has. cbn [existsb item_has xorb].
  destruct (Js.is_space c); cbn [negb orb]; [reflexivity|].
  rewrite orb_true_r. reflexivity.
Qed.

Lemma takes_self ic c : takes ic false [CChr c] c = true.
Proof.
  unfold takes, class_has. cbn [existsb item_has xorb].
  rewrite Ascii.eqb_refl. reflexivity.
Qed.

(** A literal reads itself. *)
Lemma m_Lit_hit ic t :
  forall pre post cp k,
    m ic (Lit t) (reached pre (t ++ post) cp) k = k (reached (pre ++ t) post cp).
Proof.
  induction t as [|c t IH]; intros pre post cp k.
  - simpl. rewrite app_nil_r. reflexivity.
  - destruct t as [|c' t].
    + apply m_class_hit, takes_self.
    + change (Lit (c :: c' :: t)) with (Seq (Chr c) (Lit (c' :: t))).
      rewrite m_Seq. unfold Chr.
      change ((c :: c' :: t) ++ post) with (c :: (c' :: t) ++ post).
      rewrite m_class_hit by apply takes_self.
      rewrite IH, <- app_assoc. reflexivity.
Qed.

(** A star over a class stops at once before a unit the class refuses. *)
Lemma star_class_none ic neg items g n pre post cp k :
  match post with
  | [] => True
  | c :: _ => takes ic neg items c = false
  end ->
  star_loop (m ic (Set_ neg items)) g (S n) (reached pre post cp) k
  = k (reached pre post cp).
Proof.
  intros Hpost. rewrite star_loop_S.
  destruct post as [|c post].
  - rewrite m_class_end. destruct g; [reflexivity|apply orelse_None_r].
  - rewrite m_class_miss by exact Hpost.
    destruct g; [reflexivity|apply orelse_None_r].
Qed.

(** A lazy star over any unit followed by [k] stops at the first position
    where [k] succeeds. *)
Lemma star_any_lazy ic k post cp :
  forall run pre n,
    length run < n ->
    (forall j, j < length run ->
       k (reached (pre ++ take j run) (drop j run ++ post) cp) = None) ->
    is_Some (k (reached (pre ++ run) post cp)) ->
    star_loop (m ic Any) false n (reached pre (run ++ post) cp) k
    = k (reached (pre ++ run) post cp).
Proof.
  induction run as [|c run IH]; intros pre n Hn Hfail [x Hx];
    (destruct n as [|n]; [simpl in Hn; lia|]); rewrite star_loop_S.
  - rewrite app_nil_r in *. simpl app. rewrite Hx. reflexivity.
  - pose proof (Hfail 0 ltac:(simpl; lia)) as H0.
    simpl in H0. rewrite app_nil_r in H0. simpl app. rewrite H0.
    unfold Any. rewrite m_class_hit by apply takes_any.
    replace (pos (reached pre (c :: run ++ post) cp)
             <? pos (reached (pre ++ [c]) (run ++ post) cp)) with true
      by (symmetry; apply Nat.ltb_lt; simpl; rewrite length_app; simpl; lia).
    simpl orelse.
    replace (pre ++ c :: run) with ((pre ++ [c]) ++ run) in *
      by (rewrite <- app_assoc; reflexivity).
    apply IH.
    + simpl in Hn. lia.
    + intros j Hj. specialize (Hfail (S j) ltac:(simpl; lia)).
      simpl in Hfail. rewrite <- app_assoc. exact Hfail.
    + exists x. exact Hx.
Qed.

Lemma begin_marker pre post cp k :
  m true beginDocument (reached pre (lit "\begin{document}" ++ post) cp) k
  = k (reached (pre ++ lit "\begin{document}") post cp).
Proof.
  unfold beginDocument. cbn [Seqs]. rewrite m_Seq.
  change (lit "\begin{document}") with (lit "\begin" ++ lit "{document}").
  rewrite <- !app_assoc, m_Lit_hit. cbv beta. rewrite m_Seq, m_Star.
  unfold ws. rewrite star_class_none by reflexivity.
  rewrite m_Lit_hit, <- app_assoc. reflexivity.
Qed.

Lemma end_marker pre post cp k :
  m true endDocument (reached pre (lit "\end{document}" ++ post) cp) k
  = k (reached (pre ++ lit "\end{document}") post cp).
Proof.
  unfold endDocument. cbn [Seqs]. rewrite m_Seq.
  change (lit "\end{document}") with (lit "\end" ++ lit "{document}").
  rewrite <- !app_assoc, m_Lit_hit. cbv beta. rewrite m_Seq, m_Star.
  unfold ws. rewrite star_class_none by reflexivity.
  rewrite m_Lit_hit, <- app_assoc. reflexivity.
Qed.

Lemma matches_at_false ic r s i k :
  matches_at ic r s i = false ->
  m ic r (reached (take i s) (drop i s) None) k = None.
Proof.
  unfold matches_at, match_here. intros H. apply m_None_any.
  change (mkState (pos (reached (take i s) (drop i s) None))
                  (prev (reached (take i s) (drop i s) None))
                  (rest (reached (take i s) (drop i s) None)) None)
    with (reached (take i s) (drop i s) None) in H.
  destruct (m ic r _ Some); [discriminate|reflexivity].
Qed.

(** The search passes over the positions where the pattern does not
    match. *)
Lemma search_skip ic r s i :
  forall n,
    i <= length s -> i <= n ->
    (forall j, j < i -> matches_at ic r s j = false) ->
    search ic r n (start s)
    = search ic r (n - i) (reached (take i s) (drop i s) None).
Proof.
  induction i as [|i IH]; intros n Hi Hn Hfail.
  - rewrite Nat.sub_0_r. reflexivity.
  - rewrite IH by (try lia; intros j Hj; apply Hfail; lia).
    destruct (lookup_lt_is_Some_2 s i ltac:(lia)) as [c Hc].
    rewrite (drop_S s c i Hc), (take_S_r s i c Hc).
    destruct (n - i) as [|n'] eqn:Hn'; [lia|].
    replace (n - S i) with n' by lia.
    cbn [search].
    pose proof (Hfail i ltac:(lia)) as Hm. unfold matches_at in Hm.
    rewrite (drop_S s c i Hc) in Hm.
    destruct (match_here ic r (reached (take i s) (c :: drop (S i) s) None));
      [discriminate|].
    cbn [rest reached]. rewrite advance_reached. reflexivity.
Qed.

Lemma search_hit ic r n st e :
  match_here ic r st = Some e -> search ic r n st = Some e.
Proof. intros H. destruct n; simpl; rewrite H; reflexivity. Qed.

(** The body pattern, tried at a begin marker that is followed by [body]
    and an end marker, no end marker starting inside [body]. *)
Lemma body_match (pre body post : text) :
  let s := pre ++ lit "\begin{document}" ++ body ++ lit "\end{document}" ++ post in
  (forall j, j < length body ->
     matches_at true endDocument s (length pre + 16 + j) = false) ->
  exists e,
    match_here true bodyRegex (reached pre (drop (length pre) s) None) = Some e
    /\ cap e = Some (length pre + 16, length pre + 16 + length body).
Proof.
  intros s Hend. subst s. rewrite drop_app_length.
  unfold match_here.
  change (mkState (pos (reached pre ?x None)) _ _ None) with (reached pre x None).
  unfold bodyRegex. cbn [Seqs]. rewrite m_Seq, begin_marker. cbv beta.
  rewrite m_Seq, m_Group, m_Star.
  assert (HB : length (pre ++ lit "\begin{document}") = length pre + 16)
    by (rewrite length_app; reflexivity).
  set (B := lit "\begin{document}") in *. set (E := lit "\end{document}") in *.
  rewrite star_any_lazy.
  - cbv beta.
    change (mkState (pos ?st) (prev ?st) (rest ?st) ?c) with (with_cap c st).
    rewrite m_with_cap by reflexivity. rewrite end_marker.
    eexists. split; [reflexivity|].
    cbn [cap with_cap pos reached]. rewrite (length_app (pre ++ B)), HB. reflexivity.
  - cbn [rest reached]. rewrite length_app. lia.
  - intros j Hj. cbv beta.
    change (mkState (pos ?st) (prev ?st) (rest ?st) ?c) with (with_cap c st).
    rewrite m_with_cap by reflexivity.
    specialize (Hend j Hj).
    apply (matches_at_false _ _ _ _
             (fun st' => Some (with_cap
                (Some (pos (reached (pre ++ B) (body ++ E ++ post) None),
                       pos (reached ((pre ++ B) ++ take j body)
                                    (drop j body ++ E ++ post) None))) st'))) in Hend.
    rewrite <- Hend. f_equal. unfold reached. f_equal.
    + rewrite (app_assoc pre B), <- HB, take_app_add.
      rewrite take_app_le by lia. reflexivity.
    + rewrite (app_assoc pre B), <- HB, take_app_add.
      rewrite take_app_le by lia. reflexivity.
    + rewrite (app_assoc pre B), <- HB, drop_app_add.
      rewrite drop_app_le by lia. reflexivity.
  - cbv beta.
    change (mkState (pos ?st) (prev ?st) (rest ?st) ?c) with (with_cap c st).
    rewrite m_with_cap by reflexivity. rewrite end_marker. eexists. reflexivity.
Qed.

Lemma getRenderableContent_cons (s : text) :
  s <> [] ->
  getRenderableContent s =
  match document_body s with
  | Some body => Js.trim body
  | None =>
      if Js.includes (lit "\documentclass") s then
        if test true beginDocument s then
          match nonempty_at 1 (split true beginDocument s) with
          | Some rest => default [] (split true endDocument rest !! 0)
          | None => s
          end
        else s
      else s
  end.
Proof. destruct s; [congruence|reflexivity]. Qed.

(** For a text with a begin marker followed by a non-empty [body] and an
    end marker, the first begin marker and the first end marker after it
    as the patterns of the code see them, [getRenderableContent] returns
    [body] trimmed. *)
Lemma getRenderableContent_body (pre body post : text) :
  let s := pre ++ lit "\begin{document}" ++ body ++ lit "\end{document}" ++ post in
  body <> [] ->
  (forall i, i < length pre -> matches_at true beginDocument s i = false) ->
  (forall j, j < length body ->
     matches_at true endDocument s (length pre + 16 + j) = false) ->
  getRenderableContent s = Js.trim body.
Proof.
  intros s Hbody Hbegin Hend.
  destruct (body_match pre body post Hend) as (e & He & Hcap). fold s in He.
  assert (Hs : s <> []).
  { intros Hnil. apply (f_equal length) in Hnil. subst s.
    rewrite !length_app in Hnil. simpl in Hnil. lia. }
  rewrite getRenderableContent_cons by exact Hs.
  unfold document_body, exec.
  rewrite (search_skip true bodyRegex s (length pre)).
  - replace (take (length pre) s) with pre by (subst s; rewrite take_app_length; reflexivity).
    rewrite (search_hit _ _ _ _ e He).
    unfold captured. rewrite Hcap. unfold Js.slice.
    replace (length pre + 16 + length body - (length pre + 16)) with (length body) by lia.
    replace (drop (length pre + 16) s)
      with (body ++ lit "\end{document}" ++ post).
    + rewrite take_app_length. destruct body; [congruence|reflexivity].
    + subst s. rewrite (app_assoc pre).
      replace (length pre + 16) with (length (pre ++ lit "\begin{document}"))
        by (rewrite length_app; reflexivity).
      rewrite drop_app_length. reflexivity.
  - subst s. rewrite length_app. lia.
  - subst s. rewrite length_app. lia.
  - intros j Hj. specialize (Hbegin j Hj).
    unfold matches_at, match_here, bodyRegex. cbn [Seqs]. rewrite m_Seq.
    change (mkState (pos (reached ?p ?x None)) _ _ None) with (reached p x None).
    rewrite (matches_at_false _ _ _ _ _ Hbegin). reflexivity.
Qed.

Example getRenderableContent_body_sample :
  getRenderableContent
    (lit "\documentclass{article} \begin{document} Solve $x^2=4$. \end{document}")
  = lit "Solve $x^2=4$.".
Proof.
  change (lit "\documentclass{article} \begin{document} Solve $x^2=4$. \end{document}")
    with (lit "\documentclass{article} " ++ lit "\begin{document}"
          ++ lit " Solve $x^2=4$. " ++ lit "\end{document}" ++ []).
  rewrite getRenderableContent_body.
  - vm_compute. reflexivity.
  - discriminate.
  - intros i Hi.
    do 24 (destruct i as [|i]; [vm_compute; reflexivity|]).
    vm_compute in Hi. lia.
  - intros j Hj.
    do 16 (destruct j as [|j]; [vm_compute; reflexivity|]).
    vm_compute in Hj. lia.
Qed.

End DocumentBody.

(* ===================================================================== *)
(** * Further properties of the retry wrapper and the service calls *)
(* ===================================================================== *)

Section RetryMore.
Import Service.
Context {W T : Type}.
Implicit Types (op : @operation W T) (w : W) (l : RetryLog) (e : JsError).

(** Failures that are all retriable use up the four invocations. *)
Lemma retry_loop_exhausts op description :
  forall r fuel a d last w l,
    a + r = maxRetries RETRY_CONFIG ->
    r < fuel ->
    (forall k, k <= r -> exists e,
        fst (nth_call op w k) = Rejected e /\ retriable e = true) ->
    exists e,
      fst (nth_call op w r) = Rejected e
      /\ retry_loop fuel op description a d last w l =
         (GaveUp (Some e), snd (nth_call op w r),
          mkLog (invocations l + S r) (delays l ++ backoff d r)
                (console l ++ warnings op description a d w r)).
Proof.
  induction r as [|r IH]; intros fuel a d last w l Ha Hfuel Hfail;
    simpl in Ha; (destruct fuel as [|fuel]; [lia|]);
    destruct (Hfail 0) as (e & He & Hr); try lia;
    unfold nth_call in *; simpl in He; simpl;
    (replace (a <=? 3) with true by (symmetry; apply Nat.leb_le; lia));
    destruct (op w) as [o w0] eqn:Hop; simpl in He; subst o.
  - replace (a <? 3) with false by (symmetry; apply Nat.ltb_ge; lia).
    exists e. simpl. split; [reflexivity|].
    unfold log_call, backoff, warnings. simpl. rewrite !app_nil_r.
    do 2 f_equal. f_equal. lia.
  - replace (a <? 3) with true by (symmetry; apply Nat.ltb_lt; lia).
    rewrite Hr. simpl.
    destruct (IH fuel (S a) (d * 2)%Z (Some e) w0 (log_delay d (log_console (warning description a d e) (log_call l))))
      as (e' & He' & Hloop); [simpl; lia|lia| |].
    + intros k Hk. destruct (Hfail (S k)) as (e1 & He1 & Hr1); [lia|].
      exists e1. simpl in He1. rewrite Hop in He1. auto.
    + exists e'. simpl. split; [exact He'|].
      rewrite Hloop, warnings_S, Hop. unfold log_delay, log_console, log_call. simpl.
      rewrite backoff_S, <- !app_assoc. simpl. do 2 f_equal. f_equal. lia.
Qed.

(** What the loop leaves unchanged when every rejected invocation leaves
    it unchanged. *)
Lemma retry_loop_gaveup_keeps {A} (f : W -> A) op description :
  (forall w e w', op w = (Rejected e, w') -> f w' = f w) ->
  forall fuel a d last w l le w' l',
    retry_loop fuel op description a d last w l = (GaveUp le, w', l') -> f w' = f w.
Proof.
  intros Hrej. induction fuel as [|fuel IH]; intros a d last w l le w' l'; simpl.
  - intros [= _ <- _]. reflexivity.
  - destruct (a <=? 3); [|intros [= _ <- _]; reflexivity].
    destruct (op w) as [[v|e] w0] eqn:Hop; [discriminate|].
    destruct (_ && _).
    + intros H. apply IH in H. rewrite H. eapply Hrej, Hop.
    + intros [= _ <- _]. eapply Hrej, Hop.
Qed.

(** What every invocation appends is appended once per invocation. *)
Lemma retry_loop_appends {X} (sent : W -> list X) (x : X) op description :
  (forall w, sent (snd (op w)) = sent w ++ [x]) ->
  forall fuel a d last w l,
    let r := retry_loop fuel op description a d last w l in
    invocations l <= invocations (snd r)
    /\ sent (snd (fst r)) = sent w ++ replicate (invocations (snd r) - invocations l) x.
Proof.
  intros Hop. induction fuel as [|fuel IH]; intros a d last w l; simpl.
  - rewrite Nat.sub_diag. simpl. rewrite app_nil_r. auto.
  - destruct (a <=? 3); simpl;
      [|rewrite Nat.sub_diag; simpl; rewrite app_nil_r; auto].
    pose proof (Hop w) as Hw. destruct (op w) as [[v|e] w0]; simpl in *.
    + replace (S (invocations l) - invocations l) with 1 by lia. auto.
    + destruct (_ && _); simpl.
      * specialize (IH (S a) (d * 2)%Z (Some e) w0 (log_delay d (log_console (warning description a d e) (log_call l)))).
        simpl in IH. destruct IH as [IH1 IH2]. split; [lia|].
        rewrite IH2, Hw, <- app_assoc. f_equal.
        replace (invocations (snd (retry_loop fuel op description (S a) (d * 2)%Z (Some e) w0
                   (log_delay d (log_console (warning description a d e) (log_call l))))) - invocations l)
          with (S (invocations (snd (retry_loop fuel op description (S a) (d * 2)%Z (Some e) w0
                   (log_delay d (log_console (warning description a d e) (log_call l))))) - S (invocations l))) by lia.
        reflexivity.
      * replace (S (invocations l) - invocations l) with 1 by lia. auto.
Qed.

Lemma retry_loop_mono op description :
  forall fuel a d last w l,
    invocations l <= invocations (snd (retry_loop fuel op description a d last w l)).
Proof.
  induction fuel as [|fuel IH]; intros a d last w l; simpl; [lia|].
  destruct (a <=? 3); simpl; [|lia].
  destruct (op w) as [[v|e] w0]; simpl; [lia|].
  destruct (_ && _); simpl; [|lia].
  specialize (IH (S a) (d * 2)%Z (Some e) w0 (log_delay d (log_console (warning description a d e) (log_call l)))).
  simpl in IH. lia.
Qed.

(** What no invocation changes is not changed. *)
Lemma retry_loop_keeps {A} (f : W -> A) op description :
  (forall w, f (snd (op w)) = f w) ->
  forall fuel a d last w l,
    f (snd (fst (retry_loop fuel op description a d last w l))) = f w.
Proof.
  intros Hop. induction fuel as [|fuel IH]; intros a d last w l; simpl; [reflexivity|].
  destruct (a <=? 3); simpl; [|reflexivity].
  pose proof (Hop w) as Hw. destruct (op w) as [[v|e] w0]; simpl in *; [exact Hw|].
  destruct (_ && _); simpl; [|exact Hw].
  rewrite IH. exact Hw.
Qed.

Lemma retry_loop_invokes op description :
  forall fuel a d last w l,
    a <= maxRetries RETRY_CONFIG ->
    S (invocations l) <= invocations (snd (retry_loop (S fuel) op description a d last w l)).
Proof.
  intros fuel a d last w l Ha. simpl in *.
  replace (a <=? 3) with true by (symmetry; apply Nat.leb_le; lia).
  destruct (op w) as [[v|e] w0]; simpl; [lia|].
  destruct (_ && _); simpl; [|lia].
  pose proof (retry_loop_mono op description fuel (S a) (d * 2)%Z (Some e) w0
                (log_delay d (log_console (warning description a d e) (log_call l)))) as H.
  simpl in H. exact H.
Qed.

Lemma withRetry_invoked op description w :
  1 <= invocations (log_of (withRetry op description w)) <= 4.
Proof.
  split.
  - pose proof (retry_loop_invokes op description (maxRetries RETRY_CONFIG) 0
                  (initialDelay RETRY_CONFIG) None w (mkLog 0 [] [])) as H.
    unfold withRetry, log_of.
    destruct (retry_loop _ _ _ _ _ _ _ _) as [[[v|le] w1] l1];
      cbn [fst snd invocations] in *; apply H; simpl; lia.
  - pose proof (retry_loop_bound op description (S (maxRetries RETRY_CONFIG)) 0
                  (initialDelay RETRY_CONFIG) None w (mkLog 0 [] [])) as H.
    cbv zeta in H. destruct H as [H _]. revert H.
    unfold withRetry, log_of.
    destruct (retry_loop _ _ _ _ _ _ _ _) as [[[v|last] w'] l];
      cbn [fst snd invocations maxRetries RETRY_CONFIG]; lia.
Qed.


End RetryMore.

(** X1.  When the first four invocations all fail with retriable errors,
    [withRetry] gives up after the fourth: it has awaited 2000, 4000 and
    8000 ms, and rejects with the consolidated error made from the fourth
    failure. *)
Theorem withRetry_exhausts {W T : Type}
    (op : @Service.operation W T) (description : text) (w : W) :
  (forall k, k <= 3 -> exists e,
      fst (Service.nth_call op w k) = Service.Rejected e
      /\ Service.retriable e = true) ->
  let r := Service.withRetry op description w in
  exists e,
    fst (Service.nth_call op w 3) = Service.Rejected e
    /\ Service.result_of r = Service.Rejected (Service.final_error description (Some e))
    /\ Service.world_of r = snd (Service.nth_call op w 3)
    /\ Service.invocations (Service.log_of r) = 4
    /\ Service.delays (Service.log_of r) = [2000; 4000; 8000]%Z
    /\ Service.total_delay (Service.log_of r) = 14000%Z.
Proof.
  intros Hfail r. subst r. unfold Service.withRetry.
  destruct (retry_loop_exhausts op description 3 4 0 2000%Z None w (Service.mkLog 0 [] []))
    as (e & He & Hloop); [reflexivity|lia|exact Hfail|].
  exists e. split; [exact He|].
  change (S (Service.maxRetries Service.RETRY_CONFIG)) with 4.
  change (Service.initialDelay Service.RETRY_CONFIG) with 2000%Z.
  rewrite Hloop. repeat split.
Qed.

Lemma withRetry_exhausts_witness :
  Service.result_of (Service.withRetry Sample.unavailable (lit "grade submission") 0)
  = Service.Rejected
      (Service.Error (lit "Failed to grade submission: Service Unavailable"))
  /\ Service.invocations
       (Service.log_of (Service.withRetry Sample.unavailable (lit "grade submission") 0))
     = 4.
Proof.
  destruct (withRetry_exhausts Sample.unavailable (lit "grade submission") 0)
    as (e & He & Hres & _ & Hinv & _).
  - intros k Hk.
    exists (Service.mkError (Some 503%Z) None (lit "Service Unavailable")).
    split; reflexivity.
  - injection He as <-. split; [exact Hres | exact Hinv].
Defined.

(** X2.  A rejection by [withRetry] always comes from the failure of its
    last invocation: the invocations before it failed with retriable
    errors, the last one failed with an error that is not retriable unless
    it was the fourth, and what is raised is the consolidated error made
    from it, which carries no status. *)
Theorem withRetry_rejection {W T : Type}
    (op : @Service.operation W T) (description : text) (w : W) (e : Service.JsError) :
  let r := Service.withRetry op description w in
  Service.result_of r = Service.Rejected e ->
  exists n last,
    n <= 3
    /\ (forall k, k < n -> exists e',
          fst (Service.nth_call op w k) = Service.Rejected e'
          /\ Service.retriable e' = true)
    /\ Service.nth_call op w n = (Service.Rejected last, Service.world_of r)
    /\ (n < 3 -> Service.retriable last = false)
    /\ e = Service.final_error description (Some last)
    /\ Service.status_of e = None
    /\ Service.invocations (Service.log_of r) = n + 1
    /\ Service.delays (Service.log_of r) = Service.backoff 2000 n.
Proof.
  intros r. subst r. unfold Service.withRetry, Service.result_of, Service.world_of,
    Service.log_of.
  destruct (Service.retry_loop _ _ _ _ _ _ _ _) as [[[v|le] w'] l'] eqn:Hloop;
    simpl; [discriminate|].
  intros [= <-].
  apply retry_loop_gaveup in Hloop; [|simpl; lia..].
  destruct Hloop as (n & last & Hn & Hfail & Hcall & Hfatal & -> & ->).
  exists n, last. simpl in *.
  split; [lia|]. split; [exact Hfail|]. split; [exact Hcall|].
  split; [exact Hfatal|]. split; [reflexivity|].
  split; [unfold Service.final_error; destruct (_ || _); reflexivity|].
  split; [lia|reflexivity].
Qed.

Lemma withRetry_rejection_witness :
  exists n last,
    n <= 3
    /\ Service.nth_call (Service.grade_op Sample.no_json (lit "x = 1") Sample.question)
         Sample.refusing n
       = (Service.Rejected last,
          Service.world_of
            (Service.gradeLatexSubmission Sample.no_json (lit "x = 1") Sample.question
               Sample.refusing))
    /\ Service.Error (lit "Failed to grade submission: Bad Request")
       = Service.final_error (lit "grade submission") (Some last).
Proof.
  destruct (withRetry_rejection
              (Service.grade_op Sample.no_json (lit "x = 1") Sample.question)
              (lit "grade submission") Sample.refusing
              (Service.Error (lit "Failed to grade submission: Bad Request")))
    as (n & last & Hn & _ & Hcall & _ & He & _).
  - vm_compute. reflexivity.
  - exists n, last. split; [exact Hn|]. split; [exact Hcall | exact He].
Defined.

Section CallsMore.
Import Service.
Context (JSON_parse : text -> JsError + jsval).
Context (randomUUID : nat -> text).

Lemma withRetry_appends {T X} (sent : World -> list X) (x : X)
    (op : @operation World T) description w :
  (forall w, sent (snd (op w)) = sent w ++ [x]) ->
  sent (world_of (withRetry op description w))
  = sent w ++ replicate (invocations (log_of (withRetry op description w))) x.
Proof.
  intros Hop.
  pose proof (retry_loop_appends sent x op description Hop
                (S (maxRetries RETRY_CONFIG)) 0
                (initialDelay RETRY_CONFIG) None w (mkLog 0 [] [])) as H.
  cbv zeta in H. destruct H as [_ H]. revert H.
  unfold withRetry, world_of, log_of.
  destruct (retry_loop _ _ _ _ _ _ _ _) as [[[v|le] w1] l1];
    cbn [fst snd invocations]; rewrite Nat.sub_0_r; auto.
Qed.

Lemma withRetry_keeps {T A} (f : World -> A)
    (op : @operation World T) description w :
  (forall w, f (snd (op w)) = f w) ->
  f (world_of (withRetry op description w)) = f w.
Proof.
  intros Hop.
  pose proof (retry_loop_keeps f op description Hop (S (maxRetries RETRY_CONFIG)) 0
                (initialDelay RETRY_CONFIG) None w (mkLog 0 [] [])) as H.
  revert H. unfold withRetry, world_of.
  destruct (retry_loop _ _ _ _ _ _ _ _) as [[[v|le] w1] l1]; cbn [fst snd]; auto.
Qed.

Lemma grade_op_sends latexSource context w :
  requests (snd (grade_op JSON_parse latexSource context w))
  = requests w ++ [ReqGrade latexSource context].
Proof.
  unfold grade_op, generateContent.
  destruct (gemini w _) as [response|e]; [|reflexivity].
  destruct (text_of response) as [t|]; [|reflexivity].
  destruct (JSON_parse t); reflexivity.
Qed.

Lemma grade_op_keeps_uuids latexSource context w :
  uuids (snd (grade_op JSON_parse latexSource context w)) = uuids w.
Proof.
  unfold grade_op, generateContent.
  destruct (gemini w _) as [response|e]; [|reflexivity].
  destruct (text_of response) as [t|]; [|reflexivity].
  destruct (JSON_parse t); reflexivity.
Qed.

Lemma extract_op_sends base64Data mimeType w :
  requests (snd (extract_op JSON_parse randomUUID base64Data mimeType w))
  = requests w ++ [ReqExtract base64Data mimeType].
Proof.
  unfold extract_op, generateContent.
  destruct (gemini w _) as [response|e]; [|reflexivity].
  destruct (text_of response) as [t|]; [|reflexivity].
  destruct (JSON_parse t); reflexivity.
Qed.

Lemma convert_op_sends base64Data mimeType w :
  requests (snd (convert_op base64Data mimeType w))
  = requests w ++ [ReqConvert base64Data mimeType].
Proof.
  unfold convert_op, generateContent. destruct (gemini w _); reflexivity.
Qed.

Lemma transcribe_op_sends base64Data mimeType w :
  requests (snd (transcribe_op base64Data mimeType w))
  = requests w ++ [ReqTranscribe base64Data mimeType].
Proof.
  unfold transcribe_op, generateContent. destruct (gemini w _); reflexivity.
Qed.

Lemma refine_op_sends input w :
  requests (snd (refine_op input w)) = requests w ++ [ReqRefine input].
Proof.
  unfold refine_op, generateContent. destruct (gemini w _); reflexivity.
Qed.

End CallsMore.

(** X3.  Every call to the service sends the same request once per
    invocation of its operation and nothing else: after a grading, an
    extraction, a conversion or a transcription, the requests sent are the
    earlier ones followed by as many copies of the call's request as there
    were invocations, between one and four; a grading hands out no id. *)
Theorem calls_send_one_request_per_invocation
    (JSON_parse : text -> Service.JsError + jsval) (randomUUID : nat -> text)
    (latexSource : text) (context : jsobj) (base64Data mimeType : text)
    (w : Service.World) :
  (let r := Service.gradeLatexSubmission JSON_parse latexSource context w in
   Service.requests (Service.world_of r)
   = Service.requests w
     ++ replicate (Service.invocations (Service.log_of r))
                  (Service.ReqGrade latexSource context)
   /\ 1 <= Service.invocations (Service.log_of r) <= 4
   /\ Service.uuids (Service.world_of r) = Service.uuids w)
  /\ (let r := Service.extractQuestionFromImage JSON_parse randomUUID
                 base64Data mimeType w in
      Service.requests (Service.world_of r)
      = Service.requests w
        ++ replicate (Service.invocations (Service.log_of r))
                     (Service.ReqExtract base64Data mimeType)
      /\ 1 <= Service.invocations (Service.log_of r) <= 4)
  /\ (let r := Service.convertImageToLatex base64Data mimeType w in
      Service.requests (Service.world_of r)
      = Service.requests w
        ++ replicate (Service.invocations (Service.log_of r))
                     (Service.ReqConvert base64Data mimeType)
      /\ 1 <= Service.invocations (Service.log_of r) <= 4)
  /\ (let r := Service.transcribeSolutionImage base64Data mimeType w in
      Service.requests (Service.world_of r)
      = Service.requests w
        ++ replicate (Service.invocations (Service.log_of r))
                     (Service.ReqTranscribe base64Data mimeType)
      /\ 1 <= Service.invocations (Service.log_of r) <= 4).
Proof.
  cbv zeta.
  unfold Service.gradeLatexSubmission, Service.extractQuestionFromImage,
    Service.convertImageToLatex, Service.transcribeSolutionImage.
  repeat split; try apply withRetry_invoked.
  - apply withRetry_appends, grade_op_sends.
  - apply (withRetry_keeps Service.uuids), grade_op_keeps_uuids.
  - apply withRetry_appends, extract_op_sends.
  - apply withRetry_appends, convert_op_sends.
  - apply withRetry_appends, transcribe_op_sends.
Qed.



(** X5.  An extraction hands out an id exactly when it resolves: the
    counter of ids goes up by one on success and is unchanged on failure,
    whatever the number of attempts. *)
Theorem extraction_id_only_on_success
    (JSON_parse : text -> Service.JsError + jsval) (randomUUID : nat -> text)
    (base64Data mimeType : text) (w : Service.World) :
  let r := Service.extractQuestionFromImage JSON_parse randomUUID
             base64Data mimeType w in
  Service.uuids (Service.world_of r)
  = match Service.result_of r with
    | Service.Resolved _ => S (Service.uuids w)
    | Service.Rejected _ => Service.uuids w
    end.
Proof.
  intros r.
  destruct (Service.result_of r) as [q|e] eqn:Hr.
  - apply extraction_resolved in Hr. destruct Hr as (t & data & _ & _ & H). exact H.
  - subst r. revert Hr.
    unfold Service.extractQuestionFromImage, Service.withRetry,
      Service.result_of, Service.world_of.
    destruct (Service.retry_loop _ _ _ _ _ _ _ _) as [[[v|le] w1] l1] eqn:Hloop;
      cbn [fst snd]; [discriminate|]. intros _.
    eapply (retry_loop_gaveup_keeps Service.uuids); [|exact Hloop].
    intros w0 e0 w0' H0. eapply extract_op_rejected. exact H0.
Qed.

Section TrimFacts.

Lemma trimStart_snoc (s : text) (c : ascii) :
  Js.is_space c = false -> Js.trimStart (s ++ [c]) = Js.trimStart s ++ [c].
Proof.
  intros Hc. induction s as [|a s IH]; cbn [Js.trimStart app].
  - rewrite Hc. reflexivity.
  - destruct (Js.is_space a); [exact IH|reflexivity].
Qed.

Lemma trimEnd_cons (c : ascii) (s : text) :
  Js.is_space c = false -> Js.trimEnd (c :: s) = c :: Js.trimEnd s.
Proof.
  intros Hc. unfold Js.trimEnd. cbn [rev].
  rewrite trimStart_snoc by exact Hc. rewrite rev_app_distr. reflexivity.
Qed.

Lemma trimStart_idem (s : text) : Js.trimStart (Js.trimStart s) = Js.trimStart s.
Proof.
  induction s as [|a s IH]; [reflexivity|]. cbn [Js.trimStart].
  destruct (Js.is_space a) eqn:Ha; [exact IH|]. cbn [Js.trimStart]. rewrite Ha.
  reflexivity.
Qed.

Lemma trimEnd_idem (s : text) : Js.trimEnd (Js.trimEnd s) = Js.trimEnd s.
Proof.
  unfold Js.trimEnd. rewrite rev_involutive, trimStart_idem. reflexivity.
Qed.

Lemma trimStart_trimEnd (s : text) :
  Js.trimStart (Js.trimEnd (Js.trimStart s)) = Js.trimEnd (Js.trimStart s).
Proof.
  induction s as [|a s IH]; [reflexivity|]. cbn [Js.trimStart].
  destruct (Js.is_space a) eqn:Ha; [exact IH|].
  rewrite trimEnd_cons by exact Ha. cbn [Js.trimStart]. rewrite Ha. reflexivity.
Qed.

Lemma trim_idem (s : text) : Js.trim (Js.trim s) = Js.trim s.
Proof.
  unfold Js.trim. rewrite trimStart_trimEnd. apply trimEnd_idem.
Qed.

(** [trimStart] drops a prefix of white space and nothing else. *)
Lemma trimStart_suffix (s : text) :
  exists pre, s = pre ++ Js.trimStart s /\ forallb Js.is_space pre = true.
Proof.
  induction s as [|a s (pre & IH & Hpre)]; [exists []; auto|].
  cbn [Js.trimStart]. destruct (Js.is_space a) eqn:Ha.
  - exists (a :: pre). cbn [app forallb]. rewrite Ha, Hpre. split; [congruence|reflexivity].
  - exists []. auto.
Qed.

Lemma trim_parts (s : text) :
  exists pre post,
    s = pre ++ Js.trim s ++ post
    /\ forallb Js.is_space pre = true /\ forallb Js.is_space post = true.
Proof.
  destruct (trimStart_suffix s) as (pre & Hs & Hpre).
  destruct (trimStart_suffix (rev (Js.trimStart s))) as (post & Ht & Hpost).
  exists pre, (rev post). split; [|split; [exact Hpre|]].
  - unfold Js.trim, Js.trimEnd. rewrite <- rev_app_distr, <- Ht, rev_involutive.
    exact Hs.
  - rewrite forallb_forall in *. intros x Hx. apply Hpost. apply in_rev. exact Hx.
Qed.

Lemma trimmed_or_trimmed (response : Service.Response) :
  Js.trim (Service.trimmed_or [] response) = Service.trimmed_or [] response.
Proof.
  unfold Service.trimmed_or. destruct (Service.response_text response) as [t|];
    [|reflexivity].
  destruct (Js.trim t) as [|c t'] eqn:Ht; [reflexivity|].
  rewrite <- Ht. apply trim_idem.
Qed.

Lemma trimmed_or_input (input : text) (response : Service.Response) :
  Service.trimmed_or input response = input
  \/ (Service.trimmed_or input response <> []
      /\ Js.trim (Service.trimmed_or input response)
         = Service.trimmed_or input response
      /\ exists t, Service.response_text response = Some t
                   /\ Service.trimmed_or input response = Js.trim t).
Proof.
  unfold Service.trimmed_or. destruct (Service.response_text response) as [t|];
    [|left; reflexivity].
  destruct (Js.trim t) as [|c t'] eqn:Ht; [left; reflexivity|].
  right. split; [discriminate|]. rewrite <- Ht. split; [apply trim_idem|eauto].
Qed.

End TrimFacts.

Section ServiceMore.
Import Service.

Lemma convert_resolved_trimmed base64Data mimeType w out :
  result_of (convertImageToLatex base64Data mimeType w) = Resolved out ->
  Js.trim out = out.
Proof.
  intros H. apply withRetry_resolved in H. destruct H as (n & _ & H).
  unfold nth_call in H. revert H. unfold convert_op, generateContent.
  destruct (gemini _ _) as [response|e]; intros [= <- _].
  apply trimmed_or_trimmed.
Qed.

Lemma transcribe_resolved_trimmed base64Data mimeType w out :
  result_of (transcribeSolutionImage base64Data mimeType w) = Resolved out ->
  Js.trim out = out.
Proof.
  intros H. apply withRetry_resolved in H. destruct H as (n & _ & H).
  unfold nth_call in H. revert H. unfold transcribe_op, generateContent.
  destruct (gemini _ _) as [response|e]; intros [= <- _].
  apply trimmed_or_trimmed.
Qed.

Lemma refine_resolved input w out :
  Js.trim input <> [] ->
  result_of (refineTextToLatex input w) = Resolved out ->
  out <> [] /\ (out = input \/ Js.trim out = out).
Proof.
  unfold refineTextToLatex. intros Hne.
  destruct (Js.trim input) as [|c t] eqn:Hin; [congruence|].
  intros H. apply withRetry_resolved in H. destruct H as (n & _ & H).
  unfold nth_call in H. revert H. unfold refine_op, generateContent.
  destruct (gemini _ _) as [response|e]; intros [= <- _].
  destruct (trimmed_or_input input response) as [->|(Hne' & Htr & _)].
  - split; [|left; reflexivity]. intros ->. discriminate.
  - split; [exact Hne'|right; exact Htr].
Qed.

(** What no invocation changes is the same before every invocation. *)
Lemma world_before_keeps {W T A} (f : W -> A) (op : @operation W T) :
  (forall w, f (snd (op w)) = f w) ->
  forall n w, f (world_before op w n) = f w.
Proof.
  intros Hop. induction n as [|n IH]; intros w; [reflexivity|].
  cbn [world_before]. rewrite IH. apply Hop.
Qed.

Lemma refine_op_keeps_gemini input w :
  gemini (snd (refine_op input w)) = gemini w.
Proof.
  unfold refine_op, generateContent. destruct (gemini w _); reflexivity.
Qed.

(** A refinement that resolves gives what the answer of the service, at
    the attempt that succeeded, trims to, or the input. *)
Lemma refine_answer input w out :
  Js.trim input <> [] ->
  result_of (refineTextToLatex input w) = Resolved out ->
  exists n response,
    n <= 3
    /\ gemini (world_before (refine_op input) w n)
         (requests (world_before (refine_op input) w n) ++ [ReqRefine input])
       = Resolved response
    /\ out = trimmed_or input response.
Proof.
  unfold refineTextToLatex. intros Hne.
  destruct (Js.trim input) as [|c t] eqn:Hin; [congruence|].
  intros H. apply withRetry_resolved_log in H. destruct H as (n & Hn & _ & H & _).
  unfold nth_call in H. revert H. unfold refine_op at 1, generateContent.
  destruct (gemini _ _) as [response|e] eqn:Hg; intros [= <- _].
  exists n, response. auto.
Qed.

(** The message of a rejection names the call that failed. *)
Lemma withRetry_rejected_message {W T} (op : @operation W T) description w e :
  result_of (withRetry op description w) = Rejected e ->
  e = Error (lit "Usage limit exceeded for " ++ description
             ++ lit ". Please wait a moment before trying again.")
  \/ exists reason, e = Error (lit "Failed to " ++ description ++ lit ": " ++ reason).
Proof.
  unfold withRetry, result_of.
  destruct (retry_loop _ _ _ _ _ _ _ _) as [[[v|le] w'] l']; cbn [fst];
    [discriminate|].
  intros [= <-]. unfold final_error. cbv zeta.
  destruct (_ || _); [left; reflexivity|right; eexists; reflexivity].
Qed.

End ServiceMore.

(** X6.  A transcription, of a submission or of a solution key, that
    resolves gives a trimmed text: trimming it again changes nothing.  The
    text is the trimmed answer of the attempt that succeeded, or the empty
    text when that answer was missing or blank. *)
Theorem transcriptions_are_trimmed
    (base64Data mimeType : text) (w : Service.World) (out : text) :
  (Service.result_of (Service.convertImageToLatex base64Data mimeType w)
   = Service.Resolved out -> Js.trim out = out)
  /\ (Service.result_of (Service.transcribeSolutionImage base64Data mimeType w)
      = Service.Resolved out -> Js.trim out = out).
Proof.
  split; [apply convert_resolved_trimmed|apply transcribe_resolved_trimmed].
Qed.

Lemma transcriptions_are_trimmed_witness :
  Js.trim (lit "x^2") = lit "x^2".
Proof.
  refine (proj1 (transcriptions_are_trimmed (lit "AAAA") (lit "image/png")
                   (Sample.answering (lit "  x^2 ")) (lit "x^2")) _).
  vm_compute. reflexivity.
Defined.

(** X7.  Refining a blank text sends nothing and returns the empty text at
    once.  Refining any other text returns, when it resolves, what the
    service answered at the attempt that succeeded, trimmed, or the input
    itself when that answer has no text or only white space: the result
    is never an empty text.  In particular an answer to the first request
    decides the result. *)
Theorem refineTextToLatex_result (input : text) (w : Service.World) :
  (Js.trim input = [] ->
   Service.refineTextToLatex input w
   = (Service.Resolved [], w, Service.mkLog 0 [] []))
  /\ (forall out,
      Js.trim input <> [] ->
      Service.result_of (Service.refineTextToLatex input w) = Service.Resolved out ->
      out <> []
      /\ (out = input \/ Js.trim out = out)
      /\ exists n response,
           n <= 3
           /\ Service.gemini (Service.world_before (Service.refine_op input) w n)
                (Service.requests (Service.world_before (Service.refine_op input) w n)
                 ++ [Service.ReqRefine input])
              = Service.Resolved response
           /\ out = match Service.response_text response with
                    | Some t =>
                        match Js.trim t with [] => input | c :: t' => c :: t' end
                    | None => input
                    end)
  /\ (forall response,
      Js.trim input <> [] ->
      Service.gemini w (Service.requests w ++ [Service.ReqRefine input])
      = Service.Resolved response ->
      Service.result_of (Service.refineTextToLatex input w)
      = Service.Resolved
          (match Service.response_text response with
           | Some t => match Js.trim t with [] => input | c :: t' => c :: t' end
           | None => input
           end)).
Proof.
  split; [|split].
  - intros H. unfold Service.refineTextToLatex. rewrite H. reflexivity.
  - intros out Hne H.
    destruct (refine_resolved input w out Hne H) as [H1 H2].
    split; [exact H1|]. split; [exact H2|].
    destruct (refine_answer input w out Hne H) as (n & response & Hn & Hg & Hout).
    exists n, response. split; [exact Hn|]. split; [exact Hg|exact Hout].
  - intros response Hne Hg. unfold Service.refineTextToLatex.
    destruct (Js.trim input) as [|c t]; [congruence|].
    rewrite (withRetry_recovers (Service.refine_op input) _ w
               (Service.trimmed_or input response) 0);
      [reflexivity|lia|intros k Hk; lia|].
    unfold Service.nth_call, Service.refine_op, Service.generateContent.
    cbn [Service.world_before]. rewrite Hg. reflexivity.
Qed.

Lemma refineTextToLatex_result_witness :
  Service.refineTextToLatex (lit "  ") (Sample.answering (lit "y"))
  = (Service.Resolved [], Sample.answering (lit "y"), Service.mkLog 0 [] [])
  /\ (exists n response,
        n <= 3
        /\ Service.Resolved (Service.mkResponse (Some (lit " x^2 ")))
           = Service.Resolved response
        /\ lit "x^2" = match Service.response_text response with
                       | Some t =>
                           match Js.trim t with
                           | [] => lit "x squared"
                           | c :: t' => c :: t'
                           end
                       | None => lit "x squared"
                       end)
  /\ Service.result_of
       (Service.refineTextToLatex (lit "x squared") (Sample.answering (lit "  ")))
     = Service.Resolved (lit "x squared").
Proof.
  split; [|split].
  - refine (proj1 (refineTextToLatex_result (lit "  ") (Sample.answering (lit "y"))) _).
    reflexivity.
  - destruct (proj1 (proj2 (refineTextToLatex_result (lit "x squared")
                              (Sample.answering (lit " x^2 ")))) (lit "x^2"))
      as (_ & _ & n & response & Hn & Hg & Hout).
    + discriminate.
    + vm_compute. reflexivity.
    + exists n, response. split; [exact Hn|]. split; [|exact Hout].
      rewrite <- Hg.
      rewrite (world_before_keeps Service.gemini (Service.refine_op (lit "x squared"))
                 (refine_op_keeps_gemini (lit "x squared")) n).
      reflexivity.
  - refine (proj2 (proj2 (refineTextToLatex_result (lit "x squared")
                            (Sample.answering (lit "  "))))
              (Service.mkResponse (Some (lit "  "))) _ _).
    + discriminate.
    + reflexivity.
Defined.

Section RegexMore.
Import Regex.

Lemma reads_refl st : reads st st.
Proof. exists []. simpl. split; [reflexivity|lia]. Qed.

Lemma reads_trans st1 st2 st3 : reads st1 st2 -> reads st2 st3 -> reads st1 st3.
Proof.
  intros (r1 & H1 & P1) (r2 & H2 & P2). exists (r1 ++ r2).
  rewrite H1, H2, <- app_assoc, length_app. split; [reflexivity|lia].
Qed.

Lemma reads_advance st c t : rest st = c :: t -> reads st (advance st).
Proof.
  intros H. exists [c]. unfold advance. rewrite H. simpl. split; [reflexivity|lia].
Qed.

Lemma reads_ahead st st' : reads st st' -> ahead st st'.
Proof.
  intros (run & H & P). unfold ahead. rewrite H, P, length_app. lia.
Qed.

(** A match reads a run of the subject: the continuation is given a
    position reached from the start by reading units, none skipped. *)
Lemma m_result_reads ic r :
  forall st k e,
    m ic r st k = Some e -> exists st', reads st st' /\ k st' = Some e.
Proof.
  induction r as [|neg items| |a IHa b IHb|a IHa b IHb|g a IHa| | | |a IHa];
    intros st k e; cbn [m].
  - intros H. exists st. split; [apply reads_refl|exact H].
  - destruct (rest st) eqn:E; [discriminate|].
    destruct (takes _ _ _ _); [|discriminate].
    intros H. exists (advance st). split; [eapply reads_advance, E|exact H].
  - destruct (rest st) eqn:E; [discriminate|].
    destruct (is_line_terminator _); [discriminate|].
    intros H. exists (advance st). split; [eapply reads_advance, E|exact H].
  - intros H. apply IHa in H as (st1 & H1 & H). apply IHb in H as (st2 & H2 & H).
    exists st2. split; [eapply reads_trans; eassumption|exact H].
  - destruct (m ic a st k) eqn:Ea; simpl.
    + intros [= <-]. apply IHa in Ea. exact Ea.
    + intros H. apply IHb in H. exact H.
  - generalize (S (length (rest st))). intros n. revert st e.
    induction n as [|n IHn]; intros st e.
    + intros H. exists st. split; [apply reads_refl|exact H].
    + rewrite star_loop_S.
      assert (Hagain : forall x,
        m ic a st (fun st' =>
          if pos st <? pos st' then star_loop (m ic a) g n st' k else None) = Some x ->
        exists st', reads st st' /\ k st' = Some x).
      { intros x H. apply IHa in H as (st1 & H1 & H).
        destruct (pos st <? pos st1); [|discriminate].
        apply IHn in H as (st2 & H2 & H).
        exists st2. split; [eapply reads_trans; eassumption|exact H]. }
      destruct g.
      * destruct (m ic a st _) eqn:Ea; simpl.
        -- intros [= <-]. apply Hagain. reflexivity.
        -- intros H. exists st. split; [apply reads_refl|exact H].
      * destruct (k st) eqn:Ek; simpl.
        -- intros [= <-]. exists st. split; [apply reads_refl|exact Ek].
        -- apply Hagain.
  - destruct (xorb _ _); [|discriminate].
    intros H. exists st. split; [apply reads_refl|exact H].
  - destruct (rest st); [|discriminate].
    intros H. exists st. split; [apply reads_refl|exact H].
  - destruct (prev st); [discriminate|].
    intros H. exists st. split; [apply reads_refl|exact H].
  - intros H. apply IHa in H as (st1 & H1 & H).
    eexists. split; [|exact H]. exact H1.
Qed.

Lemma match_here_reads ic r st e : match_here ic r st = Some e -> reads st e.
Proof.
  unfold match_here. intros H.
  apply m_result_reads in H as (st1 & H1 & [= <-]). exact H1.
Qed.

(** When the whole pattern is the group, the group records the match. *)
Lemma match_here_group ic a st e :
  match_here ic (Group a) st = Some e ->
  reads st e /\ cap e = Some (pos st, pos e).
Proof.
  unfold match_here. cbn [m]. intros H.
  apply m_result_reads in H as (st1 & H1 & [= <-]). split; [exact H1|reflexivity].
Qed.

Lemma sited_start (s : text) : sited s (start s).
Proof. split; simpl; [reflexivity|lia]. Qed.

Lemma sited_reads s st st' : sited s st -> reads st st' -> sited s st'.
Proof.
  intros [Hr Hp] (run & H & P). unfold sited.
  assert (Hlen : length (rest st) = length s - pos st)
    by (rewrite Hr, length_drop; reflexivity).
  assert (Hlen' : length (rest st) = length run + length (rest st'))
    by (rewrite H, length_app; reflexivity).
  split; [|lia].
  rewrite P, <- drop_drop, <- Hr, H, drop_app_length. reflexivity.
Qed.

Lemma sited_advance s st : sited s st -> sited s (advance st).
Proof.
  intros H. destruct (rest st) as [|c t] eqn:E.
  - unfold advance. rewrite E. exact H.
  - eapply sited_reads; [exact H|]. eapply reads_advance, E.
Qed.

Lemma sited_end s st : sited s st -> rest st = [] -> pos st = length s.
Proof.
  intros [Hr Hp] E. rewrite Hr in E. apply (f_equal length) in E.
  rewrite length_drop in E. simpl in E. lia.
Qed.

Lemma slice_then_drop (p q : nat) (s : text) :
  p <= q -> Js.slice p q s ++ drop q s = drop p s.
Proof.
  intros H. unfold Js.slice. replace q with (p + (q - p)) at 2 by lia.
  rewrite <- drop_drop. apply take_drop.
Qed.

(** The pieces and the separators of a split by a pattern that is one
    group, put together again, are the text from [p] on. *)
Lemma split_loop_concat ic a s :
  forall fuel p stq,
    sited s stq -> p <= pos stq ->
    concat (split_loop ic (Group a) s fuel p stq) = drop p s.
Proof.
  induction fuel as [|fuel IH]; intros p stq Hs Hp.
  - simpl. apply app_nil_r.
  - rewrite split_loop_S.
    destruct (pos stq <? length s) eqn:Hq; [|simpl; apply app_nil_r].
    destruct (match_here ic (Group a) stq) as [e|] eqn:Hm.
    + destruct (pos e =? p) eqn:He.
      * apply IH; [apply sited_advance, Hs|].
        pose proof (reads_ahead _ _ (match_here_reads _ _ _ _ Hm)) as [Ha _].
        apply Nat.eqb_eq in He. unfold advance. destruct (rest stq); simpl; lia.
      * apply match_here_group in Hm as [Hr Hc].
        pose proof (reads_ahead _ _ Hr) as [Ha _].
        cbn [has_group]. unfold captured. rewrite Hc.
        change (Js.slice p (pos stq) s
                ++ Js.slice (pos stq) (pos e) s
                ++ concat (split_loop ic (Group a) s fuel (pos e) e) = drop p s).
        rewrite IH by (eauto using sited_reads).
        rewrite (slice_then_drop (pos stq) (pos e)) by exact Ha.
        apply slice_then_drop, Hp.
    + apply IH; [apply sited_advance, Hs|].
      unfold advance. destruct (rest stq); simpl; lia.
Qed.

Lemma split_group_concat ic a (s : text) : concat (split ic (Group a) s) = s.
Proof.
  destruct s as [|c s]; unfold split.
  - destruct (match_here _ _ _); reflexivity.
  - rewrite split_loop_concat; [reflexivity|apply sited_start|simpl; lia].
Qed.

(** The first match found from a position of the subject on starts at a
    position of the subject. *)
Lemma search_found ic r s :
  forall n st e,
    sited s st -> search ic r n st = Some e ->
    exists st0, sited s st0 /\ pos st <= pos st0 /\ match_here ic r st0 = Some e.
Proof.
  induction n as [|n IH]; intros st e Hs; cbn [search];
    destruct (match_here ic r st) as [e0|] eqn:Hm.
  - intros [= <-]. exists st. auto.
  - discriminate.
  - intros [= <-]. exists st. auto.
  - destruct (rest st) as [|c t] eqn:E; [discriminate|]. intros H.
    apply IH in H as (st0 & H0 & Hp & H); [|apply sited_advance, Hs].
    exists st0. split; [exact H0|]. split; [|exact H].
    revert Hp. unfold advance. rewrite E. simpl. lia.
Qed.

Lemma exec_found ic r s e :
  exec ic r s = Some e ->
  exists st0, sited s st0 /\ match_here ic r st0 = Some e.
Proof.
  unfold exec. intros H. apply (search_found ic r s) in H as (st0 & H0 & _ & H);
    [eauto|apply sited_start].
Qed.

End RegexMore.

(** X8.  Splitting a text by a pattern that is one capturing group loses
    nothing: the pieces and the separators, put together in order, are the
    text again.  This holds for the delimiters of [FormattedText], for the
    implicit math of [TextWithImplicitMath] and for the [MATH_REGEX] of
    the preview. *)
Theorem split_keeps_every_unit (s : text) :
  concat (Regex.split false FormattedText.delimiterRegex s) = s
  /\ concat (Regex.split true FormattedText.implicitMathRegex s) = s
  /\ concat (Regex.split true LatexPreview.MATH_REGEX s) = s.
Proof.
  repeat split; apply split_group_concat.
Qed.


Section ImplicitMore.
Import Regex FormattedText.

(** What [punctuationRegex] captures is the end of the text. *)
Lemma punctuation_suffix (subPart : text) e :
  exec false punctuationRegex subPart = Some e ->
  exists a, a <= length subPart /\ captured subPart e = Some (drop a subPart).
Proof.
  intros H. apply exec_found in H as (st0 & Hs & H).
  unfold match_here, punctuationRegex in H. rewrite m_Seq, m_Group in H.
  apply m_result_reads in H as (st1 & Hr & H).
  cbn [m rest] in H. destruct (rest st1) eqn:E; [|discriminate].
  injection H as <-.
  assert (Hs1 : sited subPart st1).
  { eapply sited_reads; [|exact Hr]. exact Hs. }
  exists (pos st0). split; [apply Hs|].
  unfold captured. cbn [cap pos]. rewrite (sited_end _ _ Hs1 E).
  unfold Js.slice. rewrite take_ge by (rewrite length_drop; lia). reflexivity.
Qed.

Lemma implicit_piece_text (katex : option katex_engine) (subPart : text) :
  (forall renderToString, katex = Some renderToString ->
     forall c, exists message, renderToString c false = inr message) ->
  concat (flat_map (fun e => shows (render katex e)) (implicit_piece subPart))
  = subPart.
Proof.
  intros Hk. unfold implicit_piece.
  destruct (Js.trim subPart) as [|c0 t0]; [simpl; apply app_nil_r|].
  destruct (_ && _); [|simpl; apply app_nil_r].
  assert (Hmath : forall c, shows (MathRenderer katex c false true) = [c]).
  { intros c. unfold MathRenderer. destruct katex as [r|]; [|reflexivity].
    destruct (Hk r eq_refl c) as (message & ->). reflexivity. }
  cbn [flat_map render app]. rewrite Hmath. cbn [shows app concat].
  rewrite app_nil_r.
  destruct (exec false punctuationRegex subPart) as [e|] eqn:He;
    [|apply app_nil_r].
  apply punctuation_suffix in He as (i & Hi & ->). cbn [default].
  destruct (drop i subPart) as [|c t] eqn:Hd; [apply app_nil_r|].
  change (Js.slice_back 0 (length (c :: t)) subPart ++ c :: t = subPart).
  rewrite <- Hd. unfold Js.slice_back, Js.slice. rewrite length_drop, drop_0.
  replace (length subPart - (length subPart - i) - 0) with i by lia.
  apply take_drop.
Qed.

End ImplicitMore.

(** X9.  When the math engine is absent, or rejects every inline source,
    the heuristic pass for implicit math changes nothing that is read: the
    texts of the elements [TextWithImplicitMath] puts on the screen, in
    order, make up the content it was given, trailing punctuation
    included. *)
Theorem implicit_math_keeps_text (katex : option katex_engine) (content : text) :
  (forall renderToString, katex = Some renderToString ->
     forall c, exists message, renderToString c false = inr message) ->
  concat (flat_map (fun e => shows (FormattedText.render katex e))
            (FormattedText.TextWithImplicitMath content))
  = content.
Proof.
  intros Hk. unfold FormattedText.TextWithImplicitMath.
  assert (Hsplit : concat (Regex.split true FormattedText.implicitMathRegex content)
                   = content) by apply split_group_concat.
  rewrite <- Hsplit at 2. clear Hsplit.
  induction (Regex.split true _ content) as [|piece pieces IH]; [reflexivity|].
  cbn [flat_map concat]. rewrite flat_map_app, concat_app, IH.
  rewrite (implicit_piece_text katex piece Hk). reflexivity.
Qed.

Lemma implicit_math_keeps_text_witness :
  concat (flat_map (fun e => shows (FormattedText.render (Some Sample.failing) e))
            (FormattedText.TextWithImplicitMath (lit "so x_1 = 2, then")))
  = lit "so x_1 = 2, then".
Proof.
  apply (implicit_math_keeps_text (Some Sample.failing)).
  intros renderToString [= <-] c. exists (lit "KaTeX parse error: Expected EOF").
  reflexivity.
Defined.

Section PlainText.
Import Regex LatexPreview.

Lemma takes_dollar_only ic (c : ascii) :
  c <> "$"%char -> takes ic false [CChr "$"] c = false.
Proof.
  intros H. destruct ic;
    destruct c as [[] [] [] [] [] [] [] []]; try reflexivity; congruence.
Qed.

Lemma takes_backslash_only ic (c : ascii) :
  c <> "\"%char -> takes ic false [CChr "\"] c = false.
Proof.
  intros H. destruct ic;
    destruct c as [[] [] [] [] [] [] [] []]; try reflexivity; congruence.
Qed.

Lemma sited_plain_ahead s st : plain s -> sited s st -> plain_ahead st.
Proof.
  intros Hs [Hr _]. unfold plain_ahead. rewrite Hr.
  destruct (drop (pos st) s) as [|c t] eqn:E; [exact I|].
  unfold plain in Hs. rewrite List.Forall_forall in Hs. apply Hs.
  rewrite <- (take_drop (pos st) s), E. apply in_or_app. right. left. reflexivity.
Qed.

Lemma search_none ic r s :
  (forall st, sited s st -> match_here ic r st = None) ->
  forall n st, sited s st -> search ic r n st = None.
Proof.
  intros Hnone. induction n as [|n IH]; intros st Hs; cbn [search];
    rewrite (Hnone st Hs); [reflexivity|].
  destruct (rest st); [reflexivity|]. apply IH, sited_advance, Hs.
Qed.

Lemma exec_none ic r s :
  (forall st, sited s st -> match_here ic r st = None) -> exec ic r s = None.
Proof. intros H. apply (search_none ic r s H), sited_start. Qed.

Lemma split_loop_none ic r s :
  (forall st, sited s st -> match_here ic r st = None) ->
  forall fuel p stq, sited s stq -> split_loop ic r s fuel p stq = [drop p s].
Proof.
  intros Hnone. induction fuel as [|fuel IH]; intros p stq Hs; [reflexivity|].
  rewrite split_loop_S. destruct (pos stq <? length s); [|reflexivity].
  rewrite (Hnone stq Hs). apply IH, sited_advance, Hs.
Qed.

(** A pattern that matches nowhere splits nothing. *)
Lemma split_none ic r (s : text) :
  s <> [] ->
  (forall st, sited s st -> match_here ic r st = None) ->
  split ic r s = [s].
Proof.
  intros Hs Hnone. destruct s as [|c s]; [congruence|]. unfold split.
  apply (split_loop_none ic r _ Hnone), sited_start.
Qed.

Lemma includes_head (c : ascii) (sub s : text) :
  ~ In c s -> Js.includes (c :: sub) s = false.
Proof.
  induction s as [|d s IH]; intros Hin; [reflexivity|].
  cbn [Js.includes Js.startsWith].
  destruct (Ascii.eqb_spec c d) as [->|_]; [exfalso; apply Hin; left; reflexivity|].
  cbn [andb orb]. apply IH. intros H. apply Hin. right. exact H.
Qed.

Lemma m_Chr ic d st k :
  m ic (Chr d) st k
  = match rest st with
    | c :: _ => if takes ic false [CChr d] c then k (advance st) else None
    | [] => None
    end.
Proof. reflexivity. Qed.

Lemma m_AtEnd ic st k :
  m ic AtEnd st k = match rest st with [] => k st | _ :: _ => None end.
Proof. reflexivity. Qed.

Lemma m_AtStart ic st k :
  m ic AtStart st k = match prev st with None => k st | Some _ => None end.
Proof. reflexivity. Qed.

Lemma m_Chr_miss ic d st k :
  match rest st with
  | [] => True
  | c :: _ => takes ic false [CChr d] c = false
  end ->
  m ic (Chr d) st k = None.
Proof.
  unfold Chr. cbn [m]. destruct (rest st) as [|c t]; [reflexivity|].
  intros ->. reflexivity.
Qed.

Lemma m_Lit_miss ic d t st k :
  match rest st with
  | [] => True
  | c :: _ => takes ic false [CChr d] c = false
  end ->
  m ic (Lit (d :: t)) st k = None.
Proof.
  intros H. destruct t as [|a t]; cbn [Lit]; [|rewrite m_Seq];
    apply m_Chr_miss, H.
Qed.

Lemma plain_no_dollar ic st :
  plain_ahead st ->
  match rest st with
  | [] => True
  | c :: _ => takes ic false [CChr "$"] c = false
  end.
Proof.
  unfold plain_ahead. destruct (rest st) as [|c t]; [auto|].
  intros [H _]. apply takes_dollar_only, H.
Qed.

Lemma plain_no_backslash ic st :
  plain_ahead st ->
  match rest st with
  | [] => True
  | c :: _ => takes ic false [CChr "\"] c = false
  end.
Proof.
  unfold plain_ahead. destruct (rest st) as [|c t]; [auto|].
  intros [_ H]. apply takes_backslash_only, H.
Qed.

Lemma MATH_REGEX_start st k :
  plain_ahead st -> m true MATH_REGEX st k = None.
Proof.
  intros H. unfold MATH_REGEX. rewrite m_Group. cbn [Alts Seqs].
  rewrite !m_Alt, !m_Seq.
  change (lit "$$") with ("$"%char :: lit "$").
  change (lit "\[") with ("\"%char :: lit "[").
  change (lit "\begin") with ("\"%char :: lit "begin").
  rewrite !m_Lit_miss by (apply plain_no_dollar, H || apply plain_no_backslash, H).
  rewrite m_Chr_miss by apply plain_no_dollar, H.
  reflexivity.
Qed.

Lemma bodyRegex_start st k :
  plain_ahead st -> m true bodyRegex st k = None.
Proof.
  intros H. unfold bodyRegex, beginDocument. cbn [Seqs]. rewrite !m_Seq.
  change (lit "\begin") with ("\"%char :: lit "begin").
  apply m_Lit_miss, plain_no_backslash, H.
Qed.

Lemma displayStart_start st k :
  plain_ahead st -> m false displayStart st k = None.
Proof.
  intros H. unfold displayStart. rewrite m_Seq, m_AtStart.
  destruct (prev st); [reflexivity|].
  rewrite m_Group. cbn [Alts Seqs]. rewrite !m_Alt, !m_Seq.
  change (lit "$$") with ("$"%char :: lit "$").
  change (lit "\[") with ("\"%char :: lit "[").
  change (lit "\begin") with ("\"%char :: lit "begin").
  rewrite !m_Lit_miss by (apply plain_no_dollar, H || apply plain_no_backslash, H).
  reflexivity.
Qed.

Lemma inlineStart_start st k :
  plain_ahead st -> m false inlineStart st k = None.
Proof.
  intros H. unfold inlineStart. rewrite m_Seq, m_AtStart.
  destruct (prev st); [reflexivity|].
  apply m_Chr_miss, plain_no_dollar, H.
Qed.

Lemma plain_getRenderableContent (s : text) :
  plain s -> getRenderableContent s = s.
Proof.
  intros Hs. destruct s as [|c0 s0] eqn:E; [reflexivity|]. rewrite <- E in *.
  rewrite getRenderableContent_cons by (rewrite E; discriminate).
  unfold document_body. rewrite exec_none.
  - change (lit "\documentclass") with ("\"%char :: lit "documentclass").
    rewrite includes_head; [reflexivity|].
    unfold plain in Hs. rewrite List.Forall_forall in Hs. intros Hin.
    apply Hs in Hin. destruct Hin as [_ Hin]. congruence.
  - intros st Hst. apply bodyRegex_start.
    change (plain_ahead (mkState (pos st) (prev st) (rest st) None)).
    exact (sited_plain_ahead s st Hs Hst).
Qed.

Lemma plain_preview (katex : option katex_engine) (s : text) :
  plain s ->
  LatexPreview katex s
  = match Js.trim s with [] => [Placeholder] | _ :: _ => [PlainSpan s] end.
Proof.
  intros Hs. unfold LatexPreview. rewrite (plain_getRenderableContent s Hs).
  destruct (Js.trim s) as [|c0 t0] eqn:Ht; [reflexivity|].
  assert (Hne : s <> []) by (intros ->; discriminate).
  rewrite split_none; [|exact Hne|].
  - cbn [flat_map]. rewrite app_nil_r. unfold preview_part.
    destruct s as [|c s']; [congruence|].
    unfold test. rewrite !exec_none; [reflexivity| |].
    + intros st Hst. apply inlineStart_start.
      exact (sited_plain_ahead _ st Hs Hst).
    + intros st Hst. apply displayStart_start.
      exact (sited_plain_ahead _ st Hs Hst).
  - intros st Hst. apply MATH_REGEX_start.
    exact (sited_plain_ahead s st Hs Hst).
Qed.

End PlainText.

(** X10.  A source without dollar sign and without backslash is previewed
    as it stands: [getRenderableContent] leaves it unchanged and the
    preview is one plain span holding all of it, or the placeholder when
    the source is blank.  The math engine is not consulted. *)
Theorem preview_of_plain_text (katex : option katex_engine) (s : text) :
  Forall (fun c => c <> "$"%char /\ c <> "\"%char) s ->
  LatexPreview.getRenderableContent s = s
  /\ LatexPreview.LatexPreview katex s
     = match Js.trim s with [] => [Placeholder] | _ :: _ => [PlainSpan s] end.
Proof.
  intros Hs. split; [apply plain_getRenderableContent|apply plain_preview]; exact Hs.
Qed.

Lemma preview_of_plain_text_witness :
  LatexPreview.getRenderableContent (lit "Let x be even.") = lit "Let x be even."
  /\ LatexPreview.LatexPreview (Some Sample.failing) (lit "Let x be even.")
     = [PlainSpan (lit "Let x be even.")].
Proof.
  apply (preview_of_plain_text (Some Sample.failing) (lit "Let x be even.")).
  repeat constructor; discriminate.
Defined.

(** X11.  The preview of a whole document shows the body alone: for a
    source with a begin marker, a non-empty body and an end marker (the
    first of each as the patterns of the code see them), what is split
    into math and text is the body trimmed, and a blank body gives the
    placeholder.  The preamble and what follows the end marker never
    reach the screen. *)
Theorem preview_shows_document_body (katex : option katex_engine)
    (pre body post : text) :
  let s := pre ++ lit "\begin{document}" ++ body ++ lit "\end{document}" ++ post in
  body <> [] ->
  (forall i, i < length pre ->
     Regex.matches_at true LatexPreview.beginDocument s i = false) ->
  (forall j, j < length body ->
     Regex.matches_at true LatexPreview.endDocument s (length pre + 16 + j) = false) ->
  LatexPreview.LatexPreview katex s
  = match Js.trim body with
    | [] => [Placeholder]
    | _ :: _ =>
        flat_map (LatexPreview.preview_part katex)
                 (Regex.split true LatexPreview.MATH_REGEX (Js.trim body))
    end.
Proof.
  intros s Hbody Hbegin Hend. unfold LatexPreview.LatexPreview.
  assert (Hg : LatexPreview.getRenderableContent s = Js.trim body)
    by exact (getRenderableContent_body pre body post Hbody Hbegin Hend).
  rewrite Hg, trim_idem. reflexivity.
Qed.

Lemma preview_shows_document_body_witness :
  LatexPreview.LatexPreview (Some Sample.echo)
    (lit "\documentclass{article} " ++ lit "\begin{document}"
     ++ lit " Solve it. " ++ lit "\end{document}" ++ [])
  = [PlainSpan (lit "Solve it.")].
Proof.
  rewrite (preview_shows_document_body (Some Sample.echo)
             (lit "\documentclass{article} ") (lit " Solve it. ") []).
  - vm_compute. reflexivity.
  - discriminate.
  - intros i Hi.
    do 24 (destruct i as [|i]; [vm_compute; reflexivity|]).
    vm_compute in Hi. lia.
  - intros j Hj.
    do 11 (destruct j as [|j]; [vm_compute; reflexivity|]).
    vm_compute in Hj. lia.
Defined.

Section EditorMore.
Import Regex LatexEditor.

(** A starred class reads a run of units of the class. *)
Lemma star_class_reads ic neg items g k :
  forall n st e,
    star_loop (m ic (Set_ neg items)) g n st k = Some e ->
    exists run st',
      rest st = run ++ rest st'
      /\ pos st' = pos st + length run
      /\ Forall (fun c => takes ic neg items c = true) run
      /\ k st' = Some e.
Proof.
  induction n as [|n IH]; intros st e.
  - intros H. exists [], st. simpl. repeat split; [lia|constructor|exact H].
  - rewrite star_loop_S.
    assert (Hstay : k st = Some e ->
      exists run st',
        rest st = run ++ rest st' /\ pos st' = pos st + length run
        /\ Forall (fun c => takes ic neg items c = true) run /\ k st' = Some e).
    { intros H. exists [], st. simpl. repeat split; [lia|constructor|exact H]. }
    assert (Hagain :
      m ic (Set_ neg items) st (fun st' =>
        if pos st <? pos st' then star_loop (m ic (Set_ neg items)) g n st' k
        else None) = Some e ->
      exists run st',
        rest st = run ++ rest st' /\ pos st' = pos st + length run
        /\ Forall (fun c => takes ic neg items c = true) run /\ k st' = Some e).
    { cbn [m]. destruct (rest st) as [|c t] eqn:E; [discriminate|].
      destruct (takes ic neg items c) eqn:Ht; [|discriminate].
      destruct (pos st <? pos (advance st)); [|discriminate].
      intros H. apply IH in H as (run & st' & Hr & Hp & Hf & Hk).
      unfold advance in Hr, Hp. rewrite E in Hr, Hp. cbn [rest pos] in Hr, Hp.
      exists (c :: run), st'. cbn [app length]. rewrite Hr.
      repeat split; [lia|constructor; assumption|exact Hk]. }
    destruct g.
    + destruct (m ic (Set_ neg items) st _) eqn:Ea; cbn [orelse].
      * intros [= <-]. apply Hagain. reflexivity.
      * exact Hstay.
    + destruct (k st) eqn:Ek; cbn [orelse].
      * intros [= <-]. apply Hstay. reflexivity.
      * exact Hagain.
Qed.

(** What [commandRegex] matches: a backslash and the letters after it, up
    to the end of the text. *)
Lemma commandRegex_match (s : text) st0 e :
  sited s st0 ->
  match_here false commandRegex st0 = Some e ->
  exists run,
    rest st0 = "\"%char :: run
    /\ Forall (fun c => c <> "\"%char) run
    /\ cap e = Some (pos st0, length s).
Proof.
  intros Hs. unfold match_here, commandRegex.
  rewrite m_Seq, m_Group, m_Seq, m_Chr. cbn [rest].
  destruct (rest st0) as [|c t] eqn:E; [discriminate|].
  rewrite takes_chr. destruct (Ascii.eqb_spec c "\"%char) as [->|]; [|discriminate].
  rewrite m_Star. intros H. apply star_class_reads in H as (run & st' & Hr & Hp & Hf & H).
  rewrite m_AtEnd in H. cbn [rest pos] in H. destruct (rest st') eqn:E'; [|discriminate].
  injection H as <-. cbn [cap].
  unfold advance in Hr, Hp. cbn [rest pos] in Hr, Hp.
  rewrite app_nil_r in Hr. subst t.
  exists run. split; [reflexivity|]. split.
  - eapply Forall_impl; [exact Hf|]. intros c Hc ->. vm_compute in Hc. discriminate.
  - f_equal. f_equal. destruct Hs as [Hs1 Hs2]. rewrite E in Hs1.
    apply (f_equal length) in Hs1. rewrite length_drop in Hs1. simpl in Hs1. lia.
Qed.

Lemma lastIndexOf_absent (c : ascii) (s : text) :
  Forall (fun d => d <> c) s -> Js.lastIndexOf c s = None.
Proof.
  induction 1 as [|d s Hd _ IH]; [reflexivity|]. cbn [Js.lastIndexOf].
  rewrite IH. destruct (Ascii.eqb_spec d c); [contradiction|reflexivity].
Qed.

Lemma lastIndexOf_last (c : ascii) (pre run : text) :
  Forall (fun d => d <> c) run ->
  Js.lastIndexOf c (pre ++ c :: run) = Some (length pre).
Proof.
  intros Hrun. induction pre as [|d pre IH]; cbn [app Js.lastIndexOf length].
  - rewrite (lastIndexOf_absent c run Hrun), Ascii.eqb_refl. reflexivity.
  - rewrite IH. reflexivity.
Qed.

(** The query [handleKeyUp] reads before the caret, when there is one. *)
Lemma typed_query (textBeforeCursor : text) e :
  exec false commandRegex textBeforeCursor = Some e ->
  exists pre run,
    textBeforeCursor = pre ++ "\"%char :: run
    /\ Forall (fun c => c <> "\"%char) run
    /\ captured textBeforeCursor e = Some ("\"%char :: run).
Proof.
  intros H. apply exec_found in H as (st0 & Hs & H).
  destruct (commandRegex_match _ _ _ Hs H) as (run & Hr & Hf & Hc).
  exists (take (pos st0) textBeforeCursor), run.
  destruct Hs as [Hs1 Hs2]. rewrite Hs1 in Hr.
  split; [rewrite <- Hr; symmetry; apply take_drop|]. split; [exact Hf|].
  unfold captured. rewrite Hc. unfold Js.slice.
  rewrite take_ge by (rewrite length_drop; lia). rewrite Hr. reflexivity.
Qed.

End EditorMore.

(** X12.  Accepting a suggestion completes what was typed.  When the popup
    is open after a key-up, the text before the caret ends with a query,
    a backslash followed by units other than the backslash; every
    suggestion offered is a common command that starts with the query and
    differs from it; and applying one replaces exactly the query with the
    command, leaves the rest of the text as it is, puts the caret after
    the command and closes the popup. *)
Theorem accepted_suggestion_completes_query
    (ed : LatexEditor.Editor) (start : nat) (cmd : text) :
  LatexEditor.selectionStart ed = Some start ->
  LatexEditor.showSuggestions (LatexEditor.handleKeyUp ed) = true ->
  cmd ∈ LatexEditor.suggestions (LatexEditor.handleKeyUp ed) ->
  exists pre run,
    let query := "\"%char :: run in
    take start (LatexEditor.value ed) = pre ++ query
    /\ Forall (fun c => c <> "\"%char) run
    /\ Js.startsWith query cmd = true
    /\ cmd <> query
    /\ cmd ∈ LatexEditor.COMMON_COMMANDS
    /\ LatexEditor.applySuggestion cmd (LatexEditor.handleKeyUp ed)
       = LatexEditor.mkEditor
           (pre ++ cmd ++ drop start (LatexEditor.value ed))
           (Some (length pre + length cmd))
           (LatexEditor.suggestions (LatexEditor.handleKeyUp ed)) false.
Proof.
  intros Hsel. unfold LatexEditor.handleKeyUp. rewrite Hsel. cbv zeta.
  rewrite slice_0.
  destruct (Regex.exec false LatexEditor.commandRegex
              (take start (LatexEditor.value ed))) as [e|] eqn:He;
    [|cbn [LatexEditor.showSuggestions]; discriminate].
  destruct (typed_query _ _ He) as (pre & run & Htb & Hrun & Hcap).
  rewrite Hcap. cbn [default].
  destruct (filter _ LatexEditor.COMMON_COMMANDS) as [|c0 l0] eqn:Hfl;
    [cbn [LatexEditor.showSuggestions]; discriminate|].
  intros _ Hin. cbn [LatexEditor.suggestions] in Hin. rewrite <- Hfl in Hin.
  apply list_elem_of_filter in Hin as [Hp Hc].
  apply andb_true_iff in Hp as [Hp1 Hp2].
  exists pre, run. cbv zeta.
  split; [exact Htb|]. split; [exact Hrun|]. split; [exact Hp1|].
  split; [|split; [exact Hc|]].
  - intros ->. unfold LatexEditor.text_eqb in Hp2.
    rewrite bool_decide_eq_true_2 in Hp2 by reflexivity. discriminate.
  - unfold LatexEditor.applySuggestion.
    cbn [LatexEditor.selectionStart LatexEditor.value LatexEditor.suggestions].
    rewrite slice_0, Htb.
    rewrite (lastIndexOf_last "\" pre run Hrun). rewrite slice_0.
    assert (Hle : length pre <= start).
    { pose proof (f_equal length Htb) as Hlen.
      rewrite length_take, length_app in Hlen. lia. }
    assert (Hpre : take (length pre) (LatexEditor.value ed) = pre).
    { transitivity (take (length pre) (take start (LatexEditor.value ed))).
      - rewrite take_take. f_equal. lia.
      - rewrite Htb. apply take_app_length. }
    rewrite Hpre. reflexivity.
Qed.

Lemma accepted_suggestion_completes_query_witness :
  exists pre run,
    take 7 (lit "f = \fr + 1") = pre ++ "\"%char :: run
    /\ LatexEditor.value
         (LatexEditor.applySuggestion (lit "\frac")
            (LatexEditor.handleKeyUp Sample.typing_frac))
       = pre ++ lit "\frac" ++ lit " + 1".
Proof.
  destruct (accepted_suggestion_completes_query Sample.typing_frac 7 (lit "\frac"))
    as (pre & run & H1 & _ & _ & _ & _ & H2).
  - reflexivity.
  - vm_compute. reflexivity.
  - vm_compute. apply list_elem_of_here.
  - exists pre, run. split; [exact H1|]. rewrite H2. reflexivity.
Defined.

(** X13.  Without a backslash before the caret there is nothing to
    complete: a key-up closes the popup and keeps the suggestions it had,
    and applying a suggestion changes nothing at all. *)
Theorem no_backslash_no_completion
    (ed : LatexEditor.Editor) (start : nat) (cmd : text) :
  LatexEditor.selectionStart ed = Some start ->
  Forall (fun c => c <> "\"%char) (take start (LatexEditor.value ed)) ->
  LatexEditor.handleKeyUp ed
  = LatexEditor.mkEditor (LatexEditor.value ed) (Some start)
      (LatexEditor.suggestions ed) false
  /\ LatexEditor.applySuggestion cmd ed = ed.
Proof.
  intros Hsel Hplain. split.
  - unfold LatexEditor.handleKeyUp. rewrite Hsel. cbv zeta. rewrite slice_0.
    rewrite exec_none; [reflexivity|].
    intros st [Hr _]. unfold Regex.match_here, LatexEditor.commandRegex.
    rewrite m_Seq, m_Group, m_Seq, m_Chr. cbn [Regex.rest].
    rewrite Hr.
    destruct (drop (Regex.pos st) (take start (LatexEditor.value ed)))
      as [|c t] eqn:E; [reflexivity|].
    rewrite takes_chr.
    destruct (Ascii.eqb_spec c "\"%char) as [->|]; [|reflexivity].
    exfalso. rewrite List.Forall_forall in Hplain. apply (Hplain "\"%char); [|reflexivity].
    rewrite <- (take_drop (Regex.pos st) (take start (LatexEditor.value ed))), E.
    apply in_or_app. right. left. reflexivity.
  - unfold LatexEditor.applySuggestion. rewrite Hsel. cbv zeta. rewrite slice_0.
    rewrite (lastIndexOf_absent "\" _ Hplain). reflexivity.
Qed.

Lemma no_backslash_no_completion_witness :
  LatexEditor.applySuggestion (lit "\alpha")
    (LatexEditor.mkEditor (lit "x + y") (Some 3) [] true)
  = LatexEditor.mkEditor (lit "x + y") (Some 3) [] true.
Proof.
  refine (proj2 (no_backslash_no_completion
                   (LatexEditor.mkEditor (lit "x + y") (Some 3) [] true) 3
                   (lit "\alpha") _ _)).
  - reflexivity.
  - repeat constructor; discriminate.
Defined.

Section SplitOn.

Lemma split_on_length (sep : ascii) (s : text) :
  length (Js.split_on sep s) = S (count_occ ascii_dec s sep).
Proof.
  induction s as [|c s IH]; [reflexivity|]. cbn [Js.split_on count_occ].
  destruct (Ascii.eqb_spec c sep) as [->|Hne].
  - destruct (ascii_dec sep sep); [|congruence]. cbn [length]. rewrite IH. reflexivity.
  - destruct (ascii_dec c sep); [congruence|].
    destruct (Js.split_on sep s); [discriminate|exact IH].
Qed.

Lemma split_on_absent (sep : ascii) (s : text) :
  Forall (fun c => c <> sep) s -> Js.split_on sep s = [s].
Proof.
  induction 1 as [|c s Hc _ IH]; [reflexivity|]. cbn [Js.split_on].
  destruct (Ascii.eqb_spec c sep); [contradiction|]. rewrite IH. reflexivity.
Qed.

Lemma split_on_first (sep : ascii) (a b : text) :
  Forall (fun c => c <> sep) a ->
  Js.split_on sep (a ++ sep :: b) = a :: Js.split_on sep b.
Proof.
  induction 1 as [|c a Hc _ IH]; cbn [app Js.split_on].
  - rewrite Ascii.eqb_refl. reflexivity.
  - destruct (Ascii.eqb_spec c sep); [contradiction|]. rewrite IH. reflexivity.
Qed.

End SplitOn.

(** X14.  The gutter of the editor has one number per line: the line
    count is one more than the number of line feeds in the text, and the
    numbers run from 1 to the line count; an empty text has one line. *)
Theorem lineCount_counts_line_feeds (value : text) :
  LatexEditor.lineCount value = S (count_occ ascii_dec value "010"%char)
  /\ LatexEditor.lines value = seq 1 (S (count_occ ascii_dec value "010"%char))
  /\ forall a b : text,
       LatexEditor.lineCount (a ++ "010"%char :: b)
       = LatexEditor.lineCount a + LatexEditor.lineCount b.
Proof.
  unfold LatexEditor.lines, LatexEditor.lineCount. rewrite !split_on_length.
  split; [reflexivity|]. split; [reflexivity|].
  intros a b. rewrite !split_on_length, count_occ_app. cbn [count_occ].
  destruct (ascii_dec "010"%char "010"%char); [lia|congruence].
Qed.

(** X15.  A file of an accepted type is handed on with the second of the
    pieces its data URL falls into at the commas: the text after the
    first comma up to the next comma, or up to the end when there is no
    other.  This is the whole of what follows the first comma only when
    that holds no comma; a URL without comma hands on [undefined].  A file
    that is neither an image nor a PDF is refused with an alert and
    nothing is handed on. *)
Theorem handleFile_hands_on_payload
    (fileType header payload : text) (more : option text) :
  Forall (fun c => c <> ","%char) header ->
  Forall (fun c => c <> ","%char) payload ->
  (Js.startsWith (lit "image/") fileType = true \/ fileType = lit "application/pdf" ->
   FileUpload.handleFile fileType
     (header ++ ","%char :: payload
      ++ match more with Some rest => ","%char :: rest | None => [] end)
   = FileUpload.Selected (Some payload) fileType
   /\ FileUpload.handleFile fileType header = FileUpload.Selected None fileType)
  /\ (Js.startsWith (lit "image/") fileType = false ->
      fileType <> lit "application/pdf" ->
      forall readerResult,
        FileUpload.handleFile fileType readerResult
        = FileUpload.Alerted (lit "Please upload an image or PDF file.")).
Proof.
  intros Hh Hp. unfold FileUpload.handleFile. split.
  - intros Htype.
    assert (Hok : negb (Js.startsWith (lit "image/") fileType)
                  && negb (bool_decide (fileType = lit "application/pdf")) = false).
    { destruct Htype as [->| ->]; [reflexivity|].
      rewrite bool_decide_eq_true_2 by reflexivity. apply andb_false_r. }
    rewrite Hok. rewrite (split_on_first _ _ _ Hh), (split_on_absent _ _ Hh).
    split; [|reflexivity]. destruct more as [rest|].
    + rewrite (split_on_first _ _ _ Hp). reflexivity.
    + rewrite app_nil_r, (split_on_absent _ _ Hp). reflexivity.
  - intros H1 H2 readerResult. rewrite H1.
    rewrite bool_decide_eq_false_2 by exact H2. reflexivity.
Qed.

Lemma handleFile_hands_on_payload_witness :
  FileUpload.handleFile (lit "image/png")
    (lit "data:image/png;base64" ++ ","%char :: lit "iVBORw0KGgo=" ++ [])
  = FileUpload.Selected (Some (lit "iVBORw0KGgo=")) (lit "image/png")
  /\ FileUpload.handleFile (lit "image/x,y")
       (lit "data:image/x" ++ ","%char :: lit "y;base64" ++ ","%char :: lit "AAAA")
     = FileUpload.Selected (Some (lit "y;base64")) (lit "image/x,y").
Proof.
  split.
  - refine (proj1 (proj1 (handleFile_hands_on_payload (lit "image/png")
                            (lit "data:image/png;base64") (lit "iVBORw0KGgo=") None
                            _ _) _)).
    + repeat constructor; discriminate.
    + repeat constructor; discriminate.
    + left. reflexivity.
  - refine (proj1 (proj1 (handleFile_hands_on_payload (lit "image/x,y")
                            (lit "data:image/x") (lit "y;base64") (Some (lit "AAAA"))
                            _ _) _)).
    + repeat constructor; discriminate.
    + repeat constructor; discriminate.
    + left. reflexivity.
Defined.

Section DownloadMore.
Import Regex App.

Lemma replace_loop_S ic r by_ fuel stq :
  replace_loop ic r by_ (S fuel) stq
  = match match_here ic r stq with
    | Some e =>
        by_ ++ (if pos stq <? pos e then replace_loop ic r by_ fuel e
                else match rest stq with
                     | [] => []
                     | c :: _ => c :: replace_loop ic r by_ fuel (advance stq)
                     end)
    | None =>
        match rest stq with
        | [] => []
        | c :: _ => c :: replace_loop ic r by_ fuel (advance stq)
        end
    end.
Proof. reflexivity. Qed.

Lemma m_Set ic neg items st k :
  m ic (Set_ neg items) st k
  = match rest st with
    | c :: _ => if takes ic neg items c then k (advance st) else None
    | [] => None
    end.
Proof. reflexivity. Qed.

Lemma takes_space (c : ascii) : takes false false [CSpace] c = Js.is_space c.
Proof.
  unfold takes, class_has. cbn [existsb item_has xorb andb orb].
  destruct (Js.is_space c); reflexivity.
Qed.

Lemma star_loop_total step g n st k :
  (forall st', is_Some (k st')) -> is_Some (star_loop step g n st k).
Proof.
  intros Hk. destruct n as [|n]; [apply Hk|]. rewrite star_loop_S.
  destruct (Hk st) as [x Hx]. destruct g.
  - destruct (step st _); [eexists; reflexivity|]. rewrite Hx. eexists. reflexivity.
  - rewrite Hx. eexists. reflexivity.
Qed.

(** A run of white space is found wherever a unit of white space is
    next, and only there; the match is not empty. *)
Lemma whitespaceRun_hit st c t :
  rest st = c :: t -> Js.is_space c = true ->
  is_Some (match_here false whitespaceRun st).
Proof.
  intros Hr Hc. unfold match_here, whitespaceRun, Plus.
  rewrite m_Seq, m_Set. cbn [rest]. rewrite Hr, takes_space, Hc, m_Star.
  apply star_loop_total. intros st'. eexists. reflexivity.
Qed.

Lemma whitespaceRun_match st e :
  match_here false whitespaceRun st = Some e ->
  exists c t,
    rest st = c :: t /\ Js.is_space c = true
    /\ pos st < pos e /\ length (rest e) < length (rest st).
Proof.
  unfold match_here, whitespaceRun, Plus. rewrite m_Seq, m_Set. cbn [rest].
  destruct (rest st) as [|c t] eqn:E; [discriminate|].
  rewrite takes_space. destruct (Js.is_space c) eqn:Hc; [|discriminate].
  intros H. apply m_result_reads in H as (st' & (run & Hr & Hp) & [= <-]).
  unfold advance in Hr, Hp. cbn [rest pos] in Hr, Hp.
  exists c, t. split; [reflexivity|]. split; [exact Hc|].
  apply (f_equal length) in Hr. rewrite length_app in Hr. cbn [length]. lia.
Qed.

Lemma replace_no_space :
  forall fuel stq,
    length (rest stq) < fuel ->
    Forall (fun c => Js.is_space c = false)
           (replace_loop false whitespaceRun (lit "_") fuel stq).
Proof.
  induction fuel as [|fuel IH]; intros stq Hf; [lia|]. rewrite replace_loop_S.
  destruct (match_here false whitespaceRun stq) as [e|] eqn:Hm.
  - apply whitespaceRun_match in Hm as (c & t & Hr & Hc & Hp & Hl).
    apply Nat.ltb_lt in Hp. rewrite Hp.
    apply Forall_app. split; [repeat constructor|]. apply IH. lia.
  - destruct (rest stq) as [|c t] eqn:Hr; [constructor|].
    constructor.
    + destruct (Js.is_space c) eqn:Hc; [|reflexivity].
      destruct (whitespaceRun_hit stq c t Hr Hc) as [x Hx]. congruence.
    + apply IH. unfold advance. rewrite Hr. cbn [rest]. cbn [length] in Hf. lia.
Qed.

Lemma replace_plain :
  forall fuel stq,
    Forall (fun c => Js.is_space c = false) (rest stq) ->
    replace_loop false whitespaceRun (lit "_") fuel stq = rest stq.
Proof.
  induction fuel as [|fuel IH]; intros stq Hs; [reflexivity|]. rewrite replace_loop_S.
  destruct (match_here false whitespaceRun stq) as [e|] eqn:Hm.
  - apply whitespaceRun_match in Hm as (c & t & Hr & Hc & _).
    rewrite Hr in Hs. inversion Hs; congruence.
  - destruct (rest stq) as [|c t] eqn:Hr; [reflexivity|].
    rewrite IH; unfold advance; rewrite Hr; cbn [rest]; [reflexivity|].
    inversion Hs; assumption.
Qed.

Lemma lower_unit_space (c : ascii) : Js.is_space (Js.lower_unit c) = Js.is_space c.
Proof. destruct c as [[] [] [] [] [] [] [] []]; reflexivity. Qed.

Lemma lower_unit_lower (c : ascii) : Js.is_upper (Js.lower_unit c) = false.
Proof. destruct c as [[] [] [] [] [] [] [] []]; reflexivity. Qed.

End DownloadMore.

(** X16.  The exported file is named after the title of the question: the
    name ends in .tex, holds no white space and no upper-case letter, and
    for a title without white space it is the title in lower case.  The
    file holds the source as it is.  Nothing is exported for an empty
    source, in particular after the editor was cleared. *)
Theorem download_file_name (st : App.AppState) (title : text) :
  App.handleDownloadTex (App.handleClear st) = App.NoDownload
  /\ (App.latexSource st <> [] ->
      Value.get (App.activeQuestion st) "title" = VStr title ->
      exists name,
        App.handleDownloadTex st
        = App.Download (name ++ lit ".tex") (App.latexSource st)
        /\ Forall (fun c => Js.is_space c = false /\ Js.is_upper c = false) name
        /\ (Forall (fun c => Js.is_space c = false) title ->
            name = Js.toLowerCase title)).
Proof.
  split; [reflexivity|]. intros Hsrc Htitle. unfold App.handleDownloadTex.
  destruct (App.latexSource st) as [|c0 s0] eqn:Es; [congruence|]. rewrite Htitle.
  eexists. split; [reflexivity|]. split.
  - unfold Js.toLowerCase. rewrite Forall_map.
    eapply Forall_impl; [apply replace_no_space; cbn [Regex.rest Regex.start]; lia|].
    intros c Hc. cbn beta. rewrite lower_unit_space, lower_unit_lower. auto.
  - intros Hplain. unfold Regex.replace_all. rewrite replace_plain; [reflexivity|].
    exact Hplain.
Qed.

Lemma download_file_name_witness :
  exists name,
    App.handleDownloadTex Sample.graded_once
    = App.Download (name ++ lit ".tex") (App.latexSource Sample.graded_once)
    /\ Forall (fun c => Js.is_space c = false /\ Js.is_upper c = false) name.
Proof.
  destruct (proj2 (download_file_name Sample.graded_once (lit "New Assignment")))
    as (name & H1 & H2 & _).
  - vm_compute. discriminate.
  - vm_compute. reflexivity.
  - exists name. split; [exact H1 | exact H2].
Defined.


(** X18.  A grading run on a source that is not blank empties the error
    slot (a message left by a failed upload is gone), lowers the grading
    flag, and leaves the source, the uploaded file, the question and the
    conversion flag as they were.  When the call resolves, the answer is
    stored and the console receives one warning per failed attempt and
    nothing else: nothing at all when the first attempt succeeds. *)
Theorem grading_outcome (JSON_parse : text -> Service.JsError + jsval)
    (latex : text) (context : jsobj) (st : App.AppState) :
  Js.trim latex <> [] ->
  let op := Service.grade_op JSON_parse latex context in
  let r := Service.gradeLatexSubmission JSON_parse latex context (App.world st) in
  let st' := App.handleGrading JSON_parse latex context st in
  App.processing st'
  = App.mkProcessing (App.isConverting (App.processing st)) false None
  /\ App.latexSource st' = App.latexSource st
  /\ App.answerFile st' = App.answerFile st
  /\ App.activeQuestion st' = App.activeQuestion st
  /\ App.debouncedLatex st' = App.debouncedLatex st
  /\ App.world st' = Service.world_of r
  /\ (forall result,
        Service.result_of r = Service.Resolved result ->
        App.gradingResult st' = Some result
        /\ exists n,
             n <= 3
             /\ Service.invocations (Service.log_of r) = S n
             /\ App.console st'
                = App.console st
                  ++ Service.warnings op (lit "grade submission") 0 2000
                       (App.world st) n
             /\ (n = 0 -> App.console st' = App.console st)).
Proof.
  intros Hne op r st'. subst op r st'. unfold App.handleGrading.
  destruct (Js.trim latex) as [|c t]; [congruence|].
  cbv zeta. cbn [App.world App.grading_begins App.setProcessing].
  pose proof (withRetry_resolved_log (Service.grade_op JSON_parse latex context)
                (lit "grade submission") (App.world st)) as Hres.
  fold (Service.gradeLatexSubmission JSON_parse latex context (App.world st)) in Hres.
  destruct (Service.gradeLatexSubmission JSON_parse latex context (App.world st))
    as [[[result|err] w'] l]; cbn; repeat split; try congruence.
  match goal with H : Service.Resolved _ = Service.Resolved _ |- _ =>
    injection H as <- end.
  destruct (Hres result eq_refl) as (n & Hn & _ & _ & Hl).
  unfold Service.log_of in Hl. cbn [snd] in Hl. rewrite Hl.
  exists n. cbn [Service.invocations Service.console].
  split; [exact Hn|]. split; [reflexivity|]. split; [reflexivity|].
  intros ->. apply app_nil_r.
Qed.

Lemma grading_outcome_witness :
  App.processing
    (App.handleGrading Sample.no_json (lit "x = 1") Sample.question Sample.blank_source)
  = App.mkProcessing false false None
  /\ App.console
       (App.handleGrading (Sample.parse_to (VObj Sample.grading_without_types))
          (lit "x = 1") Sample.question
          (App.mkApp Sample.question (lit "x = 1") None None
             (App.mkProcessing false false None) (lit "x = 1") []
             (Sample.recovering (lit "{}"))))
     = [Service.Warned
          (lit "Gemini API Error (Attempt 1/4) for grade submission: Service Unavailable. Retrying in 2000ms...")].
Proof.
  split.
  - refine (proj1 (grading_outcome Sample.no_json (lit "x = 1") Sample.question
                     Sample.blank_source _)).
    vm_compute. discriminate.
  - destruct (proj2 (proj2 (proj2 (proj2 (proj2 (proj2
                (grading_outcome (Sample.parse_to (VObj Sample.grading_without_types))
                   (lit "x = 1") Sample.question
                   (App.mkApp Sample.question (lit "x = 1") None None
                      (App.mkProcessing false false None) (lit "x = 1") []
                      (Sample.recovering (lit "{}")))
                   ltac:(vm_compute; discriminate)))))))
                (VObj Sample.grading_without_types))
      as (_ & n & _ & Hinv & Hcon & _).
    + vm_compute. reflexivity.
    + rewrite Hcon.
      assert (Hn : n = 1) by (vm_compute in Hinv; congruence).
      rewrite Hn. vm_compute. reflexivity.
Defined.



(** X20.  Scanning a question never changes which question it is and
    never blanks a field.  When the scan updates the question, the id is
    the one the question had (the id generated by the extraction is used
    up and dropped), the file is attached with its type and name, each of
    title, description and total marks is either what it was or a truthy
    value, and every other property is as it was; removing the file
    afterwards takes out the attachment alone.  A file of another type is
    refused before anything is sent. *)
Theorem scan_keeps_question
    (JSON_parse : text -> Service.JsError + jsval) (randomUUID : nat -> text)
    (question : jsobj) (fileType fileName base64 : text) (w : Service.World) :
  (Js.startsWith (lit "image/") fileType = false ->
   fileType <> lit "application/pdf" ->
   QuestionSetup.handleScanQuestion JSON_parse randomUUID question
     fileType fileName base64 w
   = (QuestionSetup.Alerted (lit "Please select an image or PDF file."), w))
  /\ (forall q w',
      QuestionSetup.handleScanQuestion JSON_parse randomUUID question
        fileType fileName base64 w = (QuestionSetup.Updated q, w') ->
      Value.get q "id" = Value.get question "id"
      /\ Service.uuids w' = S (Service.uuids w)
      /\ Value.get q "questionImage"
         = VObj (<[ "data" := VStr base64 ]>
                 (<[ "mimeType" := VStr fileType ]>
                  (<[ "fileName" := VStr fileName ]> ∅)))
      /\ (forall k : string,
            k = "title"%string \/ k = "description"%string \/ k = "totalMarks"%string ->
            Value.get q k = Value.get question k
            \/ Value.truthy (Value.get q k) = true)
      /\ (forall k : string,
            k <> "title"%string -> k <> "description"%string ->
            k <> "totalMarks"%string -> k <> "questionImage"%string ->
            q !! k = question !! k)
      /\ QuestionSetup.handleRemoveQuestionFile q !! "questionImage"%string = None
      /\ (forall k : string,
            k <> "questionImage"%string ->
            QuestionSetup.handleRemoveQuestionFile q !! k = q !! k)).
Proof.
  unfold QuestionSetup.handleScanQuestion. split.
  - intros H1 H2. rewrite H1, bool_decide_eq_false_2 by exact H2. reflexivity.
  - intros q w'. destruct (_ && _); [discriminate|]. cbv zeta.
    pose proof (extraction_resolved JSON_parse randomUUID base64 fileType w) as Hres.
    destruct (Service.extractQuestionFromImage JSON_parse randomUUID base64 fileType w)
      as [[[extracted|e] w1] l]; [|discriminate].
    intros [= <- <-].
    destruct (Hres extracted eq_refl) as (_ & _ & _ & _ & Hid).
    split; [rewrite !get_insert_ne by discriminate; reflexivity|].
    split; [exact Hid|].
    split; [rewrite !get_insert_ne by discriminate; apply get_insert_eq|].
    split; [|split; [|split]].
    + intros k [-> | [-> | ->]];
        rewrite ?get_insert_eq, ?(get_insert_ne _ "totalMarks" "description"),
          ?(get_insert_ne _ "totalMarks" "title"),
          ?(get_insert_ne _ "description" "title"), ?get_insert_eq by discriminate;
        rewrite ?get_insert_eq;
        unfold Value.or;
        match goal with
        | |- context [Value.truthy (Value.get extracted ?k)] =>
            destruct (Value.truthy (Value.get extracted k)) eqn:Ht
        end;
        [right; exact Ht|left; apply get_insert_ne; discriminate
        |right; exact Ht|left; apply get_insert_ne; discriminate
        |right; exact Ht|left; apply get_insert_ne; discriminate].
    + intros k H1 H2 H3 H4. rewrite !lookup_insert_ne by congruence. reflexivity.
    + apply lookup_delete_eq.
    + intros k Hk. apply lookup_delete_ne. congruence.
Qed.

Lemma scan_keeps_question_witness :
  exists q w',
    QuestionSetup.handleScanQuestion (Sample.parse_to (VObj Sample.extracted_with_id))
      Sample.uuid_of Sample.question (lit "image/png") (lit "q.png") (lit "AAAA")
      (Sample.answering (lit "{}"))
    = (QuestionSetup.Updated q, w')
    /\ Value.get q "id" = Value.get Sample.question "id"
    /\ Service.uuids w' = 1.
Proof.
  pose (r := QuestionSetup.handleScanQuestion
               (Sample.parse_to (VObj Sample.extracted_with_id))
               Sample.uuid_of Sample.question (lit "image/png") (lit "q.png")
               (lit "AAAA") (Sample.answering (lit "{}"))).
  assert (E : r = (QuestionSetup.Updated
                     (match fst r with QuestionSetup.Updated q => q | _ => ∅ end),
                   snd r)) by (vm_compute; reflexivity).
  destruct (proj2 (scan_keeps_question (Sample.parse_to (VObj Sample.extracted_with_id))
                     Sample.uuid_of Sample.question (lit "image/png") (lit "q.png")
                     (lit "AAAA") (Sample.answering (lit "{}"))) _ _ E)
    as (H1 & H2 & _).
  eexists _, _. split; [exact E|]. split; [exact H1 | exact H2].
Defined.

(** X21.  The format button never blanks a field either.  With nothing
    in the field, or white space only, it returns at once and sends
    nothing.  When it updates the question, the field it was asked for
    receives a text that is not empty and every other property stays as
    it was; when the call is rejected the question is not updated and
    the error names the call. *)
Theorem magic_format_outcome (field : QuestionSetup.format_field)
    (question : jsobj) (w : Service.World) :
  (Value.truthy (Value.get question (QuestionSetup.field_key field)) = false ->
   QuestionSetup.handleMagicFormat field question w = (QuestionSetup.Skipped, w))
  /\ (forall t,
      Value.get question (QuestionSetup.field_key field) = VStr t ->
      Js.trim t = [] ->
      QuestionSetup.handleMagicFormat field question w = (QuestionSetup.Skipped, w))
  /\ (forall q w',
      QuestionSetup.handleMagicFormat field question w = (QuestionSetup.Formatted q, w') ->
      exists formatted,
        q = <[ QuestionSetup.field_key field := VStr formatted ]> question
        /\ formatted <> []
        /\ forall k, k <> QuestionSetup.field_key field -> q !! k = question !! k)
  /\ (forall e w',
      QuestionSetup.handleMagicFormat field question w
      = (QuestionSetup.FormatFailed e, w') ->
      e = Service.Error (lit "Usage limit exceeded for refine text to LaTeX. Please wait a moment before trying again.")
      \/ exists reason,
          e = Service.Error (lit "Failed to refine text to LaTeX: " ++ reason)).
Proof.
  unfold QuestionSetup.handleMagicFormat.
  destruct (Value.get question (QuestionSetup.field_key field)) as [| |b|z|t|l|o] eqn:Hv;
    cbn [Value.truthy];
    try (repeat split; intros; try discriminate; try congruence;
         match goal with H : _ = false |- _ => rewrite H; reflexivity
                       | |- _ => idtac end;
         match goal with
         | H : (if ?b then _ else _) = _ |- _ => destruct b; discriminate
         end).
  destruct (Js.trim t) as [|c t'] eqn:Ht.
  - repeat split; intros; try discriminate; try reflexivity.
  - pose proof (refine_resolved t w) as Hres.
    pose proof (fun e => withRetry_rejected_message (Service.refine_op t)
                           (lit "refine text to LaTeX") w e) as Hmsg.
    assert (Hcall : Service.refineTextToLatex t w
                    = Service.withRetry (Service.refine_op t)
                        (lit "refine text to LaTeX") w).
    { unfold Service.refineTextToLatex. rewrite Ht. reflexivity. }
    rewrite <- Hcall in Hmsg.
    destruct (Service.refineTextToLatex t w) as [[[formatted|e] w1] l1].
    + split; [destruct t; discriminate|]. split; [intros t0 [= <-]; congruence|].
      split; [|intros e w' H; discriminate].
      intros q w' [= <- <-]. exists formatted. split; [reflexivity|]. split.
      * apply (Hres formatted); [rewrite Ht; discriminate|reflexivity].
      * intros k Hk. apply lookup_insert_ne. congruence.
    + split; [destruct t; discriminate|]. split; [intros t0 [= <-]; congruence|].
      split; [intros q w' H; discriminate|].
      intros e' w' [= <- <-]. apply Hmsg. reflexivity.
Qed.

Lemma magic_format_outcome_witness :
  exists q w' formatted,
    QuestionSetup.handleMagicFormat QuestionSetup.Description Sample.question
      (Sample.answering (lit " Solve $x^2 = 4$. "))
    = (QuestionSetup.Formatted q, w')
    /\ q = <[ "description"%string := VStr formatted ]> Sample.question
    /\ formatted <> [].
Proof.
  pose (r := QuestionSetup.handleMagicFormat QuestionSetup.Description Sample.question
               (Sample.answering (lit " Solve $x^2 = 4$. "))).
  assert (E : r = (QuestionSetup.Formatted
                     (match fst r with QuestionSetup.Formatted q => q | _ => ∅ end),
                   snd r)) by (vm_compute; reflexivity).
  destruct (proj1 (proj2 (proj2 (magic_format_outcome QuestionSetup.Description
                                   Sample.question
                                   (Sample.answering (lit " Solve $x^2 = 4$. ")))))
              _ _ E) as (formatted & H1 & H2 & _).
  eexists _, _, formatted. split; [exact E|]. split; [exact H1 | exact H2].
Defined.

(** X22.  A solution scan changes the ideal solution and nothing else.
    When it updates the question, the ideal solution is a trimmed text,
    every other property is as it was, the requests sent are copies of
    the one transcription request, between one and four, and no id is
    handed out.  A file of another type is refused before anything is
    sent. *)
Theorem solution_scan_outcome (question : jsobj) (fileType base64 : text)
    (w : Service.World) :
  (Js.startsWith (lit "image/") fileType = false ->
   fileType <> lit "application/pdf" ->
   QuestionSetup.handleScanSolution question fileType base64 w
   = (QuestionSetup.Alerted (lit "Please select an image or PDF file."), w))
  /\ (forall q w',
      QuestionSetup.handleScanSolution question fileType base64 w
      = (QuestionSetup.Updated q, w') ->
      (exists solutionText,
          q = <[ "idealSolution" := VStr solutionText ]> question
          /\ Js.trim solutionText = solutionText)
      /\ (forall k : string, k <> "idealSolution"%string -> q !! k = question !! k)
      /\ (exists n, 1 <= n <= 4
                    /\ Service.requests w'
                       = Service.requests w
                         ++ replicate n (Service.ReqTranscribe base64 fileType))
      /\ Service.uuids w' = Service.uuids w).
Proof.
  unfold QuestionSetup.handleScanSolution. split.
  - intros H1 H2. rewrite H1, bool_decide_eq_false_2 by exact H2. reflexivity.
  - intros q w'. destruct (_ && _); [discriminate|].
    pose proof (transcribe_resolved_trimmed base64 fileType w) as Htrim.
    pose proof (withRetry_appends Service.requests
                  (Service.ReqTranscribe base64 fileType)
                  (Service.transcribe_op base64 fileType)
                  (lit "transcribe solution key") w
                  (transcribe_op_sends base64 fileType)) as Hsent.
    pose proof (withRetry_invoked (Service.transcribe_op base64 fileType)
                  (lit "transcribe solution key") w) as Hinv.
    assert (Hids : Service.uuids
                     (Service.world_of
                        (Service.transcribeSolutionImage base64 fileType w))
                   = Service.uuids w).
    { apply (withRetry_keeps Service.uuids). intros w0.
      unfold Service.transcribe_op, Service.generateContent.
      destruct (Service.gemini w0 _); reflexivity. }
    fold (Service.transcribeSolutionImage base64 fileType w) in Hsent, Hinv.
    destruct (Service.transcribeSolutionImage base64 fileType w)
      as [[[solutionText|e] w1] l]; [|discriminate].
    intros [= <- <-]. split; [|split; [|split]].
    + exists solutionText. split; [reflexivity|]. apply Htrim. reflexivity.
    + intros k Hk. apply lookup_insert_ne. congruence.
    + exists (Service.invocations l). split; [exact Hinv|exact Hsent].
    + exact Hids.
Qed.

Lemma solution_scan_outcome_witness :
  exists q w' solutionText,
    QuestionSetup.handleScanSolution Sample.question (lit "image/png") (lit "AAAA")
      (Sample.answering (lit " x = 2 "))
    = (QuestionSetup.Updated q, w')
    /\ q = <[ "idealSolution"%string := VStr solutionText ]> Sample.question
    /\ Js.trim solutionText = solutionText.
Proof.
  pose (r := QuestionSetup.handleScanSolution Sample.question (lit "image/png")
               (lit "AAAA") (Sample.answering (lit " x = 2 "))).
  assert (E : r = (QuestionSetup.Updated
                     (match fst r with QuestionSetup.Updated q => q | _ => ∅ end),
                   snd r)) by (vm_compute; reflexivity).
  destruct (proj2 (solution_scan_outcome Sample.question (lit "image/png") (lit "AAAA")
                     (Sample.answering (lit " x = 2 "))) _ _ E)
    as ((solutionText & H1 & H2) & _).
  eexists _, _, solutionText. split; [exact E|]. split; [exact H1 | exact H2].
Defined.

(** X23.  Inserting a snippet replaces the selection and nothing else:
    the text before the selection and the text after it are kept, the
    snippet stands between them, the caret is right after the snippet,
    and the popup is left as it was.  With an empty selection the text
    grows by the length of the snippet. *)
Theorem insertText_replaces_selection
    (snippet : text) (start selectionEnd : nat) (ed : LatexEditor.Editor) :
  LatexEditor.selectionStart ed = Some start ->
  start <= selectionEnd <= length (LatexEditor.value ed) ->
  let ed' := LatexEditor.insertText snippet selectionEnd ed in
  take start (LatexEditor.value ed') = take start (LatexEditor.value ed)
  /\ take (length snippet) (drop start (LatexEditor.value ed')) = snippet
  /\ drop (start + length snippet) (LatexEditor.value ed')
     = drop selectionEnd (LatexEditor.value ed)
  /\ LatexEditor.selectionStart ed' = Some (start + length snippet)
  /\ length (LatexEditor.value ed') + (selectionEnd - start)
     = length (LatexEditor.value ed) + length snippet
  /\ LatexEditor.showSuggestions ed' = LatexEditor.showSuggestions ed.
Proof.
  intros Hsel Hrange ed'. subst ed'. unfold LatexEditor.insertText.
  rewrite Hsel. cbn [LatexEditor.value LatexEditor.selectionStart
                     LatexEditor.showSuggestions].
  rewrite slice_0.
  assert (Hlen : length (take start (LatexEditor.value ed)) = start)
    by (rewrite length_take; lia).
  split; [|split; [|split; [|split; [reflexivity|split; [|reflexivity]]]]].
  - rewrite <- Hlen at 1. apply take_app_length.
  - rewrite <- Hlen at 1. rewrite drop_app_length. apply take_app_length.
  - rewrite <- Hlen at 1. rewrite <- drop_drop, drop_app_length, drop_app_length.
    reflexivity.
  - rewrite !length_app, Hlen, length_drop. lia.
Qed.

Lemma insertText_replaces_selection_witness :
  LatexEditor.selectionStart
    (LatexEditor.insertText (lit "\alpha") 7 Sample.typing_frac) = Some 13.
Proof.
  refine (proj1 (proj2 (proj2 (proj2
            (insertText_replaces_selection (lit "\alpha") 7 7 Sample.typing_frac _ _))))).
  - reflexivity.
  - vm_compute. split; [lia|]. repeat constructor.
Defined.

Section PreviewMore.
Import Regex LatexPreview.

Lemma trimEnd_snoc (s : text) (d : ascii) :
  Js.is_space d = false -> Js.trimEnd (s ++ [d]) = s ++ [d].
Proof.
  intros Hd. unfold Js.trimEnd. rewrite rev_app_distr. cbn [rev app Js.trimStart].
  rewrite Hd. cbn [rev]. rewrite rev_involutive. reflexivity.
Qed.

(** A text between two units that are not white space is trimmed. *)
Lemma trim_between (c d : ascii) (s : text) :
  Js.is_space c = false -> Js.is_space d = false ->
  Js.trim (c :: s ++ [d]) = c :: s ++ [d].
Proof.
  intros Hc Hd. unfold Js.trim. cbn [Js.trimStart]. rewrite Hc.
  change (c :: s ++ [d]) with ((c :: s) ++ [d]). apply trimEnd_snoc, Hd.
Qed.

Lemma startsWith_app (p s : text) : Js.startsWith p (p ++ s) = true.
Proof.
  induction p as [|a p IH]; [reflexivity|]. cbn [app Js.startsWith].
  rewrite Ascii.eqb_refl. exact IH.
Qed.

Lemma endsWith_app (p s : text) : endsWith p (s ++ p) = true.
Proof. unfold endsWith. rewrite rev_app_distr. apply startsWith_app. Qed.

Lemma slice_back_between (p q body : text) :
  length p = length q ->
  Js.slice_back (length p) (length q) (p ++ body ++ q) = body.
Proof.
  intros H. unfold Js.slice_back, Js.slice. rewrite drop_app_length, !length_app.
  replace (length p + (length body + length q) - length q - length p)
    with (length body) by lia.
  apply take_app_length.
Qed.

Lemma strip_double_dollar (body : text) :
  strip_delimiters (lit "$$" ++ body ++ lit "$$") = body.
Proof.
  unfold strip_delimiters. cbv zeta.
  assert (Ht : Js.trim (lit "$$" ++ body ++ lit "$$") = lit "$$" ++ body ++ lit "$$").
  { change (lit "$$") with ("$"%char :: ["$"%char]).
    replace (("$"%char :: ["$"%char]) ++ body ++ "$"%char :: ["$"%char])
      with ("$"%char :: ("$"%char :: body ++ ["$"%char]) ++ ["$"%char]).
    - apply trim_between; reflexivity.
    - cbn [app]. rewrite <- app_assoc. reflexivity. }
  rewrite Ht, startsWith_app.
  rewrite (app_assoc (lit "$$") body (lit "$$")), endsWith_app, <- app_assoc.
  cbn [andb]. apply (slice_back_between (lit "$$") (lit "$$")). reflexivity.
Qed.

Lemma strip_brackets (body : text) :
  strip_delimiters (lit "\[" ++ body ++ lit "\]") = body.
Proof.
  unfold strip_delimiters. cbv zeta.
  assert (Ht : Js.trim (lit "\[" ++ body ++ lit "\]") = lit "\[" ++ body ++ lit "\]").
  { change (lit "\[") with ("\"%char :: ["["%char]).
    change (lit "\]") with ("\"%char :: ["]"%char]).
    replace (("\"%char :: ["["%char]) ++ body ++ "\"%char :: ["]"%char])
      with ("\"%char :: ("["%char :: body ++ ["\"%char]) ++ ["]"%char]).
    - apply trim_between; reflexivity.
    - cbn [app]. rewrite <- app_assoc. reflexivity. }
  rewrite Ht.
  change (Js.startsWith (lit "$$") (lit "\[" ++ body ++ lit "\]")) with false.
  cbn [andb]. rewrite startsWith_app.
  rewrite (app_assoc (lit "\[") body (lit "\]")), endsWith_app, <- app_assoc.
  cbn [andb]. apply (slice_back_between (lit "\[") (lit "\]")). reflexivity.
Qed.

Lemma startsWith_second (a b : ascii) (s : text) :
  match s with c :: _ => c <> b | [] => True end ->
  Js.startsWith [a; b] (a :: s) = false.
Proof.
  cbn [Js.startsWith]. rewrite Ascii.eqb_refl. cbn [andb].
  destruct s as [|c s]; [reflexivity|]. intros H.
  destruct (Ascii.eqb_spec b c); [congruence|reflexivity].
Qed.

Lemma strip_dollar (body : text) :
  body <> [] ->
  match body with c :: _ => c <> "$"%char | [] => True end ->
  strip_delimiters ("$"%char :: body ++ ["$"%char]) = body.
Proof.
  intros Hne Hhead. unfold strip_delimiters. cbv zeta.
  rewrite trim_between by reflexivity.
  assert (Hdd : Js.startsWith (lit "$$") ("$"%char :: body ++ ["$"%char]) = false).
  { apply startsWith_second. destruct body as [|c b]; [congruence|exact Hhead]. }
  rewrite Hdd. cbn [andb].
  change (Js.startsWith (lit "\[") ("$"%char :: body ++ ["$"%char])) with false.
  cbn [andb].
  change (Js.startsWith (lit "$") ("$"%char :: body ++ ["$"%char])) with true.
  change ("$"%char :: body ++ ["$"%char]) with (("$"%char :: body) ++ lit "$") at 1.
  rewrite endsWith_app. cbn [andb negb]. apply slice_inner.
Qed.

(** A pattern anchored at the start is tried at the start only. *)
Lemma search_anchored_later ic r :
  forall n st, prev st <> None -> search ic (Seq AtStart r) n st = None.
Proof.
  induction n as [|n IH]; intros st Hp; cbn [search]; unfold match_here;
    rewrite m_Seq, m_AtStart; cbn [prev];
    destruct (prev st) eqn:E; try congruence.
  destruct (rest st) as [|c t] eqn:Er; [reflexivity|].
  apply IH. unfold advance. rewrite Er. cbn [prev]. discriminate.
Qed.

Lemma test_anchored ic r (s : text) :
  test ic (Seq AtStart r) s
  = match m ic r (start s) Some with Some _ => true | None => false end.
Proof.
  unfold test, exec.
  assert (Hhere : match_here ic (Seq AtStart r) (start s) = m ic r (start s) Some)
    by reflexivity.
  destruct (length s) as [|n]; cbn [search]; rewrite Hhere;
    destruct (m ic r (start s) Some); try reflexivity.
  destruct (rest (start s)) as [|c t] eqn:Er; [reflexivity|].
  rewrite search_anchored_later; [reflexivity|].
  unfold advance. rewrite Er. cbn [prev]. discriminate.
Qed.

Lemma m_Chr_hit ic c st t k :
  rest st = c :: t -> m ic (Chr c) st k = k (advance st).
Proof. intros H. rewrite m_Chr, H, takes_self. reflexivity. Qed.

Lemma displayStart_double_dollar (x : text) :
  test false displayStart (lit "$$" ++ x) = true.
Proof.
  unfold displayStart. rewrite test_anchored, m_Group. cbn [Alts]. rewrite m_Alt.
  rewrite start_reached, (m_Lit_hit false (lit "$$") [] x). reflexivity.
Qed.

Lemma displayStart_bracket (x : text) :
  test false displayStart (lit "\[" ++ x) = true.
Proof.
  unfold displayStart. rewrite test_anchored, m_Group. cbn [Alts]. rewrite !m_Alt.
  change (lit "$$") with ("$"%char :: lit "$").
  rewrite m_Lit_miss by reflexivity.
  rewrite start_reached, (m_Lit_hit false (lit "\[") [] x). reflexivity.
Qed.

Lemma displayStart_dollar (x : text) :
  match x with c :: _ => c <> "$"%char | [] => True end ->
  test false displayStart ("$"%char :: x) = false.
Proof.
  intros Hx. unfold displayStart. rewrite test_anchored, m_Group. cbn [Alts Seqs].
  rewrite !m_Alt, !m_Seq.
  change (lit "\[") with ("\"%char :: lit "[").
  change (lit "\begin") with ("\"%char :: lit "begin").
  rewrite !m_Lit_miss by reflexivity.
  change (Lit (lit "$$")) with (Seq (Chr "$") (Chr "$")).
  rewrite m_Seq, (m_Chr_hit false "$" (start ("$"%char :: x)) x) by reflexivity.
  rewrite m_Chr_miss; [reflexivity|].
  unfold advance, start. cbn [rest]. destruct x as [|c x']; [exact I|].
  apply takes_dollar_only, Hx.
Qed.

Lemma inlineStart_dollar (x : text) :
  test false inlineStart ("$"%char :: x) = true.
Proof.
  unfold inlineStart. rewrite test_anchored.
  rewrite (m_Chr_hit false "$" (start ("$"%char :: x)) x) by reflexivity.
  reflexivity.
Qed.

Lemma MathBlock_typeset (render : katex_engine) (content html : text) (d : bool) :
  render (strip_delimiters content) d = inl html ->
  MathBlock (Some render) content d = Typeset html d.
Proof.
  intros H. unfold MathBlock, MathBlock_effect, MathBlock_view. rewrite H.
  reflexivity.
Qed.

End PreviewMore.

(** X24.  The delimiters of a math part decide how it is typeset, and
    they are not part of what is typeset.  A part between double dollars
    or between escaped brackets is handed to the engine in display mode,
    a part between single dollars in inline mode, each time as the text
    between the delimiters; what the engine returns is what is shown. *)
Theorem preview_part_typesets_inner (render : katex_engine) (body html : text) :
  (render body true = inl html ->
   LatexPreview.preview_part (Some render) (lit "$$" ++ body ++ lit "$$")
   = [Typeset html true]
   /\ LatexPreview.preview_part (Some render) (lit "\[" ++ body ++ lit "\]")
      = [Typeset html true])
  /\ (render body false = inl html ->
      body <> [] ->
      match body with c :: _ => c <> "$"%char | [] => True end ->
      LatexPreview.preview_part (Some render) ("$"%char :: body ++ ["$"%char])
      = [Typeset html false]).
Proof.
  split.
  - intros H. split.
    + change (LatexPreview.preview_part (Some render) (lit "$$" ++ body ++ lit "$$"))
        with (if Regex.test false LatexPreview.displayStart
                   (lit "$$" ++ body ++ lit "$$")
              then [LatexPreview.MathBlock (Some render)
                      (lit "$$" ++ body ++ lit "$$") true]
              else if Regex.test false LatexPreview.inlineStart
                        (lit "$$" ++ body ++ lit "$$")
                   then [LatexPreview.MathBlock (Some render)
                           (lit "$$" ++ body ++ lit "$$") false]
                   else [PlainSpan (lit "$$" ++ body ++ lit "$$")]).
      rewrite displayStart_double_dollar.
      rewrite (MathBlock_typeset render _ html true); [reflexivity|].
      rewrite strip_double_dollar. exact H.
    + change (LatexPreview.preview_part (Some render) (lit "\[" ++ body ++ lit "\]"))
        with (if Regex.test false LatexPreview.displayStart
                   (lit "\[" ++ body ++ lit "\]")
              then [LatexPreview.MathBlock (Some render)
                      (lit "\[" ++ body ++ lit "\]") true]
              else if Regex.test false LatexPreview.inlineStart
                        (lit "\[" ++ body ++ lit "\]")
                   then [LatexPreview.MathBlock (Some render)
                           (lit "\[" ++ body ++ lit "\]") false]
                   else [PlainSpan (lit "\[" ++ body ++ lit "\]")]).
      rewrite displayStart_bracket.
      rewrite (MathBlock_typeset render _ html true); [reflexivity|].
      rewrite strip_brackets. exact H.
  - intros H Hne Hhead.
    change (LatexPreview.preview_part (Some render) ("$"%char :: body ++ ["$"%char]))
      with (if Regex.test false LatexPreview.displayStart
                 ("$"%char :: body ++ ["$"%char])
            then [LatexPreview.MathBlock (Some render)
                    ("$"%char :: body ++ ["$"%char]) true]
            else if Regex.test false LatexPreview.inlineStart
                      ("$"%char :: body ++ ["$"%char])
                 then [LatexPreview.MathBlock (Some render)
                         ("$"%char :: body ++ ["$"%char]) false]
                 else [PlainSpan ("$"%char :: body ++ ["$"%char])]).
    rewrite displayStart_dollar, inlineStart_dollar.
    + rewrite (MathBlock_typeset render _ html false); [reflexivity|].
      rewrite strip_dollar by assumption. exact H.
    + destruct body as [|c b]; [congruence|exact Hhead].
Qed.

Lemma preview_part_typesets_inner_witness :
  LatexPreview.preview_part (Some Sample.echo) (lit "$$" ++ lit "x^2" ++ lit "$$")
  = [Typeset (lit "x^2") true]
  /\ LatexPreview.preview_part (Some Sample.echo) ("$"%char :: lit "x^2" ++ ["$"%char])
     = [Typeset (lit "x^2") false].
Proof.
  split.
  - refine (proj1 (proj1 (preview_part_typesets_inner Sample.echo (lit "x^2") (lit "x^2")) _)).
    reflexivity.
  - refine (proj2 (preview_part_typesets_inner Sample.echo (lit "x^2") (lit "x^2")) _ _ _).
    + reflexivity.
    + discriminate.
    + discriminate.
Defined.

Section InlinePreview.
Import Regex LatexPreview.

Lemma takes_inline_body (c : ascii) :
  c <> "$"%char -> c <> "010"%char ->
  takes true true [CChr "$"; CChr "010"] c = true.
Proof.
  intros H1 H2.
  destruct c as [[] [] [] [] [] [] [] []]; try reflexivity; congruence.
Qed.

(** [MATH_REGEX], tried at the opening dollar of a pair on one line,
    takes the whole text through its last alternative. *)
Lemma MATH_REGEX_dollar_pair (s : text) :
  s <> [] -> Forall (fun c => c <> "$"%char /\ c <> "010"%char) s ->
  match_here true MATH_REGEX (start ("$"%char :: s ++ ["$"%char]))
  = Some (mkState (S (length s + 1)) (Some "$"%char) []
                  (Some (0, S (length s + 1)))).
Proof.
  intros Hne Hs. destruct s as [|c0 s]; [congruence|].
  inversion Hs as [|? ? [Hc0 Hn0] Hs']; subst.
  unfold match_here, MATH_REGEX. cbn [Alts Seqs]. unfold Plus.
  change (lit "$$") with ["$"%char; "$"%char].
  change (lit "\[") with ("\"%char :: lit "[").
  change (lit "\begin") with ("\"%char :: lit "begin").
  change (Lit ["$"%char; "$"%char]) with (Seq (Chr "$") (Chr "$")).
  unfold Chr.
  change (mkState (pos (start ("$"%char :: (c0 :: s) ++ ["$"%char]))) _ _ None)
    with (reached [] ("$"%char :: c0 :: s ++ ["$"%char]) None).
  rewrite m_Group, !m_Alt.
  (* the double dollar fails on the second unit *)
  rewrite (m_Seq true (Seq _ _)), (m_Seq true (Set_ false [CChr "$"])).
  rewrite m_class_hit by reflexivity.
  rewrite m_class_miss by (apply takes_dollar_only; exact Hc0).
  (* the bracket and the environment fail on the first unit *)
  rewrite (m_Seq true (Lit _)), m_Lit_miss by reflexivity.
  rewrite (m_Seq true (Lit _)), m_Lit_miss by reflexivity.
  (* the single-dollar form *)
  rewrite (m_Seq true (Set_ false [CChr "$"])).
  rewrite m_class_hit by reflexivity.
  rewrite (m_Seq true (Seq _ _)), (m_Seq true (Set_ true _)).
  rewrite m_class_hit by (apply takes_inline_body; assumption).
  rewrite m_Star.
  rewrite star_class_greedy.
  - rewrite m_class_hit by reflexivity.
    unfold orelse, reached. simpl.
    change (c0 :: s ++ ["$"%char]) with ((c0 :: s) ++ ["$"%char]).
    rewrite last_snoc, length_app. reflexivity.
  - reflexivity.
  - eapply Forall_impl; [exact Hs'|]. intros c [Hc1 Hc2].
    apply takes_inline_body; assumption.
  - unfold reached. simpl. rewrite length_app. simpl. lia.
  - rewrite m_class_hit by reflexivity. eexists. reflexivity.
Qed.

Lemma split_MATH_REGEX_dollar_pair (s : text) :
  s <> [] -> Forall (fun c => c <> "$"%char /\ c <> "010"%char) s ->
  split true MATH_REGEX ("$"%char :: s ++ ["$"%char])
  = [[]; "$"%char :: s ++ ["$"%char]; []].
Proof.
  intros Hne Hs. unfold split.
  rewrite Nat.add_1_r, split_loop_S.
  rewrite MATH_REGEX_dollar_pair by assumption.
  cbn [pos start Nat.ltb Nat.leb length Nat.eqb has_group MATH_REGEX].
  rewrite split_loop_done by (simpl; rewrite length_app; simpl; lia).
  unfold captured, Js.slice. cbn [cap default].
  rewrite Nat.sub_0_r. cbn [drop take app].
  replace (length s + 1) with (length (s ++ ["$"%char]))
    by (rewrite length_app; reflexivity).
  rewrite drop_all.
  change (S (length (s ++ ["$"%char]))) with (length ("$"%char :: s ++ ["$"%char])).
  rewrite Nat.sub_0_r, firstn_all. reflexivity.
Qed.

Lemma bodyRegex_needs_backslash st k :
  match rest st with [] => True | c :: _ => c <> "\"%char end ->
  m true bodyRegex st k = None.
Proof.
  intros H. unfold bodyRegex, beginDocument. cbn [Seqs]. rewrite !m_Seq.
  change (lit "\begin") with ("\"%char :: lit "begin").
  apply m_Lit_miss. destruct (rest st) as [|c t]; [exact I|].
  apply takes_backslash_only, H.
Qed.

(** A source without backslash has no document markers. *)
Lemma getRenderableContent_no_backslash (s : text) :
  Forall (fun c => c <> "\"%char) s -> getRenderableContent s = s.
Proof.
  intros Hs. destruct s as [|c0 s0] eqn:E; [reflexivity|]. rewrite <- E in *.
  rewrite getRenderableContent_cons by (rewrite E; discriminate).
  rewrite List.Forall_forall in Hs.
  unfold document_body. rewrite exec_none.
  - change (lit "\documentclass") with ("\"%char :: lit "documentclass").
    rewrite includes_head; [reflexivity|].
    intros Hin. apply Hs in Hin. congruence.
  - intros st [Hr _]. apply bodyRegex_needs_backslash. cbn [rest]. rewrite Hr.
    destruct (drop (pos st) s) as [|c t] eqn:Ed; [exact I|]. apply Hs.
    rewrite <- (take_drop (pos st) s), Ed. apply in_or_app. right. left. reflexivity.
Qed.

Lemma preview_part_dollar (katex : option katex_engine) (x : text) :
  match x with c :: _ => c <> "$"%char | [] => True end ->
  preview_part katex ("$"%char :: x) = [MathBlock katex ("$"%char :: x) false].
Proof.
  intros Hx.
  change (preview_part katex ("$"%char :: x))
    with (if test false displayStart ("$"%char :: x)
          then [MathBlock katex ("$"%char :: x) true]
          else if test false inlineStart ("$"%char :: x)
               then [MathBlock katex ("$"%char :: x) false]
               else [PlainSpan ("$"%char :: x)]).
  rewrite displayStart_dollar, inlineStart_dollar by exact Hx. reflexivity.
Qed.

End InlinePreview.

(** X25.  A source that is one pair of dollars on one line, with no
    backslash between them, is previewed as one inline math block: the
    engine receives the text between the dollars in inline mode, and a
    source the engine accepts is shown as the markup it returns. *)
Theorem preview_of_dollar_pair (katex : option katex_engine) (s : text) :
  s <> [] ->
  Forall (fun c => c <> "$"%char /\ c <> "010"%char /\ c <> "\"%char) s ->
  LatexPreview.LatexPreview katex ("$"%char :: s ++ ["$"%char])
  = [LatexPreview.MathBlock katex ("$"%char :: s ++ ["$"%char]) false]
  /\ LatexPreview.strip_delimiters ("$"%char :: s ++ ["$"%char]) = s
  /\ forall render html,
       katex = Some render -> render s false = inl html ->
       LatexPreview.LatexPreview katex ("$"%char :: s ++ ["$"%char])
       = [Typeset html false].
Proof.
  intros Hne Hs.
  assert (Hhead : match s ++ ["$"%char] with
                  | c :: _ => c <> "$"%char
                  | [] => True
                  end).
  { destruct s as [|c s']; [congruence|]. inversion Hs as [|? ? [H _] _]. exact H. }
  assert (Hhead' : match s with c :: _ => c <> "$"%char | [] => True end).
  { destruct s as [|c s']; [exact I|]. inversion Hs as [|? ? [H _] _]. exact H. }
  assert (Hpreview :
    LatexPreview.LatexPreview katex ("$"%char :: s ++ ["$"%char])
    = [LatexPreview.MathBlock katex ("$"%char :: s ++ ["$"%char]) false]).
  { unfold LatexPreview.LatexPreview.
    rewrite getRenderableContent_no_backslash.
    - rewrite trim_between by reflexivity.
      rewrite split_MATH_REGEX_dollar_pair.
      + cbn [flat_map]. rewrite preview_part_dollar by exact Hhead. reflexivity.
      + exact Hne.
      + eapply Forall_impl; [exact Hs|]. intros c (H1 & H2 & _). auto.
    - constructor; [discriminate|]. apply Forall_app. split.
      + eapply Forall_impl; [exact Hs|]. intros c (_ & _ & H3). exact H3.
      + repeat constructor. discriminate. }
  split; [exact Hpreview|]. split; [apply strip_dollar; assumption|].
  intros render html -> Hr. rewrite Hpreview.
  rewrite (MathBlock_typeset render _ html false); [reflexivity|].
  rewrite strip_dollar by assumption. exact Hr.
Qed.

Lemma preview_of_dollar_pair_witness :
  LatexPreview.LatexPreview (Some Sample.echo) ("$"%char :: lit "x^2=4" ++ ["$"%char])
  = [Typeset (lit "x^2=4") false].
Proof.
  refine (proj2 (proj2 (preview_of_dollar_pair (Some Sample.echo) (lit "x^2=4") _ _))
            Sample.echo (lit "x^2=4") eq_refl eq_refl).
  - discriminate.
  - repeat constructor; discriminate.
Defined.

Section ExplicitMore.
Import Regex FormattedText.

Lemma explicit_part_eq (part : text) :
  explicit_part part
  = if Js.startsWith (lit "$$") part || Js.startsWith (lit "\[") part
       || (Js.startsWith (lit "$") part || Js.startsWith (lit "\(") part)
    then [EMath
            (if Js.startsWith (lit "$$") part then Js.slice_back 2 2 part
             else if Js.startsWith (lit "\[") part then Js.slice_back 2 2 part
             else if Js.startsWith (lit "\(") part then Js.slice_back 2 2 part
             else if Js.startsWith (lit "$") part then Js.slice_back 1 1 part
             else part)
            (Js.startsWith (lit "$$") part || Js.startsWith (lit "\[") part)
            false]
    else TextWithImplicitMath part.
Proof. reflexivity. Qed.

(** A pattern that ends with a unit absent from what is ahead fails. *)
Lemma m_then_Chr_absent ic a d st k :
  Forall (fun c => takes ic false [CChr d] c = false) (rest st) ->
  m ic (Seq a (Chr d)) st k = None.
Proof.
  intros Hs. rewrite m_Seq.
  destruct (m ic a st _) as [e|] eqn:H; [|reflexivity]. exfalso.
  apply m_result_reads in H as (st' & (run & Hr & _) & H).
  rewrite m_Chr in H. destruct (rest st') as [|c t'] eqn:E; [discriminate|].
  rewrite Hr, List.Forall_forall in Hs.
  rewrite (Hs c) in H; [discriminate|]. apply in_or_app. right. left. reflexivity.
Qed.

Lemma delimiterRegex_start st k :
  plain_ahead st -> m false delimiterRegex st k = None.
Proof.
  intros H. unfold delimiterRegex. rewrite m_Group. cbn [Alts Seqs].
  rewrite !m_Alt, !m_Seq.
  change (lit "$$") with ("$"%char :: lit "$").
  change (lit "\[") with ("\"%char :: lit "[").
  change (lit "\(") with ("\"%char :: lit "(").
  rewrite !m_Lit_miss by (apply plain_no_dollar, H || apply plain_no_backslash, H).
  rewrite m_Chr_miss by apply plain_no_dollar, H.
  reflexivity.
Qed.

(** A dollar that is never closed starts no math. *)
Lemma delimiterRegex_unclosed st k (t : text) :
  rest st = "$"%char :: t -> plain t -> m false delimiterRegex st k = None.
Proof.
  intros Hr Ht. unfold delimiterRegex. rewrite m_Group. cbn [Alts Seqs].
  rewrite !m_Alt.
  assert (Hnext : match rest (advance st) with
                  | [] => True
                  | c :: _ => takes false false [CChr "$"] c = false
                  end).
  { unfold advance. rewrite Hr. cbn [rest].
    destruct t as [|c t']; [exact I|]. inversion Ht as [|? ? [H _] _].
    apply takes_dollar_only, H. }
  (* the double dollar *)
  rewrite (m_Seq false (Lit (lit "$$"))).
  change (Lit (lit "$$")) with (Seq (Chr "$") (Chr "$")).
  rewrite m_Seq, (m_Chr_hit false "$" st t) by exact Hr.
  rewrite m_Chr_miss by exact Hnext.
  (* the escaped brackets and parentheses *)
  change (lit "\[") with ("\"%char :: lit "[").
  change (lit "\(") with ("\"%char :: lit "(").
  rewrite (m_Seq false (Lit ("\"%char :: lit "["))), m_Lit_miss
    by (rewrite Hr; reflexivity).
  rewrite (m_Seq false (Lit ("\"%char :: lit "("))), m_Lit_miss
    by (rewrite Hr; reflexivity).
  (* the single dollar: no closing dollar ahead *)
  rewrite (m_Seq false (Chr "$")), (m_Chr_hit false "$" st t) by exact Hr.
  rewrite m_then_Chr_absent; [reflexivity|].
  unfold advance. rewrite Hr. cbn [rest].
  eapply Forall_impl; [exact Ht|]. intros c [H _]. apply takes_dollar_only, H.
Qed.

Lemma plain_drop (t : text) (i : nat) : plain t -> plain (drop i t).
Proof.
  unfold plain. rewrite !List.Forall_forall. intros H c Hc. apply H.
  rewrite <- (take_drop i t). apply in_or_app. right. exact Hc.
Qed.

Lemma split_unclosed_dollar (t : text) :
  plain t -> split false delimiterRegex ("$"%char :: t) = ["$"%char :: t].
Proof.
  intros Ht. apply split_none; [discriminate|].
  intros st [Hr _]. unfold match_here. destruct (pos st) as [|i] eqn:Ep.
  - apply (delimiterRegex_unclosed _ _ t); [cbn [rest]; rewrite Hr; reflexivity|].
    exact Ht.
  - apply delimiterRegex_start. unfold plain_ahead. cbn [rest]. rewrite Hr.
    cbn [drop]. pose proof (plain_drop t i Ht) as Hd.
    destruct (drop i t) as [|c t']; [exact I|]. inversion Hd; assumption.
Qed.

End ExplicitMore.

(** X26.  Explicit delimiters are taken off and decide the mode.  A part
    between double dollars or escaped brackets becomes display math, a
    part between escaped parentheses inline math, each with the text
    between the delimiters as its content; none of them is a guess that
    may fall back to plain text. *)
Theorem explicit_part_strips_delimiters (body : text) :
  FormattedText.explicit_part (lit "$$" ++ body ++ lit "$$")
  = [FormattedText.EMath body true false]
  /\ FormattedText.explicit_part (lit "\[" ++ body ++ lit "\]")
     = [FormattedText.EMath body true false]
  /\ FormattedText.explicit_part (lit "\(" ++ body ++ lit "\)")
     = [FormattedText.EMath body false false].
Proof.
  split; [|split]; rewrite explicit_part_eq.
  - rewrite startsWith_app. cbn [orb].
    rewrite (slice_back_between (lit "$$") (lit "$$")) by reflexivity. reflexivity.
  - change (Js.startsWith (lit "$$") (lit "\[" ++ body ++ lit "\]")) with false.
    rewrite startsWith_app. cbn [orb].
    rewrite (slice_back_between (lit "\[") (lit "\]")) by reflexivity. reflexivity.
  - change (Js.startsWith (lit "$$") (lit "\(" ++ body ++ lit "\)")) with false.
    change (Js.startsWith (lit "\[") (lit "\(" ++ body ++ lit "\)")) with false.
    change (Js.startsWith (lit "$") (lit "\(" ++ body ++ lit "\)")) with false.
    rewrite startsWith_app. cbn [orb].
    rewrite (slice_back_between (lit "\(") (lit "\)")) by reflexivity. reflexivity.
Qed.

(** X27.  A dollar sign that opens a text and is never closed is taken
    for inline math all the same: with no other dollar sign and no
    backslash in the text, the whole text is one part, it starts with a
    dollar, and its content is the text without its first and its last
    unit.  The last unit of the text is not shown. *)
Theorem unclosed_dollar_loses_units (t : text) :
  Forall (fun c => c <> "$"%char /\ c <> "\"%char) t ->
  FormattedText.FormattedText ("$"%char :: t)
  = Some [FormattedText.EMath (take (length t - 1) t) false false].
Proof.
  intros Ht. unfold FormattedText.FormattedText.
  rewrite (split_unclosed_dollar t Ht). cbn [flat_map]. rewrite app_nil_r.
  rewrite explicit_part_eq.
  assert (Hdd : Js.startsWith (lit "$$") ("$"%char :: t) = false).
  { apply startsWith_second. destruct t as [|c t']; [exact I|].
    inversion Ht as [|? ? [H _] _]. exact H. }
  rewrite Hdd.
  change (Js.startsWith (lit "\[") ("$"%char :: t)) with false.
  change (Js.startsWith (lit "\(") ("$"%char :: t)) with false.
  change (Js.startsWith (lit "$") ("$"%char :: t)) with true.
  cbn [orb]. unfold Js.slice_back, Js.slice. cbn [length drop].
  replace (S (length t) - 1 - 1) with (length t - 1) by lia. reflexivity.
Qed.

Lemma unclosed_dollar_loses_units_witness :
  FormattedText.FormattedText (lit "$5 today")
  = Some [FormattedText.EMath (lit "5 toda") false false].
Proof.
  refine (unclosed_dollar_loses_units (lit "5 today") _).
  repeat constructor; discriminate.
Defined.
